(** * Offline download and cache subsystem

    A shallow embedding of the download manager (the [DownloadManager]
    class) and of the IndexedDB-backed storage manager
    ([src/lib/services/storage-manager.ts]) of the Noorbakhshia archive
    application, followed by the properties established about them.

    Conventions of the embedding:
    - JavaScript numbers that hold byte counts and timestamps are integers
      ([Z]); the percentage [progress] is an exact rational ([Q]) where the
      source computes it in floating point.
    - A JavaScript [Map] is an association list in insertion order, a [Set]
      a duplicate-free list in insertion order.
    - An IndexedDB object store with a [keyPath] is the list of its records
      in key order; the key of a record is read off the record.
    - [Date.now()] is the [clock] field of the world.
    - Asynchronous code is cut at its long [await]s: [startDownload] at
      the lookup of the lecture and at the fetch. A suspended invocation is
      an element of the [inflight] list, and resuming it is an event of the
      step function. A request to the database is not a cut: the methods
      that await nothing else are one step each, run to their end, and the
      two writes that follow the fetch belong to the step in which the
      fetch resolves.
    - A request to the database takes effect in the step that issues it:
      IndexedDB carries out the transactions on an object store in the
      order in which they were created, so that every read issued later
      sees the write.
    - A write may be rejected (the quota is exceeded, the transaction is
      aborted). Inside the [try] block of [startDownload], where the code
      reacts to it, a rejected write is an event of its own; the other
      methods are embedded with their awaited writes carried out. The save
      that [updateTask] starts without awaiting it is carried out in
      [updateTask] and rejected in [updateTask_unsaved]: the code never
      looks at its outcome, and the manager reads the [downloads] store in
      [loadExistingTasks] only, so that the two differ in that store and
      in nothing else until the next loading.
    - The storage estimate of the browser changes by an event of the
      environment. *)

From Stdlib Require Import ZArith List String Ascii Bool Lia QArith.
From Stdlib Require Import Sorting.Sorted Sorting.Permutation.
From Stdlib Require Import Structures.OrderedTypeEx.
Import ListNotations.

Open Scope string_scope.
Open Scope Z_scope.

(* ================================================================== *)
(** ** Data model ([$lib/types]) *)

Inductive Status : Type :=
  | pending | downloading | completed | failed | paused.

Definition Status_eqb (a b : Status) : bool :=
  match a, b with
  | pending, pending | downloading, downloading | completed, completed
  | failed, failed | paused, paused => true
  | _, _ => false
  end.

Record DownloadTask : Type := mkTask {
  lectureId : string;
  status : Status;
  progress : Q;
  bytesDownloaded : Z;
  totalBytes : Z;
  startedAt : option Z;
  completedAt : option Z;
  error : option string
}.

(** [Partial<DownloadTask>] as it is passed to [updateTask]: a field that is
    absent from the object literal is [None]; [error: undefined] is
    [Some None]. *)
Record TaskUpdates : Type := mkUpdates {
  u_status : option Status;
  u_progress : option Q;
  u_bytesDownloaded : option Z;
  u_totalBytes : option Z;
  u_startedAt : option Z;
  u_completedAt : option Z;
  u_error : option (option string)
}.

Definition noUpdates : TaskUpdates := mkUpdates None None None None None None None.

Definition orKeep {A} (u : option A) (old : A) : A :=
  match u with Some v => v | None => old end.

(** [{ ...task, ...updates }] *)
Definition spread (task : DownloadTask) (updates : TaskUpdates) : DownloadTask :=
  {| lectureId := lectureId task;
     status := orKeep (u_status updates) (status task);
     progress := orKeep (u_progress updates) (progress task);
     bytesDownloaded := orKeep (u_bytesDownloaded updates) (bytesDownloaded task);
     totalBytes := orKeep (u_totalBytes updates) (totalBytes task);
     startedAt := match u_startedAt updates with Some v => Some v | None => startedAt task end;
     completedAt := match u_completedAt updates with Some v => Some v | None => completedAt task end;
     error := orKeep (u_error updates) (error task) |}.

(** The fields of [Lecture] the download code reads or writes; the
    descriptive fields (title, creator, ...) are carried along untouched by
    the source and are left out. *)
Record Lecture : Type := mkLecture {
  id : string;
  fileUrl : string;
  fileSize : Z;
  downloadedAt : option Z;
  isDownloaded : option bool
}.

(** A [Blob] is opaque to this code apart from its [size]. *)
Record Blob : Type := mkBlob {
  blob_data : string;
  blob_size : Z
}.

(** A record of the [audioCache] object store. *)
Record CacheEntry : Type := mkEntry {
  ce_lectureId : string;
  ce_blob : Blob;
  ce_size : Z;
  cachedAt : Z;
  lastAccessed : Z
}.

Record StorageStats : Type := mkStats {
  used : Z;
  available : Z;
  quota : Z;
  usedPercentage : Q;
  audioSize : Z;
  cacheSize : Z
}.

(* ================================================================== *)
(** ** IndexedDB object stores with a key path *)

Section ObjectStore.
Context {V : Type} (keyOf : V -> string).

(** [db.get(store, key)] *)
Fixpoint idb_get (k : string) (s : list V) : option V :=
  match s with
  | [] => None
  | v :: rest => if (keyOf v =? k)%string then Some v else idb_get k rest
  end.

(** [db.put(store, value)]: replaces the record with the same key, or
    inserts the record at its place in key order. *)
Fixpoint idb_put (v : V) (s : list V) : list V :=
  match s with
  | [] => [v]
  | w :: rest =>
      match String.compare (keyOf v) (keyOf w) with
      | Eq => v :: rest
      | Lt => v :: w :: rest
      | Gt => w :: idb_put v rest
      end
  end.

(** [db.delete(store, key)] *)
Definition idb_delete (k : string) (s : list V) : list V :=
  filter (fun v => negb (keyOf v =? k)%string) s.

(** [db.getAll(store)] and [db.getAllKeys(store)] *)
Definition idb_getAll (s : list V) : list V := s.
Definition idb_getAllKeys (s : list V) : list string := map keyOf s.

(** Keys of a store are pairwise different. *)
Fixpoint uniqueKeys (s : list V) : bool :=
  match s with
  | [] => true
  | v :: rest =>
      negb (existsb (fun w => (keyOf w =? keyOf v)%string) rest) && uniqueKeys rest
  end.

(** Keys of a store are in strictly ascending order, the order in which
    IndexedDB keeps and lists the records. *)
Definition keysAbove (k : string) (s : list V) : bool :=
  forallb (fun w => match String.compare k (keyOf w) with Lt => true | _ => false end) s.

Fixpoint keyOrdered (s : list V) : bool :=
  match s with
  | [] => true
  | v :: rest => keysAbove (keyOf v) rest && keyOrdered rest
  end.
End ObjectStore.

Record DB : Type := mkDB {
  lectures : list Lecture;
  audioCache : list CacheEntry;
  downloads : list DownloadTask
}.

Definition dbOrdered (d : DB) : bool :=
  keyOrdered id (lectures d) && keyOrdered ce_lectureId (audioCache d)
  && keyOrdered lectureId (downloads d).

Definition with_lectures (d : DB) (l : list Lecture) : DB :=
  mkDB l (audioCache d) (downloads d).
Definition with_audioCache (d : DB) (c : list CacheEntry) : DB :=
  mkDB (lectures d) c (downloads d).
Definition with_downloads (d : DB) (t : list DownloadTask) : DB :=
  mkDB (lectures d) (audioCache d) t.

(* ================================================================== *)
(** ** StorageManager *)

Module StorageManager.

Definition saveLecture (lecture : Lecture) (d : DB) : DB :=
  with_lectures d (idb_put id lecture (lectures d)).

Definition getLecture (i : string) (d : DB) : option Lecture :=
  idb_get id i (lectures d).

Definition cacheAudio (now : Z) (i : string) (blob : Blob) (d : DB) : DB :=
  with_audioCache d
    (idb_put ce_lectureId
       {| ce_lectureId := i; ce_blob := blob; ce_size := blob_size blob;
          cachedAt := now; lastAccessed := now |}
       (audioCache d)).

Definition getCachedAudio (now : Z) (i : string) (d : DB) : option Blob * DB :=
  match idb_get ce_lectureId i (audioCache d) with
  | Some cached =>
      (Some (ce_blob cached),
       with_audioCache d
         (idb_put ce_lectureId
            {| ce_lectureId := ce_lectureId cached; ce_blob := ce_blob cached;
               ce_size := ce_size cached; cachedAt := cachedAt cached;
               lastAccessed := now |}
            (audioCache d)))
  | None => (None, d)
  end.

Definition isAudioCached (i : string) (d : DB) : bool :=
  match idb_get ce_lectureId i (audioCache d) with
  | Some _ => true
  | None => false
  end.

Definition deleteCachedAudio (i : string) (d : DB) : DB :=
  with_audioCache d (idb_delete ce_lectureId i (audioCache d)).

Definition getAllCachedAudioIds (d : DB) : list string :=
  idb_getAllKeys ce_lectureId (audioCache d).

Definition saveDownloadTask (task : DownloadTask) (d : DB) : DB :=
  with_downloads d (idb_put lectureId task (downloads d)).

Definition getAllDownloads (d : DB) : list DownloadTask :=
  idb_getAll (downloads d).

Definition deleteDownloadTask (i : string) (d : DB) : DB :=
  with_downloads d (idb_delete lectureId i (downloads d)).

(** [navigator.storage.estimate()], when the browser has it: the pair
    (quota, usage), each already defaulted with [|| 0]. *)
Definition StorageEstimate : Type := option (Z * Z).

Definition getStorageStats (est : StorageEstimate) (d : DB) : StorageStats :=
  let audio := fold_left (fun total item => total + ce_size item) (idb_getAll (audioCache d)) 0 in
  let '(q, u) := match est with Some (q, u) => (q, u) | None => (0, 0) end in
  {| used := u;
     available := q - u;
     quota := q;
     usedPercentage :=
       if 0 <? q then Qred (Qmake (u * 100) (Z.to_pos q)) else 0%Q;
     audioSize := audio;
     cacheSize := u - audio |}.

(** [allCached.sort((a, b) => a.lastAccessed - b.lastAccessed)]: the sort
    of ECMAScript is stable, so it is the stable insertion sort. *)
Fixpoint insertByAccess (x : CacheEntry) (l : list CacheEntry) : list CacheEntry :=
  match l with
  | [] => [x]
  | y :: rest =>
      if lastAccessed x <=? lastAccessed y then x :: y :: rest
      else y :: insertByAccess x rest
  end.

Fixpoint sortByAccess (l : list CacheEntry) : list CacheEntry :=
  match l with
  | [] => []
  | x :: rest => insertByAccess x (sortByAccess rest)
  end.

(** The [for ... of] loop of [evictToFreeSpace], with its two
    accumulators. *)
Fixpoint evictLoop (items : list CacheEntry) (targetBytes freedBytes : Z)
    (toDelete : list string) : Z * list string :=
  match items with
  | [] => (freedBytes, toDelete)
  | item :: rest =>
      if freedBytes >=? targetBytes then (freedBytes, toDelete)
      else evictLoop rest targetBytes (freedBytes + ce_size item)
                     (toDelete ++ [ce_lectureId item])
  end.

Definition evictToFreeSpace (targetBytes : Z) (d : DB) : Z * DB :=
  let allCached := sortByAccess (idb_getAll (audioCache d)) in
  let '(freedBytes, toDelete) := evictLoop allCached targetBytes 0 [] in
  (freedBytes,
   with_audioCache d
     (fold_left (fun s i => idb_delete ce_lectureId i s) toDelete (audioCache d))).

End StorageManager.

(* ================================================================== *)
(** ** JavaScript [Map] and [Set] *)

Section JsMap.
Context {V : Type}.

Fixpoint map_get (k : string) (m : list (string * V)) : option V :=
  match m with
  | [] => None
  | (k', v) :: rest => if (k' =? k)%string then Some v else map_get k rest
  end.

(** [m.set(k, v)]: an existing key keeps its place in the iteration
    order, a new key goes last. *)
Fixpoint map_set (k : string) (v : V) (m : list (string * V)) : list (string * V) :=
  match m with
  | [] => [(k, v)]
  | (k', v') :: rest =>
      if (k' =? k)%string then (k, v) :: rest else (k', v') :: map_set k v rest
  end.

Definition map_delete (k : string) (m : list (string * V)) : list (string * V) :=
  filter (fun kv => negb (fst kv =? k)%string) m.

Definition map_has (k : string) (m : list (string * V)) : bool :=
  match map_get k m with Some _ => true | None => false end.

Definition map_values (m : list (string * V)) : list V := map snd m.
Definition map_keys (m : list (string * V)) : list string := map fst m.
End JsMap.

Definition set_has (k : string) (s : list string) : bool :=
  existsb (fun x => (x =? k)%string) s.
Definition set_add (k : string) (s : list string) : list string :=
  if set_has k s then s else s ++ [k].
Definition set_delete (k : string) (s : list string) : list string :=
  filter (fun x => negb (x =? k)%string) s.
Definition set_size (s : list string) : Z := Z.of_nat (List.length s).

(* ================================================================== *)
(** ** The download URL pattern

    [lecture.fileUrl.match(/\/download\/([^/]+)\/(.+)$/)]: the first
    position at which ["/download/"] is followed by a non-empty run of
    characters other than ['/'], a ['/'], and a non-empty rest of the input
    that holds no line terminator. *)

Fixpoint spanNonSlash (s : string) : string * string :=
  match s with
  | EmptyString => (EmptyString, EmptyString)
  | String c rest =>
      if Ascii.eqb c "/" then (EmptyString, s)
      else let '(a, b) := spanNonSlash rest in (String c a, b)
  end.

(** A line terminator of ECMAScript: LF, CR, U+2028 or U+2029 (the last two
    in their UTF-8 encoding [E2 80 A8] and [E2 80 A9]). *)
Fixpoint hasLineTerminator (s : string) : bool :=
  match s with
  | EmptyString => false
  | String c rest =>
      Ascii.eqb c "010" || Ascii.eqb c "013"
      || (Ascii.eqb c "226" &&
          match rest with
          | String c2 (String c3 _) =>
              Ascii.eqb c2 "128" && (Ascii.eqb c3 "168" || Ascii.eqb c3 "169")
          | _ => false
          end)
      || hasLineTerminator rest
  end.

Definition matchUrlAt (s : string) : option (string * string) :=
  if String.prefix "/download/" s then
    let rest := String.substring 10 (String.length s - 10) s in
    match spanNonSlash rest with
    | (EmptyString, _) => None
    | (identifier, String _ fileName) =>
        match fileName with
        | EmptyString => None
        | _ => if hasLineTerminator fileName then None else Some (identifier, fileName)
        end
    | (_, EmptyString) => None
    end
  else None.

Fixpoint matchDownloadUrl (s : string) : option (string * string) :=
  match matchUrlAt s with
  | Some r => Some r
  | None =>
      match s with
      | EmptyString => None
      | String _ rest => matchDownloadUrl rest
      end
  end.

(* ================================================================== *)
(** ** [decodeURIComponent]

    The [Decode] operation of ECMAScript with no reserved characters, on
    the UTF-8 bytes of the string: a ['%'] has to be followed by two
    hexadecimal digits; an escaped byte below 128 stands for itself, any
    other escaped byte has to start a run of escaped bytes that is the
    UTF-8 encoding of one code point. The result is [None] where the
    function throws a [URIError]. *)

Definition hexValue (c : ascii) : option nat :=
  let n := nat_of_ascii c in
  if ((48 <=? n) && (n <=? 57))%nat then Some (n - 48)%nat
  else if ((65 <=? n) && (n <=? 70))%nat then Some (n - 55)%nat
  else if ((97 <=? n) && (n <=? 102))%nat then Some (n - 87)%nat
  else None.

(** ["%XX"] at the front of the input: the byte, and the rest of the
    input. *)
Definition readEscape (s : string) : option (nat * string) :=
  match s with
  | String c (String h (String l rest)) =>
      if Ascii.eqb c "%" then
        match hexValue h, hexValue l with
        | Some a, Some b => Some (16 * a + b, rest)%nat
        | _, _ => None
        end
      else None
  | _ => None
  end.

Fixpoint readEscapes (n : nat) (s : string) : option (list nat * string) :=
  match n with
  | O => Some ([], s)
  | S n' =>
      match readEscape s with
      | Some (b, rest) =>
          match readEscapes n' rest with
          | Some (bs, rest') => Some (b :: bs, rest')
          | None => None
          end
      | None => None
      end
  end.

(** The number of leading 1 bits of a byte (5 stands for 5 and more). *)
Definition leadingOnes (b : nat) : nat :=
  if (b <? 128)%nat then 0
  else if (b <? 192)%nat then 1
  else if (b <? 224)%nat then 2
  else if (b <? 240)%nat then 3
  else if (b <? 248)%nat then 4
  else 5.

Definition isContinuation (b : nat) : bool := ((128 <=? b) && (b <=? 191))%nat.

(** The bytes are the UTF-8 encoding of one code point above U+007F:
    neither an overlong form, nor a surrogate, nor above U+10FFFF. *)
Definition wellFormed (bytes : list nat) : bool :=
  match bytes with
  | [b0; b1] => ((194 <=? b0) && (b0 <=? 223))%nat && isContinuation b1
  | [b0; b1; b2] =>
      (if (b0 =? 224)%nat then ((160 <=? b1) && (b1 <=? 191))%nat
       else if (b0 =? 237)%nat then ((128 <=? b1) && (b1 <=? 159))%nat
       else ((225 <=? b0) && (b0 <=? 239))%nat && isContinuation b1)
      && isContinuation b2
  | [b0; b1; b2; b3] =>
      (if (b0 =? 240)%nat then ((144 <=? b1) && (b1 <=? 191))%nat
       else if (b0 =? 244)%nat then ((128 <=? b1) && (b1 <=? 143))%nat
       else ((241 <=? b0) && (b0 <=? 243))%nat && isContinuation b1)
      && isContinuation b2 && isContinuation b3
  | _ => false
  end.

Definition stringOfBytes (bytes : list nat) : string :=
  fold_right (fun b s => String (ascii_of_nat b) s) EmptyString bytes.

(** The loop of [Decode]; [fuel] bounds the number of its rounds, and the
    length of the input is enough. *)
Fixpoint decodeFrom (fuel : nat) (s : string) : option string :=
  match s with
  | EmptyString => Some EmptyString
  | String c rest =>
      match fuel with
      | O => None
      | S fuel' =>
          if Ascii.eqb c "%" then
            match readEscape s with
            | None => None
            | Some (b, rest1) =>
                let n := leadingOnes b in
                if (n =? 0)%nat then
                  option_map (String (ascii_of_nat b)) (decodeFrom fuel' rest1)
                else if (n =? 1)%nat || (4 <? n)%nat then None
                else
                  match readEscapes (n - 1) rest1 with
                  | None => None
                  | Some (bs, rest2) =>
                      if wellFormed (b :: bs) then
                        option_map (append (stringOfBytes (b :: bs)))
                                   (decodeFrom fuel' rest2)
                      else None
                  end
            end
          else option_map (String c) (decodeFrom fuel' rest)
      end
  end.

Definition decodeURIComponent (s : string) : option string :=
  decodeFrom (String.length s) s.

(** The message of the [URIError] that [decodeURIComponent] throws (the
    text of V8). *)
Definition URI_MALFORMED : string := "URI malformed".

(** The bytes are the UTF-8 encoding of a sequence of code points, as the
    bytes of a JavaScript string without lone surrogates are. *)
Fixpoint wellFormedUtf8 (s : string) : bool :=
  match s with
  | EmptyString => true
  | String c0 rest =>
      let b0 := nat_of_ascii c0 in
      match leadingOnes b0, rest with
      | O, _ => wellFormedUtf8 rest
      | S (S O), String c1 r =>
          wellFormed [b0; nat_of_ascii c1] && wellFormedUtf8 r
      | S (S (S O)), String c1 (String c2 r) =>
          wellFormed [b0; nat_of_ascii c1; nat_of_ascii c2] && wellFormedUtf8 r
      | S (S (S (S O))), String c1 (String c2 (String c3 r)) =>
          wellFormed [b0; nat_of_ascii c1; nat_of_ascii c2; nat_of_ascii c3]
          && wellFormedUtf8 r
      | _, _ => false
      end
  end.

(* ================================================================== *)
(** ** DownloadManager *)

Definition MAX_CONCURRENT_DOWNLOADS : Z := 2.
Definition STORAGE_BUFFER_MB : Z := 50.

Record DownloadManagerState : Type := mkState {
  tasks : list (string * DownloadTask);
  activeDownloads : list string;
  isPaused : bool
}.

(** A [startDownload] invocation suspended at one of its [await]s. *)
Inductive Suspended : Type :=
  | AwaitLecture (lectureId : string)
      (** at [await storageManager.getLecture(lectureId)] *)
  | AwaitFetch (lectureId : string) (lecture : Lecture) (controller : nat)
      (** inside [await archiveFetcher.fetchAudioWithProgress(...)] *).

(** The download manager object together with what it reaches: the Svelte
    store, the abort controllers (a controller is named by a number, and
    [abortedSignals] lists those on which [abort()] was called), the
    database, the browser's storage estimate and the clock. *)
Record World : Type := mkWorld {
  store : DownloadManagerState;
  abortControllers : list (string * nat);
  abortedSignals : list nat;
  nextController : nat;
  db : DB;
  estimate : StorageManager.StorageEstimate;
  clock : Z;
  inflight : list Suspended
}.

Definition with_store (w : World) (s : DownloadManagerState) : World :=
  mkWorld s (abortControllers w) (abortedSignals w) (nextController w)
          (db w) (estimate w) (clock w) (inflight w).
Definition with_db (w : World) (d : DB) : World :=
  mkWorld (store w) (abortControllers w) (abortedSignals w) (nextController w)
          d (estimate w) (clock w) (inflight w).
Definition with_inflight (w : World) (l : list Suspended) : World :=
  mkWorld (store w) (abortControllers w) (abortedSignals w) (nextController w)
          (db w) (estimate w) (clock w) l.
Definition with_controllers (w : World) (c : list (string * nat)) (a : list nat)
    (n : nat) : World :=
  mkWorld (store w) c a n (db w) (estimate w) (clock w) (inflight w).
Definition with_tasks (w : World) (t : list (string * DownloadTask)) : World :=
  with_store w (mkState t (activeDownloads (store w)) (isPaused (store w))).
Definition with_active (w : World) (a : list string) : World :=
  with_store w (mkState (tasks (store w)) a (isPaused (store w))).
Definition with_isPaused (w : World) (b : bool) : World :=
  with_store w (mkState (tasks (store w)) (activeDownloads (store w)) b).

Definition initialState : DownloadManagerState := mkState [] [] false.

(** A freshly constructed manager over a database and a storage estimate. *)
Definition initialWorld (d : DB) (est : StorageManager.StorageEstimate) (now : Z) : World :=
  mkWorld initialState [] [] 0%nat d est now [].

Module DownloadManager.

Definition resetInterrupted (task : DownloadTask) : DownloadTask :=
  if Status_eqb (status task) downloading then
    {| lectureId := lectureId task; status := pending; progress := 0%Q;
       bytesDownloaded := bytesDownloaded task; totalBytes := totalBytes task;
       startedAt := startedAt task; completedAt := completedAt task;
       error := error task |}
  else task.

Definition loadExistingTasks (w : World) : World :=
  let loaded := StorageManager.getAllDownloads (db w) in
  let tasksMap :=
    fold_left (fun m task =>
                 let task' := resetInterrupted task in
                 map_set (lectureId task') task' m)
              loaded [] in
  with_tasks w tasksMap.

(** [updateTask], with the save it starts carried out (for the rejected
    save see [updateTask_unsaved]). *)
Definition updateTask (i : string) (updates : TaskUpdates) (w : World) : World :=
  match map_get i (tasks (store w)) with
  | Some task =>
      let updatedTask := spread task updates in
      with_db (with_tasks w (map_set i updatedTask (tasks (store w))))
              (StorageManager.saveDownloadTask updatedTask (db w))
  | None => w
  end.

Definition checkStorageAvailability (requiredBytes : Z) (w : World) : bool :=
  let stats := StorageManager.getStorageStats (estimate w) (db w) in
  let bufferBytes := STORAGE_BUFFER_MB * 1024 * 1024 in
  available stats >? requiredBytes + bufferBytes.

(** [startDownload(lectureId)] up to its first [await]. *)
Definition startDownload (i : string) (w : World) : World :=
  with_inflight w (inflight w ++ [AwaitLecture i]).

Definition processQueue (w : World) : World :=
  let state := store w in
  if isPaused state then w
  else
    let pendingTasks :=
      filter (fun t => Status_eqb (status t) pending) (map_values (tasks state)) in
    let slotsAvailable := MAX_CONCURRENT_DOWNLOADS - set_size (activeDownloads state) in
    if (slotsAvailable <=? 0) || (Nat.eqb (List.length pendingTasks) 0) then w
    else
      let tasksToStart := firstn (Z.to_nat slotsAvailable) pendingTasks in
      fold_left (fun w' task => startDownload (lectureId task) w') tasksToStart w.

Inductive QueueError : Type :=
  | InsufficientStorage.  (** ['Insufficient storage space. Please free up some space.'] *)

Definition queueDownload (lecture : Lecture) (w : World) : (unit + QueueError) * World :=
  let state := store w in
  let alreadyThere :=
    match map_get (id lecture) (tasks state) with
    | Some task => Status_eqb (status task) completed || Status_eqb (status task) downloading
    | None => false
    end in
  if alreadyThere then (inl tt, w)
  else if negb (checkStorageAvailability (fileSize lecture) w) then
    (inr InsufficientStorage, w)
  else
    let task :=
      {| lectureId := id lecture; status := pending; progress := 0%Q;
         bytesDownloaded := 0; totalBytes := fileSize lecture;
         startedAt := None; completedAt := None; error := None |} in
    let w1 := with_tasks w (map_set (id lecture) task (tasks state)) in
    let w2 := with_db w1 (StorageManager.saveDownloadTask task (db w1)) in
    (inl tt, processQueue w2).

(** The [finally] block of [startDownload]. *)
Definition finallyRelease (i : string) (w : World) : World :=
  let w1 := with_controllers w (map_delete i (abortControllers w))
                             (abortedSignals w) (nextController w) in
  let w2 := with_active w1 (set_delete i (activeDownloads (store w1))) in
  processQueue w2.

(** [startDownload] from the return of [getLecture] to the call of the
    fetcher (or to its end, when it does not get that far). The result is
    the world and, when the fetch was issued, the suspended invocation. *)
Definition startDownload_loaded (i : string) (w : World) : World * option Suspended :=
  match StorageManager.getLecture i (db w) with
  | None =>
      (updateTask i {| u_status := Some failed; u_progress := None;
                       u_bytesDownloaded := None; u_totalBytes := None;
                       u_startedAt := None; u_completedAt := None;
                       u_error := Some (Some "Lecture not found") |} w,
       None)
  | Some lecture =>
      let c := nextController w in
      let w1 := with_controllers w (map_set i c (abortControllers w))
                                 (abortedSignals w) (S c) in
      let w2 := updateTask i {| u_status := Some downloading; u_progress := None;
                                u_bytesDownloaded := None; u_totalBytes := None;
                                u_startedAt := Some (clock w1); u_completedAt := None;
                                u_error := None |} w1 in
      let w3 := with_active w2 (set_add i (activeDownloads (store w2))) in
      match matchDownloadUrl (fileUrl lecture) with
      | None =>
          let w4 := updateTask i {| u_status := Some failed; u_progress := None;
                                    u_bytesDownloaded := None; u_totalBytes := None;
                                    u_startedAt := None; u_completedAt := None;
                                    u_error := Some (Some "Invalid file URL") |} w3 in
          (finallyRelease i w4, None)
      | Some (identifier, fileName) =>
          match decodeURIComponent fileName with
          | None =>
              let w4 := updateTask i {| u_status := Some failed; u_progress := None;
                                        u_bytesDownloaded := None; u_totalBytes := None;
                                        u_startedAt := None; u_completedAt := None;
                                        u_error := Some (Some URI_MALFORMED) |} w3 in
              (finallyRelease i w4, None)
          | Some decodedFileName => (w3, Some (AwaitFetch i lecture c))
          end
      end
  end.

(** The [onProgress] callback; the fetcher calls it only when the
    response announced a positive content length. *)
Definition onProgress (i : string) (loaded total : Z) (w : World) : World :=
  let p := if total >? 0 then Qred (Qmake (loaded * 100) (Z.to_pos total)) else 0%Q in
  updateTask i {| u_status := None; u_progress := Some p;
                  u_bytesDownloaded := Some loaded; u_totalBytes := Some total;
                  u_startedAt := None; u_completedAt := None; u_error := None |} w.

(** The fetch resolved with [blob] and the two awaited writes were carried
    out: the rest of the [try] block, then [finally]. *)
Definition startDownload_fetched (i : string) (lecture : Lecture) (blob : Blob)
    (w : World) : World :=
  let w1 := with_db w (StorageManager.cacheAudio (clock w) i blob (db w)) in
  let updatedLecture :=
    {| id := id lecture; fileUrl := fileUrl lecture; fileSize := fileSize lecture;
       downloadedAt := Some (clock w1); isDownloaded := Some true |} in
  let w2 := with_db w1 (StorageManager.saveLecture updatedLecture (db w1)) in
  let w3 := updateTask i {| u_status := Some completed; u_progress := Some (100 # 1)%Q;
                            u_bytesDownloaded := Some (blob_size blob);
                            u_totalBytes := None; u_startedAt := None;
                            u_completedAt := Some (clock w2); u_error := None |} w2 in
  finallyRelease i w3.

(** The fetch rejected with an [AbortError]: first [catch] branch, then
    [finally]. *)
Definition startDownload_aborted (i : string) (w : World) : World :=
  let w1 := updateTask i {| u_status := Some paused; u_progress := None;
                            u_bytesDownloaded := None; u_totalBytes := None;
                            u_startedAt := None; u_completedAt := None;
                            u_error := Some (Some "Download cancelled") |} w in
  finallyRelease i w1.

(** Anything else was thrown inside the [try] block ([message] is the
    error's message, or ['Unknown error']): second [catch] branch, then
    [finally]. *)
Definition startDownload_failed (i : string) (message : string) (w : World) : World :=
  let w1 := updateTask i {| u_status := Some failed; u_progress := None;
                            u_bytesDownloaded := None; u_totalBytes := None;
                            u_startedAt := None; u_completedAt := None;
                            u_error := Some (Some message) |} w in
  finallyRelease i w1.

(** What the [catch] of [startDownload] tells apart in what was thrown: an
    error named ['AbortError'], or anything else, with its message (or
    ['Unknown error']). *)
Inductive Thrown : Type :=
  | AbortError
  | OtherError (message : string).

Definition startDownload_caught (i : string) (thrown : Thrown) (w : World) : World :=
  match thrown with
  | AbortError => startDownload_aborted i w
  | OtherError message => startDownload_failed i message w
  end.

(** The awaited writes of the [try] block. *)
Inductive AwaitedWrite : Type :=
  | CacheAudio    (** [await storageManager.cacheAudio(lectureId, blob)] *)
  | SaveLecture   (** [await storageManager.saveLecture(updatedLecture)] *).

(** The fetch resolved with [blob] and one of the two awaited writes was
    rejected: what the [try] block did before that write, then [catch] and
    [finally]. *)
Definition startDownload_rejected (i : string) (blob : Blob) (write : AwaitedWrite)
    (thrown : Thrown) (w : World) : World :=
  match write with
  | CacheAudio => startDownload_caught i thrown w
  | SaveLecture =>
      startDownload_caught i thrown
        (with_db w (StorageManager.cacheAudio (clock w) i blob (db w)))
  end.

Definition abortController (i : string) (w : World) : World :=
  match map_get i (abortControllers w) with
  | Some c => with_controllers w (abortControllers w) (c :: abortedSignals w)
                               (nextController w)
  | None => w
  end.

Definition statusOnly (s : Status) : TaskUpdates :=
  {| u_status := Some s; u_progress := None; u_bytesDownloaded := None;
     u_totalBytes := None; u_startedAt := None; u_completedAt := None;
     u_error := None |}.

Definition pauseDownload (i : string) (w : World) : World :=
  updateTask i (statusOnly paused) (abortController i w).

Definition resumeDownload (i : string) (w : World) : World :=
  processQueue (updateTask i (statusOnly pending) w).

Definition cancelDownload (i : string) (w : World) : World :=
  let w1 := abortController i w in
  let w2 := with_store w1 (mkState (map_delete i (tasks (store w1)))
                                   (set_delete i (activeDownloads (store w1)))
                                   (isPaused (store w1))) in
  let w3 := with_db w2 (StorageManager.deleteDownloadTask i (db w2)) in
  let w4 := with_db w3 (StorageManager.deleteCachedAudio i (db w3)) in
  match StorageManager.getLecture i (db w4) with
  | Some lecture =>
      with_db w4 (StorageManager.saveLecture
                    {| id := id lecture; fileUrl := fileUrl lecture;
                       fileSize := fileSize lecture; downloadedAt := None;
                       isDownloaded := Some false |} (db w4))
  | None => w4
  end.

Definition retryDownload (i : string) (w : World) : World :=
  processQueue
    (updateTask i {| u_status := Some pending; u_progress := Some 0%Q;
                     u_bytesDownloaded := Some 0; u_totalBytes := None;
                     u_startedAt := None; u_completedAt := None;
                     u_error := Some None |} w).

Definition pauseAll (w : World) : World :=
  fold_left (fun w' kc =>
               updateTask (fst kc) (statusOnly paused)
                 (with_controllers w' (abortControllers w')
                    (snd kc :: abortedSignals w') (nextController w')))
            (abortControllers w) (with_isPaused w true).

Definition resumeAll (w : World) : World :=
  let w1 := with_isPaused w false in
  processQueue
    (fold_left (fun w' kt =>
                  if Status_eqb (status (snd kt)) paused
                  then updateTask (fst kt) (statusOnly pending) w' else w')
               (tasks (store w1)) w1).

(** [freeUpSpace(requiredBytes)] *)
Definition freeUpSpace (requiredBytes : Z) (w : World) : bool * World :=
  let stats := StorageManager.getStorageStats (estimate w) (db w) in
  if available stats >=? requiredBytes then (true, w)
  else
    let bytesToFree := requiredBytes - available stats + STORAGE_BUFFER_MB * 1024 * 1024 in
    let '(freedBytes, d1) := StorageManager.evictToFreeSpace bytesToFree (db w) in
    let w1 := with_db w d1 in
    let cachedIds := StorageManager.getAllCachedAudioIds (db w1) in
    let w2 :=
      fold_left (fun w' kt =>
                   if Status_eqb (status (snd kt)) completed
                      && negb (set_has (fst kt) cachedIds)
                   then with_db (with_tasks w' (map_delete (fst kt) (tasks (store w'))))
                                (StorageManager.deleteDownloadTask (fst kt) (db w'))
                   else w')
                (tasks (store w1)) w1 in
    (freedBytes >=? bytesToFree, w2).

End DownloadManager.

(* ================================================================== *)
(** ** Interleavings

    The callers of the manager, the completions of its pending [await]s
    and the changes of its environment, as events. An event that is not
    enabled in a world (no such suspended invocation, an abort that was
    never signalled, a progress report without a content length) has no
    successor. [EvFetched] is the fetch resolving with the two writes that
    follow it carried out, [EvRejected] the fetch resolving with one of
    them rejected. *)

Inductive Event : Type :=
  | EvLoad                                   (** [loadExistingTasks()] *)
  | EvQueue (lecture : Lecture)              (** [queueDownload(lecture)] *)
  | EvPause (i : string)                     (** [pauseDownload(i)] *)
  | EvResume (i : string)                    (** [resumeDownload(i)] *)
  | EvRetry (i : string)                     (** [retryDownload(i)] *)
  | EvCancel (i : string)                    (** [cancelDownload(i)] *)
  | EvPauseAll
  | EvResumeAll
  | EvFreeUp (requiredBytes : Z)             (** [freeUpSpace(requiredBytes)] *)
  | EvTick (dt : Z)                          (** time passes *)
  | EvLectureLoaded (k : nat)                (** [getLecture] returns to invocation [k] *)
  | EvProgress (k : nat) (loaded total : Z)  (** the fetcher reports progress *)
  | EvFetched (k : nat) (blob : Blob)        (** the fetch resolves *)
  | EvAborted (k : nat)                      (** the fetch rejects with [AbortError] *)
  | EvFailed (k : nat) (message : string)    (** the fetch rejects otherwise *)
  | EvRejected (k : nat) (blob : Blob) (write : DownloadManager.AwaitedWrite)
               (thrown : DownloadManager.Thrown)
      (** the fetch resolves and a write of the [try] block is rejected *)
  | EvEstimate (est : StorageManager.StorageEstimate)
      (** the storage estimate of the browser changes *).

(** Takes the [k]-th suspended invocation out of the list. *)
Fixpoint takeNth {A} (k : nat) (l : list A) : option (A * list A) :=
  match l, k with
  | [], _ => None
  | x :: rest, O => Some (x, rest)
  | x :: rest, S k' =>
      match takeNth k' rest with
      | Some (y, rest') => Some (y, x :: rest')
      | None => None
      end
  end.

Definition step (e : Event) (w : World) : option World :=
  match e with
  | EvLoad => Some (DownloadManager.loadExistingTasks w)
  | EvQueue lecture => Some (snd (DownloadManager.queueDownload lecture w))
  | EvPause i => Some (DownloadManager.pauseDownload i w)
  | EvResume i => Some (DownloadManager.resumeDownload i w)
  | EvRetry i => Some (DownloadManager.retryDownload i w)
  | EvCancel i => Some (DownloadManager.cancelDownload i w)
  | EvPauseAll => Some (DownloadManager.pauseAll w)
  | EvResumeAll => Some (DownloadManager.resumeAll w)
  | EvFreeUp n => Some (snd (DownloadManager.freeUpSpace n w))
  | EvTick dt =>
      if dt <? 0 then None
      else Some (mkWorld (store w) (abortControllers w) (abortedSignals w)
                         (nextController w) (db w) (estimate w) (clock w + dt)
                         (inflight w))
  | EvLectureLoaded k =>
      match takeNth k (inflight w) with
      | Some (AwaitLecture i, rest) =>
          let '(w', s) := DownloadManager.startDownload_loaded i (with_inflight w rest) in
          match s with
          | Some f => Some (with_inflight w' (inflight w' ++ [f]))
          | None => Some w'
          end
      | _ => None
      end
  | EvProgress k loaded total =>
      match nth_error (inflight w) k with
      | Some (AwaitFetch i _ _) =>
          if total >? 0 then Some (DownloadManager.onProgress i loaded total w) else None
      | _ => None
      end
  | EvFetched k blob =>
      match takeNth k (inflight w) with
      | Some (AwaitFetch i lecture _, rest) =>
          Some (DownloadManager.startDownload_fetched i lecture blob (with_inflight w rest))
      | _ => None
      end
  | EvAborted k =>
      match takeNth k (inflight w) with
      | Some (AwaitFetch i _ c, rest) =>
          if existsb (Nat.eqb c) (abortedSignals w)
          then Some (DownloadManager.startDownload_aborted i (with_inflight w rest))
          else None
      | _ => None
      end
  | EvFailed k message =>
      match takeNth k (inflight w) with
      | Some (AwaitFetch i _ _, rest) =>
          Some (DownloadManager.startDownload_failed i message (with_inflight w rest))
      | _ => None
      end
  | EvRejected k blob write thrown =>
      match takeNth k (inflight w) with
      | Some (AwaitFetch i _ _, rest) =>
          Some (DownloadManager.startDownload_rejected i blob write thrown
                  (with_inflight w rest))
      | _ => None
      end
  | EvEstimate est =>
      Some (mkWorld (store w) (abortControllers w) (abortedSignals w)
                    (nextController w) (db w) est (clock w) (inflight w))
  end.

Fixpoint run (events : list Event) (w : World) : option World :=
  match events with
  | [] => Some w
  | e :: rest =>
      match step e w with
      | Some w' => run rest w'
      | None => None
      end
  end.

(** The worlds a manager can be in: those some sequence of events leads to
    from a freshly constructed manager. *)
Definition reachable (w : World) : Prop :=
  exists d est now events, run events (initialWorld d est now) = Some w.

(** The derived store [downloadingCount]. *)
Definition downloadingCount (w : World) : Z :=
  Z.of_nat (List.length
    (filter (fun t => Status_eqb (status t) downloading)
            (map_values (tasks (store w))))).

Definition statusOf (i : string) (w : World) : option Status :=
  option_map status (map_get i (tasks (store w))).

(** The number of suspended [startDownload] invocations that work on
    lecture [i]. *)
Definition transfersFor (i : string) (w : World) : nat :=
  List.length
    (filter (fun s => match s with
                      | AwaitLecture j => (j =? i)%string
                      | AwaitFetch j _ _ => (j =? i)%string
                      end) (inflight w)).

(* ================================================================== *)
(** * Vocabulary of the properties, and the worlds of the examples *)

Import StorageManager DownloadManager.

Definition olderOrSame (a b : CacheEntry) : Prop := lastAccessed a <= lastAccessed b.

(** Sum of the [size] fields of a list of cache records. *)
Fixpoint totalSize (l : list CacheEntry) : Z :=
  match l with
  | [] => 0
  | e :: rest => ce_size e + totalSize rest
  end.

Definition nonNegativeSizes (l : list CacheEntry) : bool :=
  forallb (fun e => 0 <=? ce_size e) l.

Definition MB : Z := 1024 * 1024.

(** The cache of the example: [A] (10 MB) read longest ago, then [B]
    (20 MB), then [C] (30 MB). *)
Definition abcCache : list CacheEntry :=
  [ mkEntry "A" (mkBlob "a" (10 * MB)) (10 * MB) 100 100;
    mkEntry "B" (mkBlob "b" (20 * MB)) (20 * MB) 200 200;
    mkEntry "C" (mkBlob "c" (30 * MB)) (30 * MB) 300 300 ].

Definition abcDB : DB := mkDB [] abcCache [].

(** The tasks a call of [processQueue] hands to [startDownload]. *)
Definition tasksToStart (w : World) : list DownloadTask :=
  let state := store w in
  if isPaused state then []
  else
    let pendingTasks :=
      filter (fun t => Status_eqb (status t) pending) (map_values (tasks state)) in
    let slotsAvailable := MAX_CONCURRENT_DOWNLOADS - set_size (activeDownloads state) in
    if (slotsAvailable <=? 0) || (Nat.eqb (List.length pendingTasks) 0) then []
    else firstn (Z.to_nat slotsAvailable) pendingTasks.

Definition persistedExample : DB :=
  mkDB []
       []
       [ mkTask "a" paused 0%Q 0 100 None None None;
         mkTask "b" downloading (40 # 1)%Q 40 100 (Some 5) None None;
         mkTask "c" completed (100 # 1)%Q 100 100 (Some 5) (Some 9) None ].

(** The task [queueDownload] creates for a lecture. *)
Definition freshTask (lecture : Lecture) : DownloadTask :=
  {| lectureId := id lecture; status := pending; progress := 0%Q;
     bytesDownloaded := 0; totalBytes := fileSize lecture;
     startedAt := None; completedAt := None; error := None |}.

Definition lectureOf (name : string) (size : Z) : Lecture :=
  mkLecture name ("https://archive.org/download/lectures/" ++ name ++ ".mp3")
            size None None.

(** Quota 100 MB of which 90 MB are used, nothing cached, no task. *)
Definition tightWorld : World :=
  initialWorld (mkDB [lectureOf "X" (5 * MB)] [] []) (Some (100 * MB, 90 * MB)) 0.

(** 998 MB of a 1000 MB quota are used and the cache holds one old blob
    of 100 MB. *)
Definition evictableWorld : World :=
  initialWorld
    (mkDB [lectureOf "X" (5 * MB)]
          [mkEntry "old" (mkBlob "o" (100 * MB)) (100 * MB) 10 10]
          [])
    (Some (1000 * MB, 998 * MB)) 50.

(** A manager that holds a [failed] task for lecture [X] while the
    browser reports no storage estimate. *)
Definition failedTaskWorld : World :=
  mkWorld (mkState [("X", mkTask "X" failed (40 # 1)%Q 40 100 (Some 5) None
                                 (Some "Failed to download X.mp3: 503"))] [] false)
          [] [] 1%nat
          (mkDB [lectureOf "X" 100] []
                [mkTask "X" failed (40 # 1)%Q 40 100 (Some 5) None
                        (Some "Failed to download X.mp3: 503")])
          None 0 [].

(** A manager whose only task is [completed]. *)
Definition completedTaskWorld : World :=
  mkWorld (mkState [("X", mkTask "X" completed (100 # 1)%Q 100 100 (Some 5) (Some 9) None)]
                   [] false)
          [] [] 1%nat
          (mkDB [lectureOf "X" 100]
                [mkEntry "X" (mkBlob "x" 100) 100 9 9]
                [mkTask "X" completed (100 # 1)%Q 100 100 (Some 5) (Some 9) None])
          (Some (1000 * MB, 0)) 20 [].

(** The task map holds one task per key, filed under its own lecture
    id. *)
Definition wfTasks (m : list (string * DownloadTask)) : Prop :=
  NoDup (map_keys m) /\ forall k t, In (k, t) m -> lectureId t = k.

Definition oneTaskPerLecture (w : World) : Prop := wfTasks (tasks (store w)).

(** The three object stores of the world's database are in key order. *)
Definition orderedStores (w : World) : Prop := dbOrdered (db w) = true.

(** The number of suspended invocations that are inside the fetch for
    lecture [i]. *)
Definition fetchesFor (i : string) (w : World) : nat :=
  List.length
    (filter (fun s => match s with
                      | AwaitLecture _ => false
                      | AwaitFetch j _ _ => (j =? i)%string
                      end) (inflight w)).

Definition plenty : StorageManager.StorageEstimate := Some (1000 * MB, 0).

(** The database a restart finds: lecture [a] was paused, [b] and [c]
    were being downloaded when the page went away. *)
Definition interruptedDB : DB :=
  mkDB [lectureOf "a" 100; lectureOf "b" 100; lectureOf "c" 100]
       []
       [ mkTask "a" paused (30 # 1)%Q 30 100 (Some 1) None None;
         mkTask "b" downloading (40 # 1)%Q 40 100 (Some 2) None None;
         mkTask "c" downloading (50 # 1)%Q 50 100 (Some 3) None None ].

(** After the restart the user resumes [b] and, before any [getLecture]
    has answered, resumes [a]; then the lookups for [b], [c] and [a]
    answer. *)
Definition resumeTwice : list Event :=
  [ EvLoad; EvResume "b"; EvResume "a";
    EvLectureLoaded 0; EvLectureLoaded 0; EvLectureLoaded 0 ].

(** Starting from an empty manager: [C] is started and paused, [A] and
    [B] are queued, and [C] is resumed before the lookups for [A] and [B]
    have answered. *)
Definition pauseThenResume : list Event :=
  [ EvQueue (lectureOf "C" 100); EvLectureLoaded 0; EvPause "C"; EvAborted 0;
    EvQueue (lectureOf "A" 100); EvQueue (lectureOf "B" 100); EvResume "C";
    EvLectureLoaded 0; EvLectureLoaded 1; EvLectureLoaded 1 ].

(** The database a restart finds when one download was interrupted. *)
Definition oneInterruptedDB : DB :=
  mkDB [lectureOf "b" 100] []
       [mkTask "b" downloading (40 # 1)%Q 40 100 (Some 2) None None].

(** Lectures [X] and [Y] are downloaded while [P] and [Q] wait; the two
    fetches resolve one right after the other, before the [getLecture] of
    the invocation the first completion started has answered. *)
Definition fourLectures : World :=
  initialWorld
    (mkDB [lectureOf "P" 100; lectureOf "Q" 100; lectureOf "X" 100; lectureOf "Y" 100]
          [] [])
    plenty 10.

Definition twoCompletions : list Event :=
  [ EvQueue (lectureOf "X" 100); EvLectureLoaded 0;
    EvQueue (lectureOf "Y" 100); EvLectureLoaded 1;
    EvQueue (lectureOf "P" 100); EvQueue (lectureOf "Q" 100);
    EvFetched 0 (mkBlob "x" 100); EvFetched 0 (mkBlob "y" 100) ].

(** A lecture announced with 1000 bytes, queued and started. *)
Definition declared1000 : World :=
  initialWorld (mkDB [lectureOf "X" 1000] [] []) plenty 10.

Definition fetchingWorld : World :=
  Eval vm_compute in
    match run [EvQueue (lectureOf "X" 1000); EvLectureLoaded 0] declared1000 with
    | Some w => w
    | None => declared1000
    end.

(** Lectures [A] and [B] are being downloaded, [C] waits for a slot, and
    the user has just paused [A]. *)
Definition pausedWhileFetching : list Event :=
  [ EvQueue (lectureOf "A" 100); EvLectureLoaded 0;
    EvQueue (lectureOf "B" 100); EvLectureLoaded 1;
    EvQueue (lectureOf "C" 100); EvPause "A" ].

Definition threeLectures : World :=
  initialWorld (mkDB [lectureOf "A" 100; lectureOf "B" 100; lectureOf "C" 100] [] [])
               plenty 10.

Definition abortingWorld : World :=
  Eval vm_compute in
    match run pausedWhileFetching threeLectures with
    | Some w => w
    | None => threeLectures
    end.







(** A database that holds a [completed] download without its blob. *)
Definition staleDB : DB :=
  mkDB [lectureOf "X" 100] []
       [mkTask "X" completed (100 # 1)%Q 100 100 (Some 5) (Some 9) None].

(* ================================================================== *)
(** * Further parts of the code *)

(** ** More of the DownloadManager *)

Module DownloadManagerRest.

(** [queueMultiple(lectures)]: the [catch] only logs the error. The loop
    awaits every [queueDownload], and other events occur meanwhile:
    [between] lists, lecture by lecture, those that occur before the loop
    goes on with the next lecture. The result is [None] when one of them is
    not enabled. *)
Fixpoint queueMultiple (lectures : list Lecture) (between : list (list Event))
    (w : World) : option World :=
  match lectures with
  | [] => Some w
  | lecture :: rest =>
      match run (hd [] between) (snd (queueDownload lecture w)) with
      | Some w' => queueMultiple rest (tl between) w'
      | None => None
      end
  end.

(** [getDownloadStatus(lectureId)] and [isDownloaded(lectureId)] *)
Definition getDownloadStatus (i : string) (w : World) : option DownloadTask :=
  map_get i (tasks (store w)).

Definition isDownloaded (i : string) (w : World) : bool :=
  StorageManager.isAudioCached i (db w).

End DownloadManagerRest.

(** The events that neither put a task into the map nor take one out:
    all but an enqueue, a cancellation, the clean-up of [freeUpSpace] and
    the loading of the persisted tasks. *)
Definition keepsTaskSet (e : Event) : bool :=
  match e with
  | EvLoad | EvQueue _ | EvCancel _ | EvFreeUp _ => false
  | _ => true
  end.

(** [updateTask] when the save it starts is rejected: there is neither an
    [await] nor a [catch], so that nothing but the [downloads] store tells
    the two outcomes apart. *)
Definition updateTask_unsaved (i : string) (updates : TaskUpdates) (w : World) : World :=
  match map_get i (tasks (store w)) with
  | Some task => with_tasks w (map_set i (spread task updates) (tasks (store w)))
  | None => w
  end.

(** Two worlds that differ at most in their [downloads] stores. *)
Definition sameButDownloads (a b : World) : Prop :=
  store a = store b /\ abortControllers a = abortControllers b /\
  abortedSignals a = abortedSignals b /\ nextController a = nextController b /\
  lectures (db a) = lectures (db b) /\ audioCache (db a) = audioCache (db b) /\
  estimate a = estimate b /\ clock a = clock b /\ inflight a = inflight b.

(** Quota 100 MB of which 90 MB are used; the lectures [X] and [Y] have
    5 MB each. *)
Definition tightForTwo : World :=
  initialWorld (mkDB [lectureOf "X" (5 * MB); lectureOf "Y" (5 * MB)] [] [])
               (Some (100 * MB, 90 * MB)) 0.

(** The bodies of the loops of [pauseAll] and [resumeAll]. *)
Definition pauseOne (w' : World) (kc : string * nat) : World :=
  updateTask (fst kc) (statusOnly paused)
    (with_controllers w' (abortControllers w') (snd kc :: abortedSignals w')
                      (nextController w')).

Definition resumeOne (w' : World) (kt : string * DownloadTask) : World :=
  if Status_eqb (status (snd kt)) paused
  then updateTask (fst kt) (statusOnly pending) w' else w'.

(** The body of the clean-up loop of [freeUpSpace], and its test. *)
Definition orphaned (cachedIds : list string) (kt : string * DownloadTask) : bool :=
  Status_eqb (status (snd kt)) completed && negb (set_has (fst kt) cachedIds).

Definition dropOrphan (cachedIds : list string) (w' : World)
    (kt : string * DownloadTask) : World :=
  if orphaned cachedIds kt
  then with_db (with_tasks w' (map_delete (fst kt) (tasks (store w'))))
               (StorageManager.deleteDownloadTask (fst kt) (db w'))
  else w'.

(** ** More of the StorageManager *)

Module StorageManagerRest.

(** [array.slice(0, limit)] for an integral [limit]: a negative [limit]
    counts from the end. *)
Definition slice0 {A} (limit : Z) (l : list A) : list A :=
  if limit <? 0 then firstn (Z.to_nat (Z.of_nat (List.length l) + limit)) l
  else firstn (Z.to_nat limit) l.

Definition getLRUCachedAudio (limit : Z) (d : DB) : list string :=
  map ce_lectureId (slice0 limit (sortByAccess (idb_getAll (audioCache d)))).

Inductive Language : Type := lang_en | lang_ur | lang_ar.
Inductive Theme : Type := theme_dark | theme_light | theme_system.
Inductive DownloadQuality : Type := quality_high | quality_medium | quality_low.

Record Settings : Type := mkSettings {
  language : Language;
  theme : Theme;
  playbackSpeed : Q;
  skipForward : Z;
  skipBackward : Z;
  autoPlay : bool;
  sleepTimer : option Z;
  storageLimit : Z;
  downloadQuality : DownloadQuality
}.

(** The key of a record of the [settings] store (key path ['language']). *)
Definition languageCode (l : Language) : string :=
  match l with lang_en => "en" | lang_ur => "ur" | lang_ar => "ar" end.

Definition settingsKey (s : Settings) : string := languageCode (language s).

Definition DEFAULT_SETTINGS : Settings :=
  {| language := lang_en; theme := theme_light; playbackSpeed := 1%Q;
     skipForward := 15; skipBackward := 15; autoPlay := true; sleepTimer := None;
     storageLimit := 500 * 1024 * 1024; downloadQuality := quality_high |}.

(** [saveSettings] and [getSettings], on the [settings] object store. *)
Definition saveSettings (settings : Settings) (st : list Settings) : list Settings :=
  idb_put settingsKey settings st.

Definition getSettings (st : list Settings) : Settings :=
  match idb_get settingsKey "ur" st with
  | Some settings => settings
  | None => DEFAULT_SETTINGS
  end.

End StorageManagerRest.

(** ** The derived stores of [$lib/stores/downloads] *)

Module DownloadsStore.

Definition allTasks (w : World) : list DownloadTask := map_values (tasks (store w)).

Definition withStatus (s : Status) (l : list DownloadTask) : list DownloadTask :=
  filter (fun t => Status_eqb (status t) s) l.

Definition pendingTasks (w : World) := withStatus pending (allTasks w).
Definition downloadingTasks (w : World) := withStatus downloading (allTasks w).
Definition completedTasks (w : World) := withStatus completed (allTasks w).
Definition failedTasks (w : World) := withStatus failed (allTasks w).
Definition pausedTasks (w : World) := withStatus paused (allTasks w).

Definition activeTasks (w : World) : list DownloadTask :=
  filter (fun t => Status_eqb (status t) downloading || Status_eqb (status t) pending)
         (allTasks w).

Definition pendingCount (w : World) : nat := List.length (pendingTasks w).
Definition downloadingCount (w : World) : nat := List.length (downloadingTasks w).
Definition completedCount (w : World) : nat := List.length (completedTasks w).

Definition hasActiveDownloads (w : World) : bool :=
  Nat.ltb 0 (List.length (activeTasks w)).

(** [totalBytes]: the pair (downloaded, total) over the downloading
    tasks. *)
Definition totalBytes (w : World) : Z * Z :=
  (fold_left (fun sum t => sum + bytesDownloaded t) (downloadingTasks w) 0,
   fold_left (fun sum t => sum + totalBytes t) (downloadingTasks w) 0).

(** [$tasks.find((t) => t.lectureId === lectureId)] *)
Definition findTask (i : string) (w : World) : option DownloadTask :=
  find (fun t => (lectureId t =? i)%string) (allTasks w).

(** [isDownloading(lectureId)] and [getDownloadStatus(lectureId)]; the
    latter yields [null] when there is no task. *)
Definition isDownloading (i : string) (w : World) : bool :=
  match findTask i w with
  | Some t => Status_eqb (status t) downloading
  | None => false
  end.

Definition getDownloadStatus (i : string) (w : World) : option Status :=
  option_map status (findTask i w).

End DownloadsStore.

(** ** CollectionManager *)

Module CollectionManager.

Record CollectionConfig : Type := mkCollection {
  identifier : string;
  title : string;
  displayName : string;
  creator : string;
  contributor : string;
  album : string;
  genre : string;
  language : string;
  subject : list string;
  featured : option bool
}.

Record Genre : Type := mkGenre {
  genre_id : string;
  genre_name : string;
  genre_nameEn : string;
  genre_icon : option string
}.

Record Album : Type := mkAlbum {
  album_id : string;
  album_name : string;
  album_nameEn : string;
  album_icon : option string
}.

(** [genres] and [albums] may be missing from the configuration file: the
    code reads them as [config.genres || []]. *)
Record AppConfig : Type := mkConfig {
  collections : list CollectionConfig;
  genres : option (list Genre);
  albums : option (list Album)
}.

Definition orEmpty {A} (o : option (list A)) : list A :=
  match o with Some l => l | None => [] end.

Record Manager : Type := mkManager {
  config : AppConfig;
  collectionsMap : list (string * CollectionConfig);
  genresMap : list (string * Genre);
  albumsMap : list (string * Album)
}.

(** The constructor with [initialize()]. *)
Definition create (cfg : AppConfig) : Manager :=
  {| config := cfg;
     collectionsMap :=
       fold_left (fun m c => map_set (identifier c) c m) (collections cfg) [];
     genresMap :=
       fold_left (fun m g => map_set (genre_id g) g m) (orEmpty (genres cfg)) [];
     albumsMap :=
       fold_left (fun m a => map_set (album_id a) a m) (orEmpty (albums cfg)) [] |}.

Definition getAllCollections (m : Manager) : list CollectionConfig :=
  collections (config m).

Definition isTrue (o : option bool) : bool :=
  match o with Some b => b | None => false end.

Definition getFeaturedCollections (m : Manager) : list CollectionConfig :=
  filter (fun c => isTrue (featured c)) (collections (config m)).

Definition getCollection (i : string) (m : Manager) : option CollectionConfig :=
  map_get i (collectionsMap m).

Definition getCollectionsByAlbum (albumName : string) (m : Manager) : list CollectionConfig :=
  filter (fun c => (album c =? albumName)%string) (collections (config m)).

Definition getCollectionsByGenre (g : string) (m : Manager) : list CollectionConfig :=
  filter (fun c => (genre c =? g)%string) (collections (config m)).

Definition getAllAlbums (m : Manager) : list Album := orEmpty (albums (config m)).

Definition getAlbum (i : string) (m : Manager) : option Album := map_get i (albumsMap m).

Definition isConfiguredCollection (i : string) (m : Manager) : bool :=
  map_has i (collectionsMap m).

Definition getCollectionsByCreator (c : string) (m : Manager) : list CollectionConfig :=
  filter (fun x => (creator x =? c)%string) (collections (config m)).

(** [Array.from(new Set(array))]: the elements in the order of their first
    occurrence. *)
Definition uniqueInOrder (l : list string) : list string :=
  fold_left (fun s x => set_add x s) l [].

Definition getAllCreators (m : Manager) : list string :=
  uniqueInOrder (map creator (collections (config m))).

Definition getAllContributors (m : Manager) : list string :=
  uniqueInOrder (map contributor (collections (config m))).

Definition getAlbumStats (m : Manager) : list (string * nat) :=
  fold_left
    (fun stats a =>
       let count :=
         List.length (filter (fun c => (album c =? album_nameEn a)%string)
                             (collections (config m))) in
       map_set (album_id a) count stats)
    (orEmpty (albums (config m))) [].

(** The deprecated names. *)
Definition getCollectionsByCategory (categoryId : string) (m : Manager) :=
  getCollectionsByAlbum categoryId m.
Definition getCategoryStats (m : Manager) := getAlbumStats m.

End CollectionManager.

(** ** ArchiveFetcher

    Strings are the UTF-8 bytes of the JavaScript strings. *)

Module ArchiveFetcher.

Definition ARCHIVE_API_BASE : string := "https://archive.org".
Definition DOWNLOAD_ENDPOINT : string := "/download".

Definition isAlphaNum (c : ascii) : bool :=
  let n := nat_of_ascii c in
  ((48 <=? n) && (n <=? 57) || (65 <=? n) && (n <=? 90) || (97 <=? n) && (n <=? 122))%nat.

(** The characters [encodeURIComponent] leaves as they are. *)
Definition isUnreserved (c : ascii) : bool :=
  isAlphaNum c
  || existsb (Ascii.eqb c) ["-"; "_"; "."; "!"; "~"; "*"; "'"; "("; ")"]%char.

Definition hexDigit (n : nat) : ascii :=
  nth n ["0"; "1"; "2"; "3"; "4"; "5"; "6"; "7"; "8"; "9";
         "A"; "B"; "C"; "D"; "E"; "F"]%char "0"%char.

(** [encodeURIComponent]: every byte that is not an unreserved character
    becomes [%XX]. *)
Fixpoint encodeURIComponent (s : string) : string :=
  match s with
  | EmptyString => EmptyString
  | String c rest =>
      if isUnreserved c then String c (encodeURIComponent rest)
      else
        let n := nat_of_ascii c in
        String "%" (String (hexDigit (n / 16)) (String (hexDigit (n mod 16))
                                                        (encodeURIComponent rest)))
  end.

Definition getDownloadUrl (identifier fileName : string) : string :=
  ARCHIVE_API_BASE ++ DOWNLOAD_ENDPOINT ++ "/" ++ identifier ++ "/"
  ++ encodeURIComponent fileName.

Definition getStreamUrl (identifier fileName : string) : string :=
  getDownloadUrl identifier fileName.

(** [/^[a-zA-Z0-9_.-]+$/.test(identifier)] *)
Definition isIdentifierChar (c : ascii) : bool :=
  isAlphaNum c || existsb (Ascii.eqb c) ["_"; "."; "-"]%char.

Fixpoint allChars (p : ascii -> bool) (s : string) : bool :=
  match s with
  | EmptyString => true
  | String c rest => p c && allChars p rest
  end.

Definition isValidIdentifier (identifier : string) : bool :=
  match identifier with
  | EmptyString => false
  | _ => allChars isIdentifierChar identifier
  end.

(** What [fetch] resolved with, as far as [fetchAudioWithProgress] looks
    at it: [contentLength] is the number [parseInt] reads from the
    [content-length] header, 0 when the header is missing or holds no
    number; [body] lists the chunks the reader yields before it is done. *)
Record Response : Type := mkResponse {
  ok : bool;
  statusCode : string;
  contentLength : Z;
  body : option (list string)
}.

Definition chunkLength (chunk : string) : Z := Z.of_nat (String.length chunk).

(** The [while (true)] loop over [reader.read()]: the calls of
    [onProgress], in order, and the final value of [loaded]. *)
Fixpoint readLoop (chunks : list string) (loaded total : Z) : list (Z * Z) * Z :=
  match chunks with
  | [] => ([], loaded)
  | value :: rest =>
      let loaded' := loaded + chunkLength value in
      let '(calls, final) := readLoop rest loaded' total in
      (if total >? 0 then (loaded', total) :: calls else calls, final)
  end.

(** [fetchAudioWithProgress] once [fetch] has resolved: the calls of
    [onProgress] and either the blob or the message of the error thrown. *)
Definition fetchAudioWithProgress (fileName : string) (r : Response)
    : list (Z * Z) * (Blob + string) :=
  if negb (ok r) then
    ([], inr ("Failed to download " ++ fileName ++ ": " ++ statusCode r))
  else
    match body r with
    | None => ([], inr "No response body")
    | Some chunks =>
        let '(calls, loaded) := readLoop chunks 0 (contentLength r) in
        (calls, inl (mkBlob (String.concat "" chunks) loaded))
    end.

End ArchiveFetcher.

(** The number of bytes in a list of chunks. *)
Definition totalLength (chunks : list string) : Z :=
  fold_right (fun chunk n => ArchiveFetcher.chunkLength chunk + n) 0 chunks.

(** What the fetcher and the database do to invocation [k] of
    [startDownload], as events: the progress reports, then the rejection
    of the fetch, or its resolution followed by the two awaited writes, of
    which [rejected] names the one that is rejected, if any, with what it
    throws. *)
Definition deliver (k : nat) (outcome : list (Z * Z) * (Blob + string))
    (rejected : option (AwaitedWrite * Thrown)) : list Event :=
  (map (fun lt => EvProgress k (fst lt) (snd lt)) (fst outcome)
   ++ [match snd outcome with
       | inl blob =>
           match rejected with
           | None => EvFetched k blob
           | Some (write, thrown) => EvRejected k blob write thrown
           end
       | inr message => EvFailed k message
       end])%list.

(* ================================================================== *)
(** * Properties *)

Lemma Status_eqb_spec a b : reflect (a = b) (Status_eqb a b).
Proof. destruct a, b; simpl; constructor; congruence. Qed.


(** ** Object stores *)

Section ObjectStoreFacts.
Context {V : Type} (keyOf : V -> string).

Lemma compare_refl (a : string) : String.compare a a = Eq.
Proof.
  destruct (String.compare a a) eqn:E; trivial;
    pose proof (String.compare_antisym a a) as H; rewrite E in H; discriminate.
Qed.

Lemma compare_neq (a b : string) : String.compare a b <> Eq -> (b =? a)%string = false.
Proof.
  intros H. apply String.eqb_neq. intros ->. apply H, compare_refl.
Qed.

Lemma idb_get_key (k : string) (s : list V) (v : V) :
  idb_get keyOf k s = Some v -> keyOf v = k /\ In v s.
Proof.
  induction s as [|w rest IH]; simpl; [discriminate|].
  destruct (String.eqb_spec (keyOf w) k) as [E|E].
  - intros [= ->]. auto.
  - intros H. destruct (IH H). auto.
Qed.

Lemma idb_get_put_same (v : V) (s : list V) :
  idb_get keyOf (keyOf v) (idb_put keyOf v s) = Some v.
Proof.
  induction s as [|w rest IH]; simpl.
  - now rewrite String.eqb_refl.
  - destruct (String.compare (keyOf v) (keyOf w)) eqn:E; simpl.
    + now rewrite String.eqb_refl.
    + now rewrite String.eqb_refl.
    + rewrite compare_neq by (rewrite E; discriminate). exact IH.
Qed.

Lemma idb_get_put_other (k : string) (v : V) (s : list V) :
  k <> keyOf v -> idb_get keyOf k (idb_put keyOf v s) = idb_get keyOf k s.
Proof.
  intros Hk. assert (Hv : (keyOf v =? k)%string = false)
    by (apply String.eqb_neq; congruence).
  induction s as [|w rest IH]; simpl.
  - now rewrite Hv.
  - destruct (String.compare (keyOf v) (keyOf w)) eqn:E; simpl.
    + apply String.compare_eq_iff in E. rewrite Hv, <- E, Hv. reflexivity.
    + now rewrite Hv.
    + now rewrite IH.
Qed.

Lemma idb_get_In (s : list V) (v : V) :
  uniqueKeys keyOf s = true -> In v s -> idb_get keyOf (keyOf v) s = Some v.
Proof.
  induction s as [|w rest IH]; simpl; [tauto|].
  intros Hu [->|Hin].
  - now rewrite String.eqb_refl.
  - apply andb_prop in Hu as [Hn Hu].
    destruct (String.eqb_spec (keyOf w) (keyOf v)) as [E|E]; [|auto].
    apply negb_true_iff in Hn. exfalso.
    assert (existsb (fun x => (keyOf x =? keyOf w)%string) rest = true).
    { apply existsb_exists. exists v. split; trivial. now apply String.eqb_eq. }
    congruence.
Qed.

Lemma uniqueKeys_NoDup (s : list V) :
  uniqueKeys keyOf s = true -> NoDup (map keyOf s).
Proof.
  induction s as [|w rest IH]; simpl; [constructor|].
  intros Hu. apply andb_prop in Hu as [Hn Hu]. constructor; [|auto].
  intros Hin. apply in_map_iff in Hin as [x [Hx Hin]].
  apply negb_true_iff in Hn.
  assert (existsb (fun y => (keyOf y =? keyOf w)%string) rest = true).
  { apply existsb_exists. exists x. split; trivial. now apply String.eqb_eq. }
  congruence.
Qed.

Lemma idb_delete_many (ks : list string) (s : list V) :
  fold_left (fun s' k => idb_delete keyOf k s') ks s
  = filter (fun v => negb (set_has (keyOf v) ks)) s.
Proof.
  revert s. induction ks as [|k ks IH]; intros s; simpl.
  - induction s as [|v s IHs]; simpl; congruence.
  - rewrite IH. unfold idb_delete.
    induction s as [|v s IHs]; simpl; trivial.
    rewrite (String.eqb_sym k (keyOf v)).
    destruct (keyOf v =? k)%string; simpl; [exact IHs|].
    destruct (set_has (keyOf v) ks); simpl; congruence.
Qed.
Lemma compare_lt_trans (a b c : string) :
  String.compare a b = Lt -> String.compare b c = Lt -> String.compare a c = Lt.
Proof.
  intros H1 H2. apply String_as_OT.cmp_lt.
  apply String_as_OT.cmp_lt in H1, H2. eapply String_as_OT.lt_trans; eauto.
Qed.

Lemma keysAbove_spec (k : string) (s : list V) :
  keysAbove keyOf k s = true <-> forall w, In w s -> String.compare k (keyOf w) = Lt.
Proof.
  unfold keysAbove. rewrite forallb_forall. split; intros H w Hw; specialize (H w Hw).
  - now destruct (String.compare k (keyOf w)).
  - now rewrite H.
Qed.

Lemma keyOrdered_unique (s : list V) :
  keyOrdered keyOf s = true -> uniqueKeys keyOf s = true.
Proof.
  induction s as [|v rest IH]; simpl; trivial.
  intros H. apply andb_prop in H as [Ha Hr]. rewrite (IH Hr), andb_true_r.
  apply negb_true_iff. destruct (existsb _ rest) eqn:E; trivial.
  apply existsb_exists in E as [w [Hw Ek]]. apply String.eqb_eq in Ek.
  rewrite keysAbove_spec in Ha. specialize (Ha w Hw).
  rewrite Ek, compare_refl in Ha. discriminate.
Qed.

Lemma idb_put_In (v x : V) (s : list V) :
  In x (idb_put keyOf v s) -> x = v \/ In x s.
Proof.
  induction s as [|w rest IH]; simpl.
  - intros [<-|[]]. now left.
  - destruct (String.compare (keyOf v) (keyOf w)); simpl.
    + intros [<-|H]; auto.
    + intros [<-|[<-|H]]; auto.
    + intros [<-|H]; auto. destruct (IH H); auto.
Qed.

Lemma idb_put_ordered (v : V) (s : list V) :
  keyOrdered keyOf s = true -> keyOrdered keyOf (idb_put keyOf v s) = true.
Proof.
  induction s as [|w rest IH]; simpl; trivial.
  intros H. apply andb_prop in H as [Ha Hr].
  destruct (String.compare (keyOf v) (keyOf w)) eqn:E; simpl.
  - apply String.compare_eq_iff in E. rewrite E, Ha, Hr. reflexivity.
  - rewrite E, Ha, Hr. simpl. rewrite andb_true_r.
    apply keysAbove_spec. intros x Hx. rewrite keysAbove_spec in Ha.
    eapply compare_lt_trans; [exact E|auto].
  - rewrite (IH Hr), andb_true_r. apply keysAbove_spec. intros x Hx.
    apply idb_put_In in Hx as [->|Hx].
    + rewrite String.compare_antisym, E. reflexivity.
    + rewrite keysAbove_spec in Ha. auto.
Qed.

Lemma idb_delete_ordered (k : string) (s : list V) :
  keyOrdered keyOf s = true -> keyOrdered keyOf (idb_delete keyOf k s) = true.
Proof.
  unfold idb_delete. induction s as [|w rest IH]; simpl; trivial.
  intros H. apply andb_prop in H as [Ha Hr].
  destruct (negb (keyOf w =? k)%string); simpl; [|auto].
  rewrite (IH Hr), andb_true_r. apply keysAbove_spec. intros x Hx.
  apply filter_In in Hx as [Hx _]. rewrite keysAbove_spec in Ha. auto.
Qed.
End ObjectStoreFacts.

(** ** Maps *)

Section JsMapFacts.
Context {V : Type}.

Lemma map_get_set_same (k : string) (v : V) (m : list (string * V)) :
  map_get k (map_set k v m) = Some v.
Proof.
  induction m as [|[k' v'] rest IH]; simpl.
  - now rewrite String.eqb_refl.
  - destruct (k' =? k)%string eqn:E; simpl.
    + now rewrite String.eqb_refl.
    + now rewrite E.
Qed.

Lemma map_get_set_other (k j : string) (v : V) (m : list (string * V)) :
  j <> k -> map_get j (map_set k v m) = map_get j m.
Proof.
  intros Hj. assert (Hk : (k =? j)%string = false)
    by (apply String.eqb_neq; congruence).
  induction m as [|[k' v'] rest IH]; simpl.
  - now rewrite Hk.
  - destruct (String.eqb_spec k' k) as [->|E]; simpl.
    + now rewrite Hk.
    + now rewrite IH.
Qed.

Lemma map_keys_set (k : string) (v : V) (m : list (string * V)) :
  map_keys (map_set k v m)
  = if map_has k m then map_keys m else (map_keys m ++ [k])%list.
Proof.
  unfold map_has. induction m as [|[k' v'] rest IH]; simpl; trivial.
  destruct (String.eqb_spec k' k) as [->|E]; simpl; trivial.
  rewrite IH. now destruct (map_get k rest).
Qed.

Lemma map_get_None (k : string) (m : list (string * V)) :
  map_get k m = None <-> ~ In k (map_keys m).
Proof.
  induction m as [|[k' v'] rest IH]; simpl; [tauto|].
  destruct (String.eqb_spec k' k) as [->|E].
  - split; [discriminate|tauto].
  - rewrite IH. tauto.
Qed.

Lemma map_get_In (k : string) (v : V) (m : list (string * V)) :
  map_get k m = Some v -> In (k, v) m.
Proof.
  induction m as [|[k' v'] rest IH]; simpl; [discriminate|].
  destruct (String.eqb_spec k' k) as [->|E].
  - intros [= ->]. auto.
  - auto.
Qed.

Lemma map_set_In (k j : string) (v x : V) (m : list (string * V)) :
  In (j, x) (map_set k v m) -> (j, x) = (k, v) \/ In (j, x) m.
Proof.
  induction m as [|[k' v'] rest IH]; simpl.
  - intros [H|[]]; auto.
  - destruct (k' =? k)%string; simpl; intros [H|H]; auto.
    destruct (IH H); auto.
Qed.

Lemma map_keys_delete (k : string) (m : list (string * V)) :
  map_keys (map_delete k m)
  = filter (fun j => negb (j =? k)%string) (map_keys m).
Proof.
  induction m as [|[k' v'] rest IH]; simpl; trivial.
  destruct (k' =? k)%string; simpl; congruence.
Qed.
End JsMapFacts.

(* ================================================================== *)
(** ** The audio cache: reads and eviction *)

Module CacheFacts.
Import StorageManager.

Lemma insertByAccess_perm x l : Permutation (insertByAccess x l) (x :: l).
Proof.
  induction l as [|y rest IH]; simpl; [reflexivity|].
  destruct (lastAccessed x <=? lastAccessed y); [reflexivity|].
  rewrite IH. apply perm_swap.
Qed.

Lemma sortByAccess_perm l : Permutation (sortByAccess l) l.
Proof.
  induction l as [|x rest IH]; simpl; [constructor|].
  rewrite insertByAccess_perm. now constructor.
Qed.

Lemma insertByAccess_sorted x l :
  StronglySorted olderOrSame l -> StronglySorted olderOrSame (insertByAccess x l).
Proof.
  induction 1 as [|y rest Hs IH Hall]; simpl.
  - repeat constructor.
  - destruct (Z.leb_spec (lastAccessed x) (lastAccessed y)) as [Hle|Hgt].
    + constructor; [now constructor|]. constructor; [exact Hle|].
      eapply Forall_impl; [|exact Hall]. unfold olderOrSame. intros; lia.
    + constructor; [exact IH|].
      eapply Permutation_Forall; [symmetry; apply insertByAccess_perm|].
      constructor; [unfold olderOrSame; lia|exact Hall].
Qed.

Lemma sortByAccess_sorted l : StronglySorted olderOrSame (sortByAccess l).
Proof.
  induction l as [|x rest IH]; simpl; [constructor|].
  now apply insertByAccess_sorted.
Qed.

(** The loop stops at the shortest prefix whose sizes reach the target. *)
Lemma evictLoop_prefix items targetBytes :
  forall freed acc,
  exists k, (k <= List.length items)%nat /\
    evictLoop items targetBytes freed acc
    = (freed + totalSize (firstn k items),
       (acc ++ map ce_lectureId (firstn k items))%list) /\
    (forall j, (j < k)%nat -> freed + totalSize (firstn j items) < targetBytes) /\
    (targetBytes <= freed + totalSize (firstn k items) \/ k = List.length items).
Proof.
  induction items as [|item rest IH]; intros freed acc; simpl.
  - exists 0%nat. simpl. rewrite app_nil_r, Z.add_0_r. repeat split; auto; lia.
  - destruct (Z.geb_spec freed targetBytes) as [Hge|Hlt].
    + exists 0%nat. simpl. rewrite app_nil_r, Z.add_0_r.
      repeat split; auto; lia.
    + destruct (IH (freed + ce_size item) (acc ++ [ce_lectureId item])%list)
        as (k & Hk & Heq & Hmin & Hstop).
      exists (S k). simpl. rewrite Heq, <- app_assoc, Z.add_assoc. simpl.
      repeat split; [lia| |].
      * intros [|j] Hj; simpl; [lia|].
        specialize (Hmin j ltac:(lia)). lia.
      * destruct Hstop as [H|H]; [left; lia|right; lia].
Qed.

Lemma totalSize_app a b : totalSize (a ++ b) = totalSize a + totalSize b.
Proof. induction a; simpl; lia. Qed.

Lemma totalSize_perm a b : Permutation a b -> totalSize a = totalSize b.
Proof. induction 1; simpl; lia. Qed.

Lemma totalSize_nonneg l : nonNegativeSizes l = true -> 0 <= totalSize l.
Proof.
  induction l as [|e rest IH]; simpl; [lia|].
  intros H. apply andb_prop in H as [He Hr]. apply Z.leb_le in He.
  specialize (IH Hr). lia.
Qed.

Lemma nonNegativeSizes_perm a b :
  Permutation a b -> nonNegativeSizes a = true -> nonNegativeSizes b = true.
Proof.
  unfold nonNegativeSizes. intros P H. apply forallb_forall.
  intros x Hx. rewrite forallb_forall in H. apply H.
  eapply Permutation_in; [symmetry; exact P|exact Hx].
Qed.

Lemma nonNegativeSizes_app a b :
  nonNegativeSizes (a ++ b) = true ->
  nonNegativeSizes a = true /\ nonNegativeSizes b = true.
Proof.
  unfold nonNegativeSizes. rewrite forallb_app. apply andb_prop.
Qed.

Lemma set_has_In k s : set_has k s = true <-> In k s.
Proof.
  unfold set_has. rewrite existsb_exists. split.
  - intros [x [Hx E]]. apply String.eqb_eq in E. now subst.
  - intros H. exists k. split; trivial. apply String.eqb_refl.
Qed.

(** What is left in a store with unique keys once the keys of a prefix of
    a rearrangement of it are deleted: the rest of the rearrangement. *)
Lemma delete_prefix_keeps_rest (cache sorted : list CacheEntry) (k : nat) :
  uniqueKeys ce_lectureId cache = true ->
  Permutation sorted cache ->
  forall e,
    In e (filter (fun v => negb (set_has (ce_lectureId v)
                                   (map ce_lectureId (firstn k sorted)))) cache)
    <-> In e (skipn k sorted).
Proof.
  intros Hu Hp e. rewrite filter_In, negb_true_iff.
  assert (Hnd : NoDup (map ce_lectureId (firstn k sorted ++ skipn k sorted))).
  { rewrite firstn_skipn. eapply Permutation_NoDup.
    - apply Permutation_map. symmetry. exact Hp.
    - now apply uniqueKeys_NoDup. }
  rewrite map_app in Hnd.
  split.
  - intros [Hin Hno].
    apply (Permutation_in _ (Permutation_sym Hp)) in Hin.
    rewrite <- (firstn_skipn k sorted) in Hin. apply in_app_or in Hin as [Hf|Hs]; trivial.
    assert (set_has (ce_lectureId e) (map ce_lectureId (firstn k sorted)) = true)
      by (apply set_has_In, in_map, Hf).
    congruence.
  - intros Hs. split.
    + apply (Permutation_in _ Hp). rewrite <- (firstn_skipn k sorted).
      apply in_or_app. now right.
    + destruct (set_has (ce_lectureId e) (map ce_lectureId (firstn k sorted))) eqn:E;
        trivial.
      apply set_has_In in E. exfalso.
      revert Hnd E Hs. generalize (firstn k sorted) (skipn k sorted).
      intros a b Hnd E Hs.
      induction a as [|x a IHa]; simpl in *; [tauto|].
      inversion Hnd as [|? ? Hx Hnd']; subst.
      destruct E as [E|E]; [|auto].
      apply Hx. rewrite E. apply in_or_app. right. now apply in_map.
Qed.

(** C8. A read of a cached blob returns the stored blob and rewrites the
    record of that lecture with [lastAccessed] set to the current time
    and its blob, size and [cachedAt] as they were; every other record and
    the other object stores are as before. A read of a lecture that is not
    cached returns [undefined] and leaves the database as it was. *)
Theorem getCachedAudio_touches_recency (now : Z) (i : string) (d : DB) :
  match idb_get ce_lectureId i (audioCache d) with
  | Some cached =>
      fst (getCachedAudio now i d) = Some (ce_blob cached) /\
      idb_get ce_lectureId i (audioCache (snd (getCachedAudio now i d)))
      = Some {| ce_lectureId := i; ce_blob := ce_blob cached;
                ce_size := ce_size cached; cachedAt := cachedAt cached;
                lastAccessed := now |} /\
      (forall j, j <> i ->
         idb_get ce_lectureId j (audioCache (snd (getCachedAudio now i d)))
         = idb_get ce_lectureId j (audioCache d)) /\
      lectures (snd (getCachedAudio now i d)) = lectures d /\
      downloads (snd (getCachedAudio now i d)) = downloads d
  | None => getCachedAudio now i d = (None, d)
  end.
Proof.
  unfold getCachedAudio.
  destruct (idb_get ce_lectureId i (audioCache d)) as [cached|] eqn:Hget; trivial.
  apply idb_get_key in Hget as [Hkey _]. simpl. rewrite Hkey.
  repeat split.
  - exact (idb_get_put_same ce_lectureId
             {| ce_lectureId := i; ce_blob := ce_blob cached;
                ce_size := ce_size cached; cachedAt := cachedAt cached;
                lastAccessed := now |} (audioCache d)).
  - intros j Hj. now apply idb_get_put_other.
Qed.

(** C6. Eviction works on the cache records sorted by [lastAccessed],
    oldest first; it deletes a prefix of that order and returns the sum of
    the deleted sizes; the prefix is the shortest one whose sizes reach
    the target (every shorter prefix frees less than the target), or the
    whole cache when no prefix does (so the whole cache, sizes not being
    negative, when the target exceeds the cached total); nothing outside
    the prefix is deleted, and the other object stores are untouched. *)
Theorem evictToFreeSpace_lru_prefix (targetBytes : Z) (d : DB) :
  uniqueKeys ce_lectureId (audioCache d) = true ->
  let sorted := sortByAccess (audioCache d) in
  let freedBytes := fst (evictToFreeSpace targetBytes d) in
  let d' := snd (evictToFreeSpace targetBytes d) in
  Permutation sorted (audioCache d) /\
  StronglySorted olderOrSame sorted /\
  (exists k, (k <= List.length sorted)%nat /\
     freedBytes = totalSize (firstn k sorted) /\
     (forall e, In e (audioCache d') <-> In e (skipn k sorted)) /\
     (forall j, (j < k)%nat -> totalSize (firstn j sorted) < targetBytes) /\
     (targetBytes <= freedBytes \/ k = List.length sorted)) /\
  (nonNegativeSizes (audioCache d) = true ->
   totalSize (audioCache d) < targetBytes ->
     audioCache d' = [] /\ freedBytes = totalSize (audioCache d)) /\
  lectures d' = lectures d /\ downloads d' = downloads d.
Proof.
  intros Hu sorted freedBytes d'.
  pose proof (sortByAccess_perm (audioCache d)) as Hp. fold sorted in Hp.
  destruct (evictLoop_prefix sorted targetBytes 0 [])
    as (k & Hk & Heq & Hmin & Hstop).
  assert (Hres : evictToFreeSpace targetBytes d
                 = (totalSize (firstn k sorted),
                    with_audioCache d
                      (filter (fun v => negb (set_has (ce_lectureId v)
                                 (map ce_lectureId (firstn k sorted))))
                              (audioCache d)))).
  { unfold evictToFreeSpace, idb_getAll. fold sorted. rewrite Heq. simpl.
    now rewrite idb_delete_many. }
  subst freedBytes d'. rewrite Hres. simpl.
  assert (Hrest : forall e,
    In e (filter (fun v => negb (set_has (ce_lectureId v)
                                   (map ce_lectureId (firstn k sorted))))
                 (audioCache d)) <-> In e (skipn k sorted))
    by (now apply delete_prefix_keeps_rest).
  split; [exact Hp|]. split; [apply sortByAccess_sorted|].
  split; [|split; [|split; reflexivity]].
  - exists k. repeat split; trivial; try apply Hrest; auto.
  - intros Hnn Hlt.
    assert (Htot : totalSize sorted = totalSize (audioCache d))
      by (now apply totalSize_perm).
    assert (Hkl : k = List.length sorted).
    { destruct Hstop as [Hstop|]; trivial. exfalso. simpl in Hstop.
      rewrite <- (firstn_skipn k sorted), totalSize_app in Htot.
      assert (Hs : nonNegativeSizes sorted = true)
        by (eapply nonNegativeSizes_perm; [symmetry; exact Hp|exact Hnn]).
      rewrite <- (firstn_skipn k sorted) in Hs.
      apply nonNegativeSizes_app in Hs as [_ Hs].
      apply totalSize_nonneg in Hs. lia. }
    split.
    + destruct (filter _ (audioCache d)) as [|e rest] eqn:E; trivial.
      exfalso. assert (Hin : In e (e :: rest)) by now left.
      apply Hrest in Hin. rewrite Hkl, skipn_all in Hin. exact Hin.
    + rewrite Hkl, firstn_all. exact Htot.
Qed.

Lemma evictToFreeSpace_lru_prefix_abc :
  uniqueKeys ce_lectureId (audioCache abcDB) = true /\
  (exists k, (k <= 3)%nat /\
     fst (evictToFreeSpace (25 * MB) abcDB) = totalSize (firstn k abcCache) /\
     (forall e, In e (audioCache (snd (evictToFreeSpace (25 * MB) abcDB)))
                <-> In e (skipn k abcCache)) /\
     (forall j, (j < k)%nat -> totalSize (firstn j abcCache) < 25 * MB) /\
     (25 * MB <= fst (evictToFreeSpace (25 * MB) abcDB) \/ k = 3%nat)) /\
  map ce_lectureId (audioCache (snd (evictToFreeSpace (25 * MB) abcDB))) = ["C"] /\
  fst (evictToFreeSpace (25 * MB) abcDB) = 30 * MB.
Proof.
  split; [reflexivity|].
  split; [|split; reflexivity].
  exact (proj1 (proj2 (proj2
           (evictToFreeSpace_lru_prefix (25 * MB) abcDB eq_refl)))).
Defined.

(** With sizes 10, 20 and 30 MB in the order of recency, freeing 25 MB
    deletes [A] and [B], which together hold 30 MB, not 40 MB. *)
Lemma evictToFreeSpace_abc_frees_30 :
  evictToFreeSpace (25 * MB) abcDB
  = (30 * MB, mkDB [] [mkEntry "C" (mkBlob "c" (30 * MB)) (30 * MB) 300 300] []) /\
  fst (evictToFreeSpace (25 * MB) abcDB) <> 40 * MB.
Proof. split; [reflexivity|]. vm_compute. discriminate. Qed.

End CacheFacts.

(* ================================================================== *)
(** ** The queue manager, one call at a time *)

Module ManagerFacts.
Import DownloadManager.

Lemma startDownload_many (l : list DownloadTask) (w : World) :
  fold_left (fun w' task => startDownload (lectureId task) w') l w
  = with_inflight w (inflight w ++ map (fun t => AwaitLecture (lectureId t)) l).
Proof.
  revert w. induction l as [|t l IH]; intros w; simpl.
  - rewrite app_nil_r. now destruct w.
  - rewrite IH. unfold startDownload, with_inflight. simpl.
    now rewrite <- app_assoc.
Qed.

(** [processQueue] changes nothing but the list of suspended
    invocations, to which it adds one per task it starts. *)
Lemma processQueue_starts (w : World) :
  processQueue w
  = with_inflight w
      (inflight w ++ map (fun t => AwaitLecture (lectureId t)) (tasksToStart w)).
Proof.
  unfold processQueue, tasksToStart.
  destruct (isPaused (store w)).
  - simpl. rewrite app_nil_r. now destruct w.
  - destruct (_ || _).
    + simpl. rewrite app_nil_r. now destruct w.
    + apply startDownload_many.
Qed.

(** One call starts at most as many transfers as there are free slots. *)
Lemma processQueue_within_slots (w : World) :
  Z.of_nat (List.length (inflight (processQueue w))) - Z.of_nat (List.length (inflight w))
  <= Z.max 0 (MAX_CONCURRENT_DOWNLOADS - set_size (activeDownloads (store w))).
Proof.
  rewrite processQueue_starts. simpl. rewrite length_app, length_map.
  unfold tasksToStart. destruct (isPaused (store w)); simpl; [lia|].
  destruct (_ || _); simpl; [lia|].
  match goal with |- context [firstn ?n ?l] =>
    pose proof (firstn_le_length n l) as H1;
    assert (H2 : (List.length (firstn n l) <= n)%nat)
      by (rewrite length_firstn; lia)
  end.
  lia.
Qed.

Lemma processQueue_store w : store (processQueue w) = store w.
Proof. now rewrite processQueue_starts. Qed.

Lemma processQueue_db w : db (processQueue w) = db w.
Proof. now rewrite processQueue_starts. Qed.

Lemma updateTask_get (i : string) (u : TaskUpdates) (w : World) (t : DownloadTask) :
  map_get i (tasks (store w)) = Some t ->
  map_get i (tasks (store (updateTask i u w))) = Some (spread t u).
Proof.
  intros H. unfold updateTask. rewrite H. simpl. apply map_get_set_same.
Qed.

Lemma updateTask_get_other (i j : string) (u : TaskUpdates) (w : World) :
  j <> i ->
  map_get j (tasks (store (updateTask i u w))) = map_get j (tasks (store w)).
Proof.
  intros H. unfold updateTask.
  destruct (map_get i (tasks (store w))); simpl; trivial.
  now apply map_get_set_other.
Qed.

Lemma updateTask_saved (i : string) (u : TaskUpdates) (w : World) (t : DownloadTask) :
  map_get i (tasks (store w)) = Some t ->
  downloads (db (updateTask i u w)) = idb_put lectureId (spread t u) (downloads (db w)).
Proof. intros H. unfold updateTask. now rewrite H. Qed.

Lemma updateTask_frame (i : string) (u : TaskUpdates) (w : World) :
  activeDownloads (store (updateTask i u w)) = activeDownloads (store w) /\
  isPaused (store (updateTask i u w)) = isPaused (store w) /\
  audioCache (db (updateTask i u w)) = audioCache (db w) /\
  lectures (db (updateTask i u w)) = lectures (db w) /\
  inflight (updateTask i u w) = inflight w /\
  abortControllers (updateTask i u w) = abortControllers w /\
  abortedSignals (updateTask i u w) = abortedSignals w.
Proof.
  unfold updateTask. destruct (map_get i (tasks (store w))); simpl; tauto.
Qed.

(** What is in the map once the persisted tasks with pairwise different
    keys have been set one after the other. *)
Lemma load_fold (l : list DownloadTask) (m : list (string * DownloadTask)) :
  uniqueKeys lectureId l = true ->
  (forall t, In t l -> map_get (lectureId t) m = None) ->
  fold_left (fun m' task =>
               map_set (lectureId (resetInterrupted task)) (resetInterrupted task) m')
            l m
  = (m ++ map (fun t => (lectureId t, resetInterrupted t)) l)%list.
Proof.
  assert (Hid : forall t, lectureId (resetInterrupted t) = lectureId t).
  { intros t. unfold resetInterrupted. now destruct (Status_eqb _ _). }
  assert (Hset : forall k v (m0 : list (string * DownloadTask)),
             map_get k m0 = None -> map_set k v m0 = (m0 ++ [(k, v)])%list).
  { intros k v m0. induction m0 as [|[k' v'] rest IH]; simpl; trivial.
    destruct (k' =? k)%string; [discriminate|]. intros H. now rewrite IH. }
  revert m. induction l as [|t l IH]; intros m Hu Hm; simpl.
  - now rewrite app_nil_r.
  - apply andb_prop in Hu as [Hn Hu]. apply negb_true_iff in Hn.
    rewrite Hid, Hset by (apply Hm; now left).
    rewrite IH; trivial.
    + now rewrite <- app_assoc.
    + intros x Hx. apply map_get_None. unfold map_keys. rewrite map_app. simpl.
      intros Hin. apply in_app_or in Hin as [Hin|[Hin|[]]].
      * revert Hin. apply map_get_None. apply Hm. now right.
      * assert (existsb (fun y => (lectureId y =? lectureId t)%string) l = true).
        { apply existsb_exists. exists x. split; trivial. now apply String.eqb_eq. }
        congruence.
Qed.

(** C5. Loading the persisted tasks puts every one of them in the task
    map under its lecture id, in the order of the store: a task persisted
    as [downloading] is loaded as [pending] with progress 0 and its other
    fields unchanged, a task in any other status is loaded as it is.
    Loading starts no transfer and does not touch the database. *)
Theorem loadExistingTasks_resets_interrupted (w : World) (t : DownloadTask) :
  uniqueKeys lectureId (downloads (db w)) = true ->
  In t (StorageManager.getAllDownloads (db w)) ->
  map_get (lectureId t) (tasks (store (loadExistingTasks w)))
  = Some (if Status_eqb (status t) downloading
          then {| lectureId := lectureId t; status := pending; progress := 0%Q;
                  bytesDownloaded := bytesDownloaded t; totalBytes := totalBytes t;
                  startedAt := startedAt t; completedAt := completedAt t;
                  error := error t |}
          else t) /\
  tasks (store (loadExistingTasks w))
  = map (fun x => (lectureId x, resetInterrupted x)) (downloads (db w)) /\
  inflight (loadExistingTasks w) = inflight w /\
  activeDownloads (store (loadExistingTasks w)) = activeDownloads (store w) /\
  db (loadExistingTasks w) = db w.
Proof.
  intros Hu Hin.
  assert (Hload : tasks (store (loadExistingTasks w))
                  = map (fun x => (lectureId x, resetInterrupted x)) (downloads (db w))).
  { unfold loadExistingTasks, StorageManager.getAllDownloads, idb_getAll. simpl.
    now rewrite load_fold. }
  split; [|split; [exact Hload|repeat split]].
  rewrite Hload. unfold StorageManager.getAllDownloads, idb_getAll in Hin.
  fold (resetInterrupted t).
  revert Hu Hin. generalize (downloads (db w)). intros l.
  induction l as [|x l IH]; simpl; [tauto|].
  intros Hu [->|Hin].
  - now rewrite String.eqb_refl.
  - apply andb_prop in Hu as [Hn Hu]. apply negb_true_iff in Hn.
    destruct (String.eqb_spec (lectureId x) (lectureId t)) as [E|E]; [|auto].
    exfalso.
    assert (existsb (fun y => (lectureId y =? lectureId x)%string) l = true).
    { apply existsb_exists. exists t. split; trivial. now apply String.eqb_eq. }
    congruence.
Qed.

Lemma loadExistingTasks_resets_interrupted_example :
  uniqueKeys lectureId (downloads persistedExample) = true /\
  In (mkTask "b" downloading (40 # 1)%Q 40 100 (Some 5) None None)
     (StorageManager.getAllDownloads persistedExample) /\
  map_get "b" (tasks (store (loadExistingTasks (initialWorld persistedExample None 0))))
  = Some (mkTask "b" pending 0%Q 40 100 (Some 5) None None).
Proof.
  split; [reflexivity|]. split; [simpl; auto|].
  exact (proj1 (loadExistingTasks_resets_interrupted
                  (initialWorld persistedExample None 0)
                  (mkTask "b" downloading (40 # 1)%Q 40 100 (Some 5) None None)
                  eq_refl (or_intror (or_introl eq_refl)))).
Defined.

Lemma queueDownload_accepted (lecture : Lecture) (w : World) :
  match map_get (id lecture) (tasks (store w)) with
  | Some task => Status_eqb (status task) completed || Status_eqb (status task) downloading
  | None => false
  end = false ->
  checkStorageAvailability (fileSize lecture) w = true ->
  fst (queueDownload lecture w) = inl tt /\
  map_get (id lecture) (tasks (store (snd (queueDownload lecture w))))
  = Some (freshTask lecture) /\
  idb_get lectureId (id lecture) (downloads (db (snd (queueDownload lecture w))))
  = Some (freshTask lecture).
Proof.
  intros Hno Hok. unfold queueDownload. rewrite Hno, Hok. simpl.
  rewrite processQueue_store, processQueue_db. simpl.
  split; [reflexivity|]. split.
  - apply map_get_set_same.
  - exact (idb_get_put_same lectureId (freshTask lecture) (downloads (db w))).
Qed.

Lemma queueDownload_rejected (lecture : Lecture) (w : World) :
  match map_get (id lecture) (tasks (store w)) with
  | Some task => Status_eqb (status task) completed || Status_eqb (status task) downloading
  | None => false
  end = false ->
  checkStorageAvailability (fileSize lecture) w = false ->
  queueDownload lecture w = (inr InsufficientStorage, w).
Proof. intros Hno Hok. unfold queueDownload. now rewrite Hno, Hok. Qed.

(** C1, as the code has it. A [queueDownload] for a lecture that has no
    [completed] or [downloading] task is decided by the head-room check
    alone, with the fixed buffer of 50 MiB: when the available space is
    not greater than the declared size plus the buffer, the call fails
    with the insufficient-storage error and leaves the whole world as it
    was (no task, no eviction, nothing deleted); when it is greater, the
    call succeeds and the lecture's task is the fresh [pending] one. *)
Theorem queueDownload_storage_check (lecture : Lecture) (w : World) :
  (forall t, map_get (id lecture) (tasks (store w)) = Some t ->
             status t <> completed /\ status t <> downloading) ->
  let stats := StorageManager.getStorageStats (estimate w) (db w) in
  (available stats <= fileSize lecture + 50 * 1024 * 1024 ->
     queueDownload lecture w = (inr InsufficientStorage, w)) /\
  (available stats > fileSize lecture + 50 * 1024 * 1024 ->
     fst (queueDownload lecture w) = inl tt /\
     map_get (id lecture) (tasks (store (snd (queueDownload lecture w))))
     = Some (freshTask lecture)).
Proof.
  intros Hno stats.
  assert (Hno' : match map_get (id lecture) (tasks (store w)) with
                 | Some task => Status_eqb (status task) completed
                                || Status_eqb (status task) downloading
                 | None => false
                 end = false).
  { destruct (map_get (id lecture) (tasks (store w))) as [t|]; trivial.
    destruct (Hno t eq_refl) as [H1 H2].
    destruct (status t); simpl; congruence. }
  split; intros Hav.
  - apply queueDownload_rejected; trivial.
    unfold checkStorageAvailability, STORAGE_BUFFER_MB. fold stats.
    rewrite Z.gtb_ltb. apply Z.ltb_ge. lia.
  - destruct (queueDownload_accepted lecture w Hno') as (H1 & H2 & _); auto.
    unfold checkStorageAvailability, STORAGE_BUFFER_MB. fold stats.
    rewrite Z.gtb_ltb. apply Z.ltb_lt. lia.
Qed.

Lemma queueDownload_storage_check_tight :
  (forall t, map_get "X" (tasks (store tightWorld)) = Some t ->
             status t <> completed /\ status t <> downloading) /\
  available (StorageManager.getStorageStats (estimate tightWorld) (db tightWorld))
  <= 5 * MB + 50 * 1024 * 1024 /\
  queueDownload (lectureOf "X" (5 * MB)) tightWorld = (inr InsufficientStorage, tightWorld).
Proof.
  assert (H : forall t, map_get "X" (tasks (store tightWorld)) = Some t ->
                        status t <> completed /\ status t <> downloading)
    by (intros t Ht; discriminate Ht).
  split; [exact H|]. split; [vm_compute; discriminate|].
  apply (proj1 (queueDownload_storage_check (lectureOf "X" (5 * MB)) tightWorld H)).
  vm_compute. discriminate.
Defined.

(** The enqueue fails and evicts nothing, although an eviction for the
    same request would free all the bytes it asks for. *)
Lemma queueDownload_fails_without_evicting :
  checkStorageAvailability (5 * MB) evictableWorld = false /\
  fst (freeUpSpace (5 * MB) evictableWorld) = true /\
  queueDownload (lectureOf "X" (5 * MB)) evictableWorld
  = (inr InsufficientStorage, evictableWorld) /\
  StorageManager.isAudioCached "old"
    (db (snd (queueDownload (lectureOf "X" (5 * MB)) evictableWorld))) = true.
Proof. repeat split; reflexivity. Qed.

(** With the fixed buffer, the 5 MB lecture is still refused after 15 MB
    of the 90 MB in use have been freed. *)
Example queueDownload_after_freeing_15MB :
  queueDownload (lectureOf "X" (5 * MB))
    (initialWorld (mkDB [lectureOf "X" (5 * MB)] [] []) (Some (100 * MB, 75 * MB)) 0)
  = (inr InsufficientStorage,
     initialWorld (mkDB [lectureOf "X" (5 * MB)] [] []) (Some (100 * MB, 75 * MB)) 0).
Proof. reflexivity. Qed.

(** C10, as the code has it. When the lecture already has a task:
    a [completed] or [downloading] one makes the call return normally
    with the world unchanged; a [pending], [paused] or [failed] one is
    replaced, in the map and in the persistent store, by the fresh
    [pending] task when the storage check passes, and when the check
    fails the call raises and the world, the old task included, is
    unchanged. *)
Theorem queueDownload_existing_task (lecture : Lecture) (w : World) (t : DownloadTask) :
  map_get (id lecture) (tasks (store w)) = Some t ->
  (status t = completed \/ status t = downloading ->
     queueDownload lecture w = (inl tt, w)) /\
  (status t = pending \/ status t = paused \/ status t = failed ->
     (checkStorageAvailability (fileSize lecture) w = true ->
        fst (queueDownload lecture w) = inl tt /\
        map_get (id lecture) (tasks (store (snd (queueDownload lecture w))))
        = Some (freshTask lecture) /\
        idb_get lectureId (id lecture) (downloads (db (snd (queueDownload lecture w))))
        = Some (freshTask lecture)) /\
     (checkStorageAvailability (fileSize lecture) w = false ->
        queueDownload lecture w = (inr InsufficientStorage, w))).
Proof.
  intros Ht. split.
  - intros Hs. unfold queueDownload. rewrite Ht.
    destruct Hs as [-> | ->]; reflexivity.
  - intros Hs.
    assert (Hno : match map_get (id lecture) (tasks (store w)) with
                  | Some task => Status_eqb (status task) completed
                                 || Status_eqb (status task) downloading
                  | None => false
                  end = false).
    { rewrite Ht. destruct Hs as [-> | [-> | ->]]; reflexivity. }
    split; intros Hc.
    + now apply queueDownload_accepted.
    + now apply queueDownload_rejected.
Qed.

Lemma queueDownload_existing_task_failed :
  map_get "X" (tasks (store failedTaskWorld))
  = Some (mkTask "X" failed (40 # 1)%Q 40 100 (Some 5) None
                 (Some "Failed to download X.mp3: 503")) /\
  queueDownload (lectureOf "X" 100) failedTaskWorld
  = (inr InsufficientStorage, failedTaskWorld).
Proof.
  split; [reflexivity|].
  refine (proj2 (proj2 (queueDownload_existing_task (lectureOf "X" 100) failedTaskWorld
                          _ eq_refl) (or_intror (or_intror eq_refl))) eq_refl).
Defined.

(** The [failed] task is still there after the call: it was not replaced
    by a fresh [pending] one. *)
Lemma queueDownload_keeps_failed_task :
  fst (queueDownload (lectureOf "X" 100) failedTaskWorld) = inr InsufficientStorage /\
  option_map status
    (map_get "X" (tasks (store (snd (queueDownload (lectureOf "X" 100) failedTaskWorld)))))
  = Some failed /\
  map_get "X" (tasks (store (snd (queueDownload (lectureOf "X" 100) failedTaskWorld))))
  <> Some (freshTask (lectureOf "X" 100)).
Proof. repeat split; try reflexivity. vm_compute. discriminate. Qed.

(** C9. [retryDownload] resets the task of the lecture whatever its
    status: afterwards the task is [pending] with progress 0, no bytes
    downloaded and no error, its other fields as before, in the map and
    in the persistent store. *)
Theorem retryDownload_resets_any_status (i : string) (w : World) (t : DownloadTask) :
  map_get i (tasks (store w)) = Some t ->
  map_get i (tasks (store (retryDownload i w)))
  = Some {| lectureId := lectureId t; status := pending; progress := 0%Q;
            bytesDownloaded := 0; totalBytes := totalBytes t;
            startedAt := startedAt t; completedAt := completedAt t;
            error := None |} /\
  idb_get lectureId (lectureId t) (downloads (db (retryDownload i w)))
  = Some {| lectureId := lectureId t; status := pending; progress := 0%Q;
            bytesDownloaded := 0; totalBytes := totalBytes t;
            startedAt := startedAt t; completedAt := completedAt t;
            error := None |}.
Proof.
  intros Ht. unfold retryDownload.
  rewrite processQueue_store, processQueue_db. split.
  - rewrite (updateTask_get _ _ _ _ Ht). reflexivity.
  - rewrite (updateTask_saved _ _ _ _ Ht).
    match goal with
    | |- idb_get _ _ (idb_put _ ?v ?s) = _ => exact (idb_get_put_same lectureId v s)
    end.
Qed.

Lemma retryDownload_resets_completed :
  map_get "X" (tasks (store completedTaskWorld))
  = Some (mkTask "X" completed (100 # 1)%Q 100 100 (Some 5) (Some 9) None) /\
  map_get "X" (tasks (store (retryDownload "X" completedTaskWorld)))
  = Some (mkTask "X" pending 0%Q 0 100 (Some 5) (Some 9) None).
Proof.
  split; [reflexivity|].
  exact (proj1 (retryDownload_resets_any_status "X" completedTaskWorld _ eq_refl)).
Defined.

Lemma set_has_delete (i : string) (s : list string) :
  set_has i (set_delete i s) = false.
Proof.
  unfold set_has, set_delete. induction s as [|x s IH]; simpl; trivial.
  destruct (x =? i)%string eqn:E; simpl; trivial. now rewrite E.
Qed.

Lemma map_get_delete {V} (i : string) (m : list (string * V)) :
  map_get i (map_delete i m) = None.
Proof.
  unfold map_delete. induction m as [|[k v] m IH]; simpl; trivial.
  destruct (k =? i)%string eqn:E; simpl; trivial. now rewrite E.
Qed.

Lemma tasksToStart_store (a b : World) :
  store a = store b -> tasksToStart a = tasksToStart b.
Proof. unfold tasksToStart. now intros ->. Qed.

Lemma tasksToStart_pending (w : World) :
  Forall (fun x => status x = pending) (tasksToStart w).
Proof.
  unfold tasksToStart. destruct (isPaused (store w)); [constructor|].
  destruct (_ || _); [constructor|].
  apply Forall_forall. intros x Hx.
  match type of Hx with In _ (firstn ?n ?l) =>
    assert (Hin : In x l)
      by (rewrite <- (firstn_skipn n l); apply in_or_app; now left)
  end.
  apply filter_In in Hin as [_ Hx']. now destruct (Status_eqb_spec (status x) pending).
Qed.

(** [processQueue] starts something as soon as the queue is not paused,
    a slot is free and a task is pending. *)
Lemma tasksToStart_nonempty (w : World) (j : string) (tj : DownloadTask) :
  isPaused (store w) = false ->
  set_size (activeDownloads (store w)) < MAX_CONCURRENT_DOWNLOADS ->
  map_get j (tasks (store w)) = Some tj ->
  status tj = pending ->
  tasksToStart w <> [].
Proof.
  intros Hp Hs Hj Hst. unfold tasksToStart. rewrite Hp.
  assert (Hin : In tj (filter (fun t => Status_eqb (status t) pending)
                              (map_values (tasks (store w))))).
  { apply filter_In. split.
    - apply map_get_In in Hj. unfold map_values.
      change tj with (snd (j, tj)). now apply in_map.
    - now rewrite Hst. }
  destruct (filter _ _) as [|p rest] eqn:E; [destruct Hin|].
  destruct (Z.leb_spec (MAX_CONCURRENT_DOWNLOADS
                        - set_size (activeDownloads (store w))) 0) as [H|H]; [lia|].
  cbn [orb List.length Nat.eqb].
  destruct (Z.to_nat (MAX_CONCURRENT_DOWNLOADS
                      - set_size (activeDownloads (store w)))) eqn:En; [lia|].
  cbn [firstn]. discriminate.
Qed.

(** C3, as the code has it. When the abort of a transfer is observed,
    the task of the lecture becomes [paused] and its [error] field is set
    to ['Download cancelled'], its other fields unchanged; the audio cache
    is as before (no blob is stored); the lecture leaves the set of active
    downloads and its abort controller is dropped; [processQueue] then
    runs in the store this leaves behind, and starts at least one [pending]
    task when the queue is not paused, a slot is free and some other task
    is pending. *)
Theorem abort_pauses_and_releases_slot (i : string) (w : World) (t : DownloadTask) :
  map_get i (tasks (store w)) = Some t ->
  let w' := startDownload_aborted i w in
  map_get i (tasks (store w'))
  = Some {| lectureId := lectureId t; status := paused; progress := progress t;
            bytesDownloaded := bytesDownloaded t; totalBytes := totalBytes t;
            startedAt := startedAt t; completedAt := completedAt t;
            error := Some "Download cancelled" |} /\
  audioCache (db w') = audioCache (db w) /\
  set_has i (activeDownloads (store w')) = false /\
  map_get i (abortControllers w') = None /\
  inflight w'
  = (inflight w ++ map (fun x => AwaitLecture (lectureId x)) (tasksToStart w'))%list /\
  Forall (fun x => status x = pending) (tasksToStart w') /\
  (isPaused (store w) = false ->
   set_size (set_delete i (activeDownloads (store w))) < MAX_CONCURRENT_DOWNLOADS ->
   (exists j tj, j <> i /\ map_get j (tasks (store w)) = Some tj /\ status tj = pending) ->
   tasksToStart w' <> []).
Proof.
  intros Ht w'. subst w'. unfold startDownload_aborted, finallyRelease.
  set (u := {| u_status := Some paused; u_progress := None; u_bytesDownloaded := None;
               u_totalBytes := None; u_startedAt := None; u_completedAt := None;
               u_error := Some (Some "Download cancelled") |}).
  destruct (updateTask_frame i u w) as (Ha & Hp & Hc & Hl & Hi & Hab & Hsig).
  set (released := with_active _ _).
  assert (Hst : store (processQueue released) = store released)
    by apply processQueue_store.
  assert (Htasks : tasks (store released) = tasks (store (updateTask i u w)))
    by reflexivity.
  assert (Hact : activeDownloads (store released)
                 = set_delete i (activeDownloads (store w)))
    by (subst released; simpl; now rewrite Ha).
  split; [|split; [|split; [|split; [|split; [|split]]]]].
  - rewrite Hst, Htasks, (updateTask_get _ _ _ _ Ht). reflexivity.
  - rewrite processQueue_db. subst released. simpl. exact Hc.
  - rewrite Hst, Hact. apply set_has_delete.
  - rewrite processQueue_starts. subst released. simpl. apply map_get_delete.
  - rewrite (tasksToStart_store _ released Hst), processQueue_starts.
    subst released. simpl. now rewrite Hi.
  - apply tasksToStart_pending.
  - intros Hnp Hslot (j & tj & Hj & Hget & Hpend).
    rewrite (tasksToStart_store _ released Hst).
    apply (tasksToStart_nonempty released j tj); trivial.
    + subst released. simpl. now rewrite Hp.
    + now rewrite Hact.
    + rewrite Htasks. now rewrite updateTask_get_other.
Qed.

End ManagerFacts.

(* ================================================================== *)
(** ** The queue manager under interleaving *)

Module QueueFacts.
Import DownloadManager ManagerFacts.

Lemma wfTasks_set (k : string) (v : DownloadTask) (m : list (string * DownloadTask)) :
  lectureId v = k -> wfTasks m -> wfTasks (map_set k v m).
Proof.
  intros Hk [Hnd Hid]. split.
  - rewrite map_keys_set. unfold map_has.
    destruct (map_get k m) eqn:E; trivial.
    apply NoDup_app; trivial.
    + repeat constructor. intros [].
    + intros a Ha [<-|[]]. revert Ha. now apply map_get_None.
  - intros j x Hin. apply map_set_In in Hin as [[= -> ->]|Hin]; auto.
Qed.

Lemma wfTasks_delete (k : string) (m : list (string * DownloadTask)) :
  wfTasks m -> wfTasks (map_delete k m).
Proof.
  intros [Hnd Hid]. split.
  - rewrite map_keys_delete. now apply NoDup_filter.
  - intros j x Hin. apply filter_In in Hin as [Hin _]. auto.
Qed.

Lemma spread_lectureId t u : lectureId (spread t u) = lectureId t.
Proof. reflexivity. Qed.

Lemma inv_updateTask i u w : oneTaskPerLecture w -> oneTaskPerLecture (updateTask i u w).
Proof.
  unfold oneTaskPerLecture, updateTask. intros Hw.
  destruct (map_get i (tasks (store w))) as [t|] eqn:E; trivial. simpl.
  apply wfTasks_set; trivial. rewrite spread_lectureId.
  apply map_get_In in E. now apply (proj2 Hw).
Qed.

Lemma inv_same_tasks a b :
  tasks (store a) = tasks (store b) -> oneTaskPerLecture b -> oneTaskPerLecture a.
Proof. unfold oneTaskPerLecture. now intros ->. Qed.

Lemma inv_processQueue w : oneTaskPerLecture w -> oneTaskPerLecture (processQueue w).
Proof. apply inv_same_tasks. now rewrite processQueue_store. Qed.

Lemma inv_with_db w d : oneTaskPerLecture w -> oneTaskPerLecture (with_db w d).
Proof. now apply inv_same_tasks. Qed.

Lemma inv_with_inflight w l : oneTaskPerLecture w -> oneTaskPerLecture (with_inflight w l).
Proof. now apply inv_same_tasks. Qed.

Lemma inv_with_controllers w c a n :
  oneTaskPerLecture w -> oneTaskPerLecture (with_controllers w c a n).
Proof. now apply inv_same_tasks. Qed.

Lemma inv_with_active w a : oneTaskPerLecture w -> oneTaskPerLecture (with_active w a).
Proof. now apply inv_same_tasks. Qed.

Lemma inv_with_isPaused w b : oneTaskPerLecture w -> oneTaskPerLecture (with_isPaused w b).
Proof. now apply inv_same_tasks. Qed.

Lemma inv_with_tasks_set w k v :
  lectureId v = k -> oneTaskPerLecture w ->
  oneTaskPerLecture (with_tasks w (map_set k v (tasks (store w)))).
Proof. intros Hk Hw. now apply wfTasks_set. Qed.

Lemma inv_with_tasks_delete w k :
  oneTaskPerLecture w ->
  oneTaskPerLecture (with_tasks w (map_delete k (tasks (store w)))).
Proof. intros Hw. now apply wfTasks_delete. Qed.

Lemma inv_fold {A} (f : World -> A -> World) (l : list A) :
  (forall w x, oneTaskPerLecture w -> oneTaskPerLecture (f w x)) ->
  forall w, oneTaskPerLecture w -> oneTaskPerLecture (fold_left f l w).
Proof. intros Hf. induction l as [|x l IH]; simpl; auto. Qed.

Create HintDb inv.
#[local] Hint Resolve inv_updateTask inv_processQueue inv_with_db inv_with_inflight
  inv_with_controllers inv_with_active inv_with_isPaused inv_with_tasks_set
  inv_with_tasks_delete : inv.

Lemma inv_finallyRelease i w : oneTaskPerLecture w -> oneTaskPerLecture (finallyRelease i w).
Proof. unfold finallyRelease. auto with inv. Qed.
#[local] Hint Resolve inv_finallyRelease : inv.

Lemma inv_abortController i w : oneTaskPerLecture w -> oneTaskPerLecture (abortController i w).
Proof. unfold abortController. destruct (map_get i _); auto with inv. Qed.
#[local] Hint Resolve inv_abortController : inv.

Lemma inv_loadExistingTasks w : oneTaskPerLecture (loadExistingTasks w).
Proof.
  unfold loadExistingTasks, oneTaskPerLecture. simpl.
  assert (H : forall l m, wfTasks m ->
            wfTasks (fold_left (fun m' task =>
                       map_set (lectureId (resetInterrupted task))
                               (resetInterrupted task) m') l m)).
  { induction l as [|t l IH]; simpl; trivial.
    intros m Hm. apply IH. now apply wfTasks_set. }
  apply H. split; [constructor|intros ? ? []].
Qed.

Lemma inv_queueDownload lecture w :
  oneTaskPerLecture w -> oneTaskPerLecture (snd (queueDownload lecture w)).
Proof.
  intros Hw. unfold queueDownload.
  destruct (match map_get (id lecture) (tasks (store w)) with
            | Some task => _ | None => false end); trivial.
  destruct (negb _); trivial. simpl.
  apply inv_processQueue, inv_with_db. now apply inv_with_tasks_set.
Qed.

Lemma inv_cancelDownload i w : oneTaskPerLecture w -> oneTaskPerLecture (cancelDownload i w).
Proof.
  intros Hw. unfold cancelDownload.
  match goal with
  | |- oneTaskPerLecture (match ?o with Some _ => with_db ?x _ | None => _ end) =>
      assert (Hx : oneTaskPerLecture x); [|destruct o; auto with inv]
  end.
  do 2 apply inv_with_db. unfold oneTaskPerLecture. simpl.
  apply wfTasks_delete. now apply inv_abortController.
Qed.

Lemma inv_pauseAll w : oneTaskPerLecture w -> oneTaskPerLecture (pauseAll w).
Proof. intros Hw. unfold pauseAll. apply inv_fold; auto with inv. Qed.

Lemma inv_resumeAll w : oneTaskPerLecture w -> oneTaskPerLecture (resumeAll w).
Proof.
  intros Hw. unfold resumeAll. apply inv_processQueue, inv_fold; auto with inv.
  intros w' x Hw'. destruct (Status_eqb _ _); auto with inv.
Qed.

Lemma inv_freeUpSpace n w :
  oneTaskPerLecture w -> oneTaskPerLecture (snd (freeUpSpace n w)).
Proof.
  intros Hw. unfold freeUpSpace.
  destruct (_ >=? _); trivial.
  destruct (StorageManager.evictToFreeSpace _ _) as [freed d1]. simpl.
  apply inv_fold; auto with inv.
  intros w' x Hw'. destruct (_ && _); auto with inv.
Qed.

Lemma inv_startDownload_loaded i w :
  oneTaskPerLecture w -> oneTaskPerLecture (fst (startDownload_loaded i w)).
Proof.
  intros Hw. unfold startDownload_loaded.
  destruct (StorageManager.getLecture i (db w)); simpl; auto with inv.
  destruct (matchDownloadUrl _) as [[identifier fileName]|]; simpl;
    [destruct (decodeURIComponent fileName); simpl|]; auto 7 with inv.
Qed.

Lemma step_keeps_one_task_per_lecture e w w' :
  step e w = Some w' -> oneTaskPerLecture w -> oneTaskPerLecture w'.
Proof.
  intros Hs Hw. destruct e; simpl in Hs.
  - injection Hs as <-. apply inv_loadExistingTasks.
  - injection Hs as <-. now apply inv_queueDownload.
  - injection Hs as <-. unfold pauseDownload. auto with inv.
  - injection Hs as <-. unfold resumeDownload. auto with inv.
  - injection Hs as <-. unfold retryDownload. auto with inv.
  - injection Hs as <-. now apply inv_cancelDownload.
  - injection Hs as <-. now apply inv_pauseAll.
  - injection Hs as <-. now apply inv_resumeAll.
  - injection Hs as <-. now apply inv_freeUpSpace.
  - destruct (dt <? 0); [discriminate|]. injection Hs as <-. exact Hw.
  - destruct (takeNth k (inflight w)) as [[[i|i l c] rest]|]; try discriminate.
    pose proof (inv_startDownload_loaded i (with_inflight w rest)
                  (inv_with_inflight _ _ Hw)) as H.
    destruct (startDownload_loaded i (with_inflight w rest)) as [w1 [f|]];
      injection Hs as <-; simpl in H; auto with inv.
  - destruct (nth_error (inflight w) k) as [[i|i l c]|]; try discriminate.
    destruct (total >? 0); [|discriminate]. injection Hs as <-.
    unfold onProgress. auto with inv.
  - destruct (takeNth k (inflight w)) as [[[i|i l c] rest]|]; try discriminate.
    injection Hs as <-. unfold startDownload_fetched. auto 8 with inv.
  - destruct (takeNth k (inflight w)) as [[[i|i l c] rest]|]; try discriminate.
    destruct (existsb _ _); [|discriminate]. injection Hs as <-.
    unfold startDownload_aborted. auto with inv.
  - destruct (takeNth k (inflight w)) as [[[i|i l c] rest]|]; try discriminate.
    injection Hs as <-. unfold startDownload_failed. auto with inv.
  - destruct (takeNth k (inflight w)) as [[[i|i l c] rest]|]; try discriminate.
    injection Hs as <-.
    unfold startDownload_rejected, startDownload_caught, startDownload_aborted,
      startDownload_failed.
    destruct write, thrown; auto 7 with inv.
  - injection Hs as <-. exact Hw.
Qed.

Lemma run_keeps_one_task_per_lecture events :
  forall w w', run events w = Some w' -> oneTaskPerLecture w -> oneTaskPerLecture w'.
Proof.
  induction events as [|e events IH]; simpl; intros w w' Hr Hw.
  - now injection Hr as <-.
  - destruct (step e w) as [w1|] eqn:E; [|discriminate].
    eapply IH; [exact Hr|]. eapply step_keeps_one_task_per_lecture; eauto.
Qed.

(** *** The object stores stay in key order

    so that the stores of a manager started on a database in key order
    have pairwise different keys in every world it reaches. *)

Lemma dbOrdered_parts d :
  dbOrdered d = true <->
  keyOrdered id (lectures d) = true /\ keyOrdered ce_lectureId (audioCache d) = true
  /\ keyOrdered lectureId (downloads d) = true.
Proof. unfold dbOrdered. rewrite !andb_true_iff. tauto. Qed.

Lemma ord_same_db a b : db a = db b -> orderedStores b -> orderedStores a.
Proof. unfold orderedStores. now intros ->. Qed.

Lemma ord_processQueue w : orderedStores w -> orderedStores (processQueue w).
Proof. apply ord_same_db. apply processQueue_db. Qed.

Lemma ord_with_inflight w l : orderedStores w -> orderedStores (with_inflight w l).
Proof. now apply ord_same_db. Qed.

Lemma ord_with_controllers w c a n :
  orderedStores w -> orderedStores (with_controllers w c a n).
Proof. now apply ord_same_db. Qed.

Lemma ord_with_active w a : orderedStores w -> orderedStores (with_active w a).
Proof. now apply ord_same_db. Qed.

Lemma ord_with_isPaused w b : orderedStores w -> orderedStores (with_isPaused w b).
Proof. now apply ord_same_db. Qed.

Lemma ord_with_tasks w m : orderedStores w -> orderedStores (with_tasks w m).
Proof. now apply ord_same_db. Qed.

Lemma ord_with_store w st : orderedStores w -> orderedStores (with_store w st).
Proof. now apply ord_same_db. Qed.

Lemma ord_saveDownloadTask w t :
  orderedStores w -> orderedStores (with_db w (StorageManager.saveDownloadTask t (db w))).
Proof.
  unfold orderedStores. rewrite !dbOrdered_parts. simpl. intros (H1 & H2 & H3).
  repeat split; trivial. now apply idb_put_ordered.
Qed.

Lemma ord_deleteDownloadTask w i :
  orderedStores w -> orderedStores (with_db w (StorageManager.deleteDownloadTask i (db w))).
Proof.
  unfold orderedStores. rewrite !dbOrdered_parts. simpl. intros (H1 & H2 & H3).
  repeat split; trivial. now apply idb_delete_ordered.
Qed.

Lemma ord_deleteCachedAudio w i :
  orderedStores w -> orderedStores (with_db w (StorageManager.deleteCachedAudio i (db w))).
Proof.
  unfold orderedStores. rewrite !dbOrdered_parts. simpl. intros (H1 & H2 & H3).
  repeat split; trivial. now apply idb_delete_ordered.
Qed.

Lemma ord_cacheAudio w now i blob :
  orderedStores w -> orderedStores (with_db w (StorageManager.cacheAudio now i blob (db w))).
Proof.
  unfold orderedStores. rewrite !dbOrdered_parts. simpl. intros (H1 & H2 & H3).
  repeat split; trivial. now apply idb_put_ordered.
Qed.

Lemma ord_saveLecture w l :
  orderedStores w -> orderedStores (with_db w (StorageManager.saveLecture l (db w))).
Proof.
  unfold orderedStores. rewrite !dbOrdered_parts. simpl. intros (H1 & H2 & H3).
  repeat split; trivial. now apply idb_put_ordered.
Qed.

Lemma ord_evictToFreeSpace w n :
  orderedStores w ->
  orderedStores (with_db w (snd (StorageManager.evictToFreeSpace n (db w)))).
Proof.
  unfold orderedStores, StorageManager.evictToFreeSpace.
  destruct (StorageManager.evictLoop _ _ _ _) as [freed toDelete].
  rewrite !dbOrdered_parts. simpl. intros (H1 & H2 & H3). repeat split; trivial.
  revert H2. generalize (audioCache (db w)).
  induction toDelete as [|k ks IH]; simpl; trivial.
  intros c Hc. apply IH. now apply idb_delete_ordered.
Qed.

Lemma ord_updateTask i u w : orderedStores w -> orderedStores (updateTask i u w).
Proof.
  intros Hw. unfold updateTask. destruct (map_get i (tasks (store w))); trivial.
  exact (ord_saveDownloadTask (with_tasks w _) _ (ord_with_tasks _ _ Hw)).
Qed.

Lemma ord_fold {A} (f : World -> A -> World) (l : list A) :
  (forall w x, orderedStores w -> orderedStores (f w x)) ->
  forall w, orderedStores w -> orderedStores (fold_left f l w).
Proof. intros Hf. induction l as [|x l IH]; simpl; auto. Qed.

Create HintDb ord.
#[local] Hint Resolve ord_processQueue ord_with_inflight ord_with_controllers
  ord_with_active ord_with_isPaused ord_with_tasks ord_with_store ord_saveDownloadTask
  ord_deleteDownloadTask ord_deleteCachedAudio ord_cacheAudio ord_saveLecture
  ord_updateTask : ord.

Lemma ord_finallyRelease i w : orderedStores w -> orderedStores (finallyRelease i w).
Proof. unfold finallyRelease. auto with ord. Qed.

Lemma ord_abortController i w : orderedStores w -> orderedStores (abortController i w).
Proof. unfold abortController. destruct (map_get i _); auto with ord. Qed.
#[local] Hint Resolve ord_finallyRelease ord_abortController : ord.

Lemma ord_queueDownload lecture w :
  orderedStores w -> orderedStores (snd (queueDownload lecture w)).
Proof.
  intros Hw. unfold queueDownload.
  destruct (match map_get (id lecture) (tasks (store w)) with
            | Some task => _ | None => false end); trivial.
  destruct (negb _); trivial. simpl.
  apply ord_processQueue.
  exact (ord_saveDownloadTask (with_tasks w _) _ (ord_with_tasks _ _ Hw)).
Qed.

Lemma ord_cancelDownload i w : orderedStores w -> orderedStores (cancelDownload i w).
Proof.
  intros Hw. unfold cancelDownload.
  match goal with
  | |- orderedStores (match ?o with Some _ => with_db ?x _ | None => _ end) =>
      assert (Hx : orderedStores x); [|destruct o; auto with ord]
  end.
  auto 7 with ord.
Qed.

Lemma ord_freeUpSpace n w : orderedStores w -> orderedStores (snd (freeUpSpace n w)).
Proof.
  intros Hw. unfold freeUpSpace.
  destruct (_ >=? _); trivial.
  pose proof (ord_evictToFreeSpace w
                (n - available (StorageManager.getStorageStats (estimate w) (db w))
                 + STORAGE_BUFFER_MB * 1024 * 1024) Hw) as He.
  destruct (StorageManager.evictToFreeSpace _ _) as [freed d1]. simpl in *.
  apply ord_fold; trivial.
  intros w' x Hw'. destruct (_ && _); trivial.
  exact (ord_deleteDownloadTask (with_tasks w' _) _ (ord_with_tasks _ _ Hw')).
Qed.

Lemma ord_startDownload_loaded i w :
  orderedStores w -> orderedStores (fst (startDownload_loaded i w)).
Proof.
  intros Hw. unfold startDownload_loaded.
  destruct (StorageManager.getLecture i (db w)); simpl; auto with ord.
  destruct (matchDownloadUrl _) as [[identifier fileName]|]; simpl;
    [destruct (decodeURIComponent fileName); simpl|]; auto 7 with ord.
Qed.

Lemma step_keeps_stores_ordered e w w' :
  step e w = Some w' -> orderedStores w -> orderedStores w'.
Proof.
  intros Hs Hw. destruct e; simpl in Hs.
  - injection Hs as <-. exact Hw.
  - injection Hs as <-. now apply ord_queueDownload.
  - injection Hs as <-. unfold pauseDownload. auto with ord.
  - injection Hs as <-. unfold resumeDownload. auto with ord.
  - injection Hs as <-. unfold retryDownload. auto with ord.
  - injection Hs as <-. now apply ord_cancelDownload.
  - injection Hs as <-. unfold pauseAll. apply ord_fold; auto with ord.
  - injection Hs as <-. unfold resumeAll. apply ord_processQueue, ord_fold; auto with ord.
    intros w1 x Hw1. destruct (Status_eqb _ _); auto with ord.
  - injection Hs as <-. now apply ord_freeUpSpace.
  - destruct (dt <? 0); [discriminate|]. injection Hs as <-. exact Hw.
  - destruct (takeNth k (inflight w)) as [[[i|i l c] rest]|]; try discriminate.
    pose proof (ord_startDownload_loaded i (with_inflight w rest)
                  (ord_with_inflight _ _ Hw)) as H.
    destruct (startDownload_loaded i (with_inflight w rest)) as [w1 [f|]];
      injection Hs as <-; simpl in H; auto with ord.
  - destruct (nth_error (inflight w) k) as [[i|i l c]|]; try discriminate.
    destruct (total >? 0); [|discriminate]. injection Hs as <-.
    unfold onProgress. auto with ord.
  - destruct (takeNth k (inflight w)) as [[[i|i l c] rest]|]; try discriminate.
    injection Hs as <-. unfold startDownload_fetched.
    apply ord_finallyRelease, ord_updateTask.
    match goal with
    | |- orderedStores (with_db ?x (StorageManager.saveLecture _ _)) =>
        apply (ord_saveLecture x)
    end.
    match goal with
    | |- orderedStores (with_db ?x (StorageManager.cacheAudio _ _ _ _)) =>
        apply (ord_cacheAudio x)
    end.
    auto with ord.
  - destruct (takeNth k (inflight w)) as [[[i|i l c] rest]|]; try discriminate.
    destruct (existsb _ _); [|discriminate]. injection Hs as <-.
    unfold startDownload_aborted. auto with ord.
  - destruct (takeNth k (inflight w)) as [[[i|i l c] rest]|]; try discriminate.
    injection Hs as <-. unfold startDownload_failed. auto with ord.
  - destruct (takeNth k (inflight w)) as [[[i|i l c] rest]|]; try discriminate.
    injection Hs as <-.
    unfold startDownload_rejected, startDownload_caught, startDownload_aborted,
      startDownload_failed.
    destruct write, thrown; auto with ord;
      apply ord_finallyRelease, ord_updateTask;
      match goal with
      | |- orderedStores (with_db ?x (StorageManager.cacheAudio _ _ _ _)) =>
          apply (ord_cacheAudio x)
      end; auto with ord.
  - injection Hs as <-. exact Hw.
Qed.

(** A manager constructed on a database in key order keeps its stores in
    key order, so their keys stay pairwise different. *)
Lemma run_keeps_stores_ordered events :
  forall w w', run events w = Some w' -> orderedStores w ->
    orderedStores w' /\
    uniqueKeys ce_lectureId (audioCache (db w')) = true /\
    uniqueKeys lectureId (downloads (db w')) = true.
Proof.
  assert (H : forall w w', run events w = Some w' -> orderedStores w -> orderedStores w').
  { induction events as [|e events IH]; simpl; intros w w' Hr Hw.
    - now injection Hr as <-.
    - destruct (step e w) as [w1|] eqn:E; [|discriminate].
      eapply IH; [exact Hr|]. eapply step_keeps_stores_ordered; eauto. }
  intros w w' Hr Hw. pose proof (H w w' Hr Hw) as Ho. split; [exact Ho|].
  apply dbOrdered_parts in Ho as (_ & H2 & H3).
  split; now apply keyOrdered_unique.
Qed.

Lemma reachable_one_task_per_lecture w : reachable w -> oneTaskPerLecture w.
Proof.
  intros (d & est & now & events & Hr).
  eapply run_keeps_one_task_per_lecture; [exact Hr|].
  split; [constructor|intros ? ? []].
Qed.

(** *** Worlds used below *)

(** C2 (what the code does). Three tasks are [downloading] at once in a
    world the manager reaches: [processQueue] counts the active downloads
    in [activeDownloads], which [startDownload] fills only after its first
    [await], so a second call made before that sees the slots still
    free. *)
Theorem three_tasks_downloading_at_once :
  exists w,
    run resumeTwice (initialWorld interruptedDB plenty 10) = Some w /\
    reachable w /\
    map (fun kt => (fst kt, status (snd kt))) (tasks (store w))
    = [("a", downloading); ("b", downloading); ("c", downloading)] /\
    downloadingCount w = 3 /\
    set_size (activeDownloads (store w)) = 3 /\
    MAX_CONCURRENT_DOWNLOADS < downloadingCount w.
Proof.
  destruct (run resumeTwice (initialWorld interruptedDB plenty 10)) as [w|] eqn:E;
    [|vm_compute in E; discriminate].
  exists w. split; [reflexivity|].
  split; [exists interruptedDB, plenty, 10, resumeTwice; exact E|].
  vm_compute in E. injection E as <-. repeat split.
Qed.

(** The same from a manager that starts empty, with calls of
    [queueDownload], [pauseDownload] and [resumeDownload] only. *)
Lemma three_tasks_downloading_from_empty :
  exists w,
    run pauseThenResume threeLectures = Some w /\
    map (fun kt => (fst kt, status (snd kt))) (tasks (store w))
    = [("C", downloading); ("A", downloading); ("B", downloading)] /\
    downloadingCount w = 3.
Proof. eexists. split; [vm_compute; reflexivity|]. split; reflexivity. Qed.

(** C4 (what the code does). Two calls of [processQueue] in a row, with
    the store the same before, between and after them, start the same
    pending task twice: after the first call one [startDownload] works on
    lecture [b], after the second call two do, and both go on to fetch the
    file. The same happens through the callers of [processQueue], here two
    [resumeDownload] in a row. *)
Theorem processQueue_again_starts_the_task_again :
  exists w,
    run [EvLoad] (initialWorld oneInterruptedDB plenty 10) = Some w /\
    reachable w /\
    store (processQueue w) = store w /\
    store (processQueue (processQueue w)) = store w /\
    transfersFor "b" w = 0%nat /\
    transfersFor "b" (processQueue w) = 1%nat /\
    transfersFor "b" (processQueue (processQueue w)) = 2%nat /\
    processQueue (processQueue w) <> processQueue w /\
    (exists w2,
       run [EvLectureLoaded 0; EvLectureLoaded 0] (processQueue (processQueue w))
       = Some w2 /\
       fetchesFor "b" w2 = 2%nat) /\
    (exists w3,
       run [EvResume "b"; EvResume "b"; EvLectureLoaded 0; EvLectureLoaded 0] w
       = Some w3 /\
       fetchesFor "b" w3 = 2%nat).
Proof.
  eexists. split; [vm_compute; reflexivity|].
  split; [exists oneInterruptedDB, plenty, 10, [EvLoad]; vm_compute; reflexivity|].
  repeat split; try (vm_compute; reflexivity).
  - vm_compute. discriminate.
  - eexists. split; vm_compute; reflexivity.
  - eexists. split; vm_compute; reflexivity.
Qed.

(** The same through two completion callbacks: when the transfers of [X]
    and [Y] complete one right after the other, the [processQueue] of the
    second completion starts the pending [P] that the first one has
    already started. *)
Lemma two_completions_start_a_task_twice :
  exists w,
    run twoCompletions fourLectures = Some w /\
    inflight w = [AwaitLecture "P"; AwaitLecture "P"; AwaitLecture "Q"] /\
    transfersFor "P" w = 2%nat.
Proof. eexists. split; [vm_compute; reflexivity|]. split; reflexivity. Qed.

Lemma takeNth_nth_error {A} (k : nat) (l : list A) (x : A) (rest : list A) :
  takeNth k l = Some (x, rest) -> nth_error l k = Some x.
Proof.
  revert k x rest. induction l as [|y l IH]; intros [|k] x rest; simpl;
    try discriminate.
  - now intros [= -> _].
  - destruct (takeNth k l) as [[z r]|] eqn:E; [|discriminate].
    intros [= -> _]. eapply IH. exact E.
Qed.

Lemma fetchingWorld_reachable : reachable fetchingWorld.
Proof.
  exists (mkDB [lectureOf "X" 1000] [] []), plenty, 10,
    [EvQueue (lectureOf "X" 1000); EvLectureLoaded 0].
  vm_compute. reflexivity.
Qed.

Lemma abort_pauses_and_releases_slot_example :
  exists t,
    map_get "A" (tasks (store abortingWorld)) = Some t /\
    status t = paused /\
    option_map status
      (map_get "A" (tasks (store (startDownload_aborted "A" abortingWorld))))
    = Some paused /\
    tasksToStart (startDownload_aborted "A" abortingWorld) <> [].
Proof.
  eexists. split; [vm_compute; reflexivity|]. split; [reflexivity|].
  pose proof (abort_pauses_and_releases_slot "A" abortingWorld _ eq_refl) as H.
  cbv zeta in H. destruct H as (H1 & _ & _ & _ & _ & _ & H7).
  split.
  - rewrite H1. reflexivity.
  - apply H7; [reflexivity|vm_compute; reflexivity|].
    exists "C". eexists. split; [discriminate|]. split; vm_compute; reflexivity.
Defined.

(** After the pause of [A] the abort is observed: the task of [A] is
    [paused] and carries an error. *)
Lemma abort_records_an_error :
  exists w t,
    run (pausedWhileFetching ++ [EvAborted 0]) threeLectures = Some w /\
    map_get "A" (tasks (store w)) = Some t /\
    status t = paused /\
    error t = Some "Download cancelled" /\
    error t <> None.
Proof.
  do 2 eexists. split; [vm_compute; reflexivity|]. split; [vm_compute; reflexivity|].
  repeat split. discriminate.
Qed.

End QueueFacts.

(* ================================================================== *)
(** ** More about the queue manager *)

Module MoreManagerFacts.
Import DownloadManager ManagerFacts QueueFacts.

Lemma idb_get_delete_same {V} (keyOf : V -> string) (k : string) (s : list V) :
  idb_get keyOf k (idb_delete keyOf k s) = None.
Proof.
  unfold idb_delete. induction s as [|v s IH]; simpl; trivial.
  destruct (keyOf v =? k)%string eqn:E; simpl; trivial. now rewrite E.
Qed.

Lemma idb_get_delete_other {V} (keyOf : V -> string) (j k : string) (s : list V) :
  j <> k -> idb_get keyOf j (idb_delete keyOf k s) = idb_get keyOf j s.
Proof.
  intros Hjk. unfold idb_delete. induction s as [|v s IH]; simpl; trivial.
  destruct (String.eqb_spec (keyOf v) k) as [E|E]; simpl.
  - rewrite IH. destruct (String.eqb_spec (keyOf v) j); congruence.
  - now rewrite IH.
Qed.

Lemma map_get_delete_other {V} (j k : string) (m : list (string * V)) :
  j <> k -> map_get j (map_delete k m) = map_get j m.
Proof.
  intros Hjk. unfold map_delete. induction m as [|[k' v] m IH]; simpl; trivial.
  destruct (String.eqb_spec k' k) as [E|E]; simpl.
  - rewrite IH. destruct (String.eqb_spec k' j); congruence.
  - now rewrite IH.
Qed.

Lemma takeNth_length {A} (k : nat) (l : list A) (x : A) (rest : list A) :
  takeNth k l = Some (x, rest) -> List.length l = S (List.length rest).
Proof.
  revert k x rest. induction l as [|y l IH]; intros [|k] x rest; simpl; try discriminate.
  - now intros [= _ <-].
  - destruct (takeNth k l) as [[z r]|] eqn:E; [|discriminate].
    intros [= _ <-]. simpl. f_equal. eapply IH. exact E.
Qed.

(** X1. One call of [processQueue] touches neither the store nor the
    database; it starts transfers for tasks of the map that are [pending],
    at most as many as there are free slots, and none at all while the
    queue is paused or when no slot is free. *)
Theorem processQueue_starts_pending_within_slots (w : World) :
  store (processQueue w) = store w /\
  db (processQueue w) = db w /\
  (exists started,
     inflight (processQueue w)
     = (inflight w ++ map (fun t => AwaitLecture (lectureId t)) started)%list /\
     Forall (fun t => status t = pending /\ In t (map_values (tasks (store w)))) started /\
     Z.of_nat (List.length started)
     <= Z.max 0 (MAX_CONCURRENT_DOWNLOADS - set_size (activeDownloads (store w)))) /\
  (isPaused (store w) = true -> processQueue w = w) /\
  (MAX_CONCURRENT_DOWNLOADS <= set_size (activeDownloads (store w)) -> processQueue w = w).
Proof.
  split; [apply processQueue_store|]. split; [apply processQueue_db|]. split.
  - exists (tasksToStart w). split; [now rewrite processQueue_starts|]. split.
    + unfold tasksToStart. destruct (isPaused (store w)); [constructor|].
      destruct (_ || _); [constructor|].
      apply Forall_forall. intros x Hx.
      match type of Hx with In _ (firstn ?n ?l) =>
        assert (Hin : In x l)
          by (rewrite <- (firstn_skipn n l); apply in_or_app; now left)
      end.
      apply filter_In in Hin as [Hin Hs]. split; trivial.
      now destruct (Status_eqb_spec (status x) pending).
    + pose proof (processQueue_within_slots w) as H.
      rewrite processQueue_starts in H. unfold with_inflight in H. cbn [inflight] in H.
      rewrite length_app, length_map in H. lia.
  - split.
    + intros Hp. unfold processQueue. now rewrite Hp.
    + intros Hfull. unfold processQueue. destruct (isPaused (store w)); trivial.
      replace (MAX_CONCURRENT_DOWNLOADS - set_size (activeDownloads (store w)) <=? 0)
        with true; trivial.
      symmetry. apply Z.leb_le. lia.
Qed.

(** X2. Pausing, resuming or retrying a lecture that has no task creates
    none: pausing leaves the task map and the database as they were, and
    resuming or retrying does no more than the [processQueue] call they
    end with. *)
Theorem control_of_unknown_lecture_creates_no_task (i : string) (w : World) :
  map_get i (tasks (store w)) = None ->
  store (pauseDownload i w) = store w /\
  db (pauseDownload i w) = db w /\
  inflight (pauseDownload i w) = inflight w /\
  resumeDownload i w = processQueue w /\
  retryDownload i w = processQueue w.
Proof.
  intros Hnone.
  assert (Hu : forall u, updateTask i u w = w)
    by (intros u; unfold updateTask; now rewrite Hnone).
  unfold resumeDownload, retryDownload. rewrite !Hu.
  repeat split; trivial; unfold pauseDownload, abortController, updateTask;
    destruct (map_get i (abortControllers w)); simpl; now rewrite Hnone.
Qed.

Lemma control_of_unknown_lecture_example :
  map_get "nobody" (tasks (store completedTaskWorld)) = None /\
  retryDownload "nobody" completedTaskWorld = processQueue completedTaskWorld.
Proof.
  split; [reflexivity|].
  exact (proj2 (proj2 (proj2 (proj2
           (control_of_unknown_lecture_creates_no_task "nobody" completedTaskWorld
              eq_refl))))).
Defined.

(** X3. [cancelDownload] removes the lecture's task from the map and from
    the persistent store, its blob from the audio cache and its entry from
    the active downloads, marks the stored lecture as not downloaded, and
    leaves the tasks, persisted tasks and blobs of every other lecture and
    the suspended invocations as they were. When the cancelled transfer
    then ends, by abort or by failure, no task comes back. *)
Theorem cancelDownload_removes_the_lecture (i : string) (w : World) :
  map_get i (tasks (store (cancelDownload i w))) = None /\
  set_has i (activeDownloads (store (cancelDownload i w))) = false /\
  idb_get lectureId i (downloads (db (cancelDownload i w))) = None /\
  StorageManager.isAudioCached i (db (cancelDownload i w)) = false /\
  (forall j, j <> i ->
     map_get j (tasks (store (cancelDownload i w))) = map_get j (tasks (store w)) /\
     idb_get lectureId j (downloads (db (cancelDownload i w)))
     = idb_get lectureId j (downloads (db w)) /\
     idb_get ce_lectureId j (audioCache (db (cancelDownload i w)))
     = idb_get ce_lectureId j (audioCache (db w))) /\
  inflight (cancelDownload i w) = inflight w /\
  (forall l, StorageManager.getLecture i (db w) = Some l ->
     StorageManager.getLecture i (db (cancelDownload i w))
     = Some {| id := id l; fileUrl := fileUrl l; fileSize := fileSize l;
               downloadedAt := None; isDownloaded := Some false |}) /\
  map_get i (tasks (store (startDownload_aborted i (cancelDownload i w)))) = None /\
  (forall message,
     map_get i (tasks (store (startDownload_failed i message (cancelDownload i w)))) = None).
Proof.
  assert (Hshape :
    tasks (store (cancelDownload i w)) = map_delete i (tasks (store w)) /\
    activeDownloads (store (cancelDownload i w)) = set_delete i (activeDownloads (store w)) /\
    downloads (db (cancelDownload i w)) = idb_delete lectureId i (downloads (db w)) /\
    audioCache (db (cancelDownload i w)) = idb_delete ce_lectureId i (audioCache (db w)) /\
    inflight (cancelDownload i w) = inflight w /\
    lectures (db (cancelDownload i w))
    = match StorageManager.getLecture i (db w) with
      | Some l => idb_put id {| id := id l; fileUrl := fileUrl l; fileSize := fileSize l;
                                downloadedAt := None; isDownloaded := Some false |}
                          (lectures (db w))
      | None => lectures (db w)
      end).
  { unfold cancelDownload, abortController, StorageManager.getLecture.
    destruct (map_get i (abortControllers w)); simpl;
      destruct (idb_get id i (lectures (db w))); simpl;
      (split; [reflexivity|]); (split; [reflexivity|]); (split; [reflexivity|]);
      (split; [reflexivity|]); split; reflexivity. }
  destruct Hshape as (Ht & Ha & Hd & Hc & Hi & Hl).
  assert (Hgone : map_get i (tasks (store (cancelDownload i w))) = None)
    by (rewrite Ht; apply map_get_delete).
  assert (Hends : forall u,
    map_get i (tasks (store (finallyRelease i (updateTask i u (cancelDownload i w))))) = None).
  { intros u. unfold finallyRelease. rewrite processQueue_store. simpl.
    unfold updateTask. now rewrite Hgone. }
  split; [exact Hgone|].
  split; [rewrite Ha; apply set_has_delete|].
  split; [rewrite Hd; apply idb_get_delete_same|].
  split.
  { unfold StorageManager.isAudioCached. rewrite Hc.
    now rewrite idb_get_delete_same. }
  split.
  { intros j Hj. rewrite Ht, Hd, Hc.
    rewrite map_get_delete_other, !idb_get_delete_other by exact Hj. auto. }
  split; [exact Hi|]. split.
  { intros l Hget. unfold StorageManager.getLecture in *. rewrite Hl, Hget.
    destruct (idb_get_key id i _ l Hget) as [Hid _].
    rewrite <- Hid at 1.
    exact (idb_get_put_same id
             {| id := id l; fileUrl := fileUrl l; fileSize := fileSize l;
                downloadedAt := None; isDownloaded := Some false |} (lectures (db w))). }
  split; [apply Hends|]. intros message. apply Hends.
Qed.

(** X4. [pauseDownload] sets the lecture's task to [paused] and keeps its
    other fields; it signals the abort on the controller registered for the
    lecture, so that the abort of the transfer holding that controller can be
    observed afterwards; the active downloads and the suspended invocations
    are as before: the slot is not free until the abort is observed. *)
Theorem pauseDownload_signals_and_keeps_slot (i : string) (w : World) (t : DownloadTask) :
  map_get i (tasks (store w)) = Some t ->
  map_get i (tasks (store (pauseDownload i w)))
  = Some {| lectureId := lectureId t; status := paused; progress := progress t;
            bytesDownloaded := bytesDownloaded t; totalBytes := totalBytes t;
            startedAt := startedAt t; completedAt := completedAt t;
            error := error t |} /\
  activeDownloads (store (pauseDownload i w)) = activeDownloads (store w) /\
  inflight (pauseDownload i w) = inflight w /\
  (forall c, map_get i (abortControllers w) = Some c ->
     In c (abortedSignals (pauseDownload i w)) /\
     forall k lecture rest,
       takeNth k (inflight w) = Some (AwaitFetch i lecture c, rest) ->
       exists w', step (EvAborted k) (pauseDownload i w) = Some w').
Proof.
  intros Ht. unfold pauseDownload.
  destruct (updateTask_frame i (statusOnly paused) (abortController i w))
    as (Ha & _ & _ & _ & Hi & _ & Hs).
  assert (Hab : tasks (store (abortController i w)) = tasks (store w) /\
                activeDownloads (store (abortController i w)) = activeDownloads (store w) /\
                inflight (abortController i w) = inflight w)
    by (unfold abortController; destruct (map_get i (abortControllers w)); simpl; auto).
  destruct Hab as (Hab1 & Hab2 & Hab3).
  split.
  { rewrite (updateTask_get i _ (abortController i w) t); [reflexivity|].
    now rewrite Hab1. }
  split; [now rewrite Ha|]. split; [now rewrite Hi|].
  intros c Hc.
  assert (Hin : In c (abortedSignals (updateTask i (statusOnly paused) (abortController i w)))).
  { rewrite Hs. unfold abortController. rewrite Hc. simpl. now left. }
  split; [exact Hin|].
  intros k lecture rest Hk. simpl. rewrite Hi, Hab3, Hk.
  replace (existsb (Nat.eqb c) _) with true; [eexists; reflexivity|].
  symmetry. apply existsb_exists. exists c. split; [exact Hin|apply Nat.eqb_refl].
Qed.

Lemma pauseDownload_signals_and_keeps_slot_example :
  (exists t, map_get "B" (tasks (store abortingWorld)) = Some t) /\
  activeDownloads (store (pauseDownload "B" abortingWorld))
  = activeDownloads (store abortingWorld).
Proof.
  split; [eexists; vm_compute; reflexivity|].
  exact (proj1 (proj2 (pauseDownload_signals_and_keeps_slot "B" abortingWorld _ eq_refl))).
Defined.

(** What the [catch] and [finally] blocks of [startDownload] leave behind,
    for either branch of the [catch]: the task updated, no blob stored, the
    slot and the controller released, and [processQueue] run on the
    result. *)
Lemma caught_and_released (i : string) (u : TaskUpdates) (w : World) (t : DownloadTask) :
  map_get i (tasks (store w)) = Some t ->
  map_get i (tasks (store (finallyRelease i (updateTask i u w)))) = Some (spread t u) /\
  audioCache (db (finallyRelease i (updateTask i u w))) = audioCache (db w) /\
  set_has i (activeDownloads (store (finallyRelease i (updateTask i u w)))) = false /\
  map_get i (abortControllers (finallyRelease i (updateTask i u w))) = None /\
  (exists started,
     inflight (finallyRelease i (updateTask i u w))
     = (inflight w ++ map (fun x => AwaitLecture (lectureId x)) started)%list /\
     Forall (fun x => status x = pending) started /\
     (isPaused (store w) = false ->
      set_size (set_delete i (activeDownloads (store w))) < MAX_CONCURRENT_DOWNLOADS ->
      (exists j tj, j <> i /\ map_get j (tasks (store w)) = Some tj /\ status tj = pending) ->
      started <> [])).
Proof.
  intros Ht. unfold finallyRelease.
  destruct (updateTask_frame i u w) as (Ha & Hp & Hc & Hl & Hi & Hab & Hsig).
  set (released := with_active _ _).
  assert (Hst : store (processQueue released) = store released)
    by apply processQueue_store.
  assert (Htasks : tasks (store released) = tasks (store (updateTask i u w)))
    by reflexivity.
  assert (Hact : activeDownloads (store released)
                 = set_delete i (activeDownloads (store w)))
    by (subst released; simpl; now rewrite Ha).
  split; [|split; [|split; [|split]]].
  - rewrite Hst, Htasks. now apply updateTask_get.
  - rewrite processQueue_db. subst released. simpl. exact Hc.
  - rewrite Hst, Hact. apply set_has_delete.
  - rewrite processQueue_starts. subst released. simpl. apply map_get_delete.
  - exists (tasksToStart released). split; [|split].
    + rewrite processQueue_starts. subst released. simpl. now rewrite Hi.
    + apply tasksToStart_pending.
    + intros Hnp Hslot (j & tj & Hj & Hget & Hpend).
      apply (tasksToStart_nonempty released j tj); trivial.
      * subst released. simpl. now rewrite Hp.
      * now rewrite Hact.
      * rewrite Htasks. now rewrite updateTask_get_other.
Qed.

(** X5. When the lecture of a started task is not in the lecture store,
    the task becomes [failed] with the error ['Lecture not found']; the
    invocation ends there: the lecture never enters the active downloads,
    no abort controller is registered, nothing is cached and no other
    transfer is started. *)
Theorem missing_lecture_fails_before_the_slot
    (k : nat) (i : string) (rest : list Suspended) (w : World) (t : DownloadTask) :
  takeNth k (inflight w) = Some (AwaitLecture i, rest) ->
  StorageManager.getLecture i (db w) = None ->
  map_get i (tasks (store w)) = Some t ->
  exists w',
    step (EvLectureLoaded k) w = Some w' /\
    map_get i (tasks (store w'))
    = Some {| lectureId := lectureId t; status := failed; progress := progress t;
              bytesDownloaded := bytesDownloaded t; totalBytes := totalBytes t;
              startedAt := startedAt t; completedAt := completedAt t;
              error := Some "Lecture not found" |} /\
    activeDownloads (store w') = activeDownloads (store w) /\
    abortControllers w' = abortControllers w /\
    audioCache (db w') = audioCache (db w) /\
    inflight w' = rest.
Proof.
  intros Hk Hl Ht. eexists. simpl. rewrite Hk. unfold startDownload_loaded.
  change (db (with_inflight w rest)) with (db w). rewrite Hl.
  split; [reflexivity|].
  match goal with
  | |- context [updateTask i ?u ?x] =>
      destruct (updateTask_frame i u x) as (Ha & _ & Hc & _ & Hi & Hab & _);
      pose proof (updateTask_get i u x t Ht) as Hg
  end.
  rewrite Hg, Ha, Hab, Hc, Hi. repeat split.
Qed.

(** A manager whose lecture store lacks the lecture of its only pending
    task. *)
Lemma missing_lecture_example :
  exists w,
    run [EvQueue (lectureOf "ghost" 100)] (initialWorld (mkDB [] [] []) plenty 10) = Some w /\
    exists w',
      step (EvLectureLoaded 0) w = Some w' /\
      option_map status (map_get "ghost" (tasks (store w'))) = Some failed /\
      activeDownloads (store w') = [] /\
      inflight w' = [].
Proof.
  eexists. split; [vm_compute; reflexivity|].
  destruct (missing_lecture_fails_before_the_slot 0 "ghost" []
              (snd (queueDownload (lectureOf "ghost" 100)
                      (initialWorld (mkDB [] [] []) plenty 10)))
              (freshTask (lectureOf "ghost" 100)) eq_refl eq_refl eq_refl)
    as (w' & Hs & Ht & Ha & _ & _ & Hi).
  exists w'. split; [exact Hs|]. split; [now rewrite Ht|]. split; assumption.
Defined.

(** X6. When the file URL of the lecture does not have the shape
    [.../download/<identifier>/<file>], the task is first marked
    [downloading] and then becomes [failed] with the error
    ['Invalid file URL']; no fetch is issued, nothing is cached, the slot
    and the controller are released and [processQueue] runs. *)
Theorem invalid_url_fails_and_releases
    (k : nat) (i : string) (rest : list Suspended) (w : World) (t : DownloadTask)
    (lecture : Lecture) :
  takeNth k (inflight w) = Some (AwaitLecture i, rest) ->
  StorageManager.getLecture i (db w) = Some lecture ->
  matchDownloadUrl (fileUrl lecture) = None ->
  map_get i (tasks (store w)) = Some t ->
  exists w',
    step (EvLectureLoaded k) w = Some w' /\
    map_get i (tasks (store w'))
    = Some {| lectureId := lectureId t; status := failed; progress := progress t;
              bytesDownloaded := bytesDownloaded t; totalBytes := totalBytes t;
              startedAt := Some (clock w); completedAt := completedAt t;
              error := Some "Invalid file URL" |} /\
    set_has i (activeDownloads (store w')) = false /\
    map_get i (abortControllers w') = None /\
    audioCache (db w') = audioCache (db w) /\
    (exists started,
       inflight w' = (rest ++ map (fun x => AwaitLecture (lectureId x)) started)%list /\
       Forall (fun x => status x = pending) started).
Proof.
  intros Hk Hl Hm Ht. eexists. simpl. rewrite Hk. unfold startDownload_loaded.
  change (db (with_inflight w rest)) with (db w). rewrite Hl, Hm.
  split; [reflexivity|].
  match goal with
  | |- context [finallyRelease i (updateTask i ?u2 (with_active (updateTask i ?u1 ?x) ?a))] =>
      pose proof (updateTask_get i u1 x t Ht) as Hg1;
      destruct (updateTask_frame i u1 x) as (_ & _ & Hc1 & _ & Hi1 & _ & _);
      destruct (caught_and_released i u2 (with_active (updateTask i u1 x) a) _ Hg1)
        as (H1 & H2 & H3 & H4 & started & H5 & H6 & _)
  end.
  split; [rewrite H1; reflexivity|].
  split; [exact H3|]. split; [exact H4|].
  split; [rewrite H2; exact Hc1|].
  exists started. split; [|exact H6].
  rewrite H5. f_equal. exact Hi1.
Qed.

Lemma invalid_url_example :
  exists w w',
    run [EvQueue (mkLecture "bad" "https://archive.org/details/bad" 100 None None)]
        (initialWorld (mkDB [mkLecture "bad" "https://archive.org/details/bad" 100 None None]
                            [] []) plenty 10) = Some w /\
    step (EvLectureLoaded 0) w = Some w' /\
    option_map error (map_get "bad" (tasks (store w'))) = Some (Some "Invalid file URL") /\
    set_has "bad" (activeDownloads (store w')) = false.
Proof.
  eexists. 
  destruct (invalid_url_fails_and_releases 0 "bad" []
              (snd (queueDownload (mkLecture "bad" "https://archive.org/details/bad" 100 None None)
                      (initialWorld
                         (mkDB [mkLecture "bad" "https://archive.org/details/bad" 100 None None]
                               [] []) plenty 10)))
              (freshTask (mkLecture "bad" "https://archive.org/details/bad" 100 None None))
              (mkLecture "bad" "https://archive.org/details/bad" 100 None None)
              eq_refl eq_refl eq_refl eq_refl)
    as (w' & Hs & Ht & Ha & _).
  exists w'. split; [vm_compute; reflexivity|]. split; [exact Hs|].
  split; [now rewrite Ht|exact Ha].
Defined.

(** X7. When a transfer fails for another reason than an abort, its task
    becomes [failed] and keeps the message of the error, its other fields
    unchanged; no blob is stored; the slot and the controller are released;
    [processQueue] runs and starts a pending task when the queue is not
    paused, a slot is free and another task is pending: a failed download
    does not block the queue. *)
Theorem failure_is_recorded_and_releases_slot
    (i message : string) (w : World) (t : DownloadTask) :
  map_get i (tasks (store w)) = Some t ->
  map_get i (tasks (store (startDownload_failed i message w)))
  = Some {| lectureId := lectureId t; status := failed; progress := progress t;
            bytesDownloaded := bytesDownloaded t; totalBytes := totalBytes t;
            startedAt := startedAt t; completedAt := completedAt t;
            error := Some message |} /\
  audioCache (db (startDownload_failed i message w)) = audioCache (db w) /\
  set_has i (activeDownloads (store (startDownload_failed i message w))) = false /\
  map_get i (abortControllers (startDownload_failed i message w)) = None /\
  (exists started,
     inflight (startDownload_failed i message w)
     = (inflight w ++ map (fun x => AwaitLecture (lectureId x)) started)%list /\
     Forall (fun x => status x = pending) started /\
     (isPaused (store w) = false ->
      set_size (set_delete i (activeDownloads (store w))) < MAX_CONCURRENT_DOWNLOADS ->
      (exists j tj, j <> i /\ map_get j (tasks (store w)) = Some tj /\ status tj = pending) ->
      started <> [])).
Proof.
  intros Ht. unfold startDownload_failed.
  match goal with
  | |- context [updateTask i ?u w] => exact (caught_and_released i u w t Ht)
  end.
Qed.

Lemma failure_example :
  (exists t, map_get "A" (tasks (store abortingWorld)) = Some t) /\
  option_map error
    (map_get "A" (tasks (store (startDownload_failed "A" "Failed to fetch" abortingWorld))))
  = Some (Some "Failed to fetch") /\
  set_has "A" (activeDownloads (store (startDownload_failed "A" "Failed to fetch"
                                         abortingWorld))) = false.
Proof.
  split; [eexists; vm_compute; reflexivity|].
  destruct (failure_is_recorded_and_releases_slot "A" "Failed to fetch" abortingWorld _ eq_refl)
    as (H1 & _ & H3 & _).
  split; [now rewrite H1|exact H3].
Defined.

(** X8. Without a storage estimate from the browser the available space
    counts as zero: the head-room check fails for every size above minus
    50 MiB, so every enqueue of a lecture that has no [completed] or
    [downloading] task is refused and leaves the world unchanged. *)
Theorem no_estimate_refuses_every_enqueue (lecture : Lecture) (w : World) :
  estimate w = None ->
  - (50 * 1024 * 1024) <= fileSize lecture ->
  (forall t, map_get (id lecture) (tasks (store w)) = Some t ->
             status t <> completed /\ status t <> downloading) ->
  checkStorageAvailability (fileSize lecture) w = false /\
  queueDownload lecture w = (inr InsufficientStorage, w).
Proof.
  intros He Hs Hno.
  assert (Hc : checkStorageAvailability (fileSize lecture) w = false).
  { unfold checkStorageAvailability, StorageManager.getStorageStats, STORAGE_BUFFER_MB.
    rewrite He. simpl. rewrite Z.gtb_ltb. apply Z.ltb_ge. lia. }
  split; [exact Hc|]. apply queueDownload_rejected; trivial.
  destruct (map_get (id lecture) (tasks (store w))) as [t|]; trivial.
  destruct (Hno t eq_refl). destruct (status t); simpl; congruence.
Qed.

Lemma no_estimate_example :
  estimate (initialWorld (mkDB [lectureOf "X" 100] [] []) None 0) = None /\
  queueDownload (lectureOf "X" 100) (initialWorld (mkDB [lectureOf "X" 100] [] []) None 0)
  = (inr InsufficientStorage, initialWorld (mkDB [lectureOf "X" 100] [] []) None 0).
Proof.
  split; [reflexivity|].
  refine (proj2 (no_estimate_refuses_every_enqueue (lectureOf "X" 100)
                   (initialWorld (mkDB [lectureOf "X" 100] [] []) None 0) eq_refl _ _)).
  - vm_compute. discriminate.
  - intros t Ht. discriminate Ht.
Defined.

(** X9. [freeUpSpace] and the head-room check of [queueDownload] use
    different thresholds: when the available space is at least the required
    size but not more than the size plus the 50 MiB buffer, [freeUpSpace]
    reports success without evicting or changing anything, while the
    head-room check for the same size fails. *)
Theorem freeUpSpace_succeeds_where_the_check_fails (requiredBytes : Z) (w : World) :
  let stats := StorageManager.getStorageStats (estimate w) (db w) in
  requiredBytes <= available stats ->
  available stats <= requiredBytes + 50 * 1024 * 1024 ->
  freeUpSpace requiredBytes w = (true, w) /\
  checkStorageAvailability requiredBytes w = false.
Proof.
  intros stats Hlo Hhi. split.
  - unfold freeUpSpace. fold stats.
    replace (available stats >=? requiredBytes) with true; trivial.
    symmetry. rewrite Z.geb_leb. now apply Z.leb_le.
  - unfold checkStorageAvailability, STORAGE_BUFFER_MB. fold stats.
    rewrite Z.gtb_ltb. apply Z.ltb_ge. lia.
Qed.

Lemma freeUpSpace_threshold_example :
  5 * MB <= available (StorageManager.getStorageStats (estimate tightWorld) (db tightWorld)) /\
  freeUpSpace (5 * MB) tightWorld = (true, tightWorld) /\
  checkStorageAvailability (5 * MB) tightWorld = false.
Proof.
  split; [vm_compute; discriminate|].
  apply (freeUpSpace_succeeds_where_the_check_fails (5 * MB) tightWorld);
    vm_compute; discriminate.
Defined.

(** *** The bulk operations *)

Lemma updateTask_lookup (i j : string) (u : TaskUpdates) (w : World) :
  map_get j (tasks (store (updateTask i u w)))
  = if (i =? j)%string
    then option_map (fun t => spread t u) (map_get j (tasks (store w)))
    else map_get j (tasks (store w)).
Proof.
  destruct (String.eqb_spec i j) as [->|Hij].
  - destruct (map_get j (tasks (store w))) as [t|] eqn:E.
    + now rewrite (updateTask_get _ _ _ _ E).
    + unfold updateTask. now rewrite E, E.
  - apply updateTask_get_other. congruence.
Qed.

Lemma map_has_existsb {V} (j : string) (m : list (string * V)) :
  map_has j m = existsb (fun kv => (fst kv =? j)%string) m.
Proof.
  unfold map_has. induction m as [|[k v] m IH]; simpl; trivial.
  destruct (k =? j)%string; simpl; trivial.
Qed.

Lemma pauseAll_fold (l : list (string * nat)) :
  forall w,
    let w' := fold_left pauseOne l w in
    isPaused (store w') = isPaused (store w) /\
    activeDownloads (store w') = activeDownloads (store w) /\
    inflight w' = inflight w /\
    (forall c, In c (abortedSignals w') <-> In c (map snd l) \/ In c (abortedSignals w)) /\
    (forall j, map_get j (tasks (store w'))
               = if existsb (fun kc => (fst kc =? j)%string) l
                 then option_map (fun t => spread t (statusOnly paused))
                                 (map_get j (tasks (store w)))
                 else map_get j (tasks (store w))).
Proof.
  induction l as [|[k c] l IH]; intros w; simpl.
  - split; [reflexivity|]. split; [reflexivity|]. split; [reflexivity|].
    split; [intros c; tauto|reflexivity].
  - destruct (IH (pauseOne w (k, c))) as (H1 & H2 & H3 & H4 & H5).
    unfold pauseOne in *. simpl in *.
    match goal with
    | |- context [updateTask k ?u ?x] =>
        destruct (updateTask_frame k u x) as (Ha & Hp & _ & _ & Hi & _ & Hs)
    end.
    simpl in Ha, Hp, Hi, Hs.
    split; [now rewrite H1, Hp|]. split; [now rewrite H2, Ha|].
    split; [now rewrite H3, Hi|]. split.
    + intros c'. rewrite H4, Hs. simpl. tauto.
    + intros j. rewrite H5, updateTask_lookup. simpl.
      destruct (k =? j)%string; simpl; trivial.
      destruct (existsb _ l); trivial.
      now destruct (map_get j (tasks (store w))).
Qed.

Lemma paused_processQueue (w : World) : isPaused (store w) = true -> processQueue w = w.
Proof. intros H. unfold processQueue. now rewrite H. Qed.

(** X10. [pauseAll] closes the queue: afterwards [isPaused] is set, the
    abort is signalled on every registered controller, every task that has a
    controller is [paused] (its other fields unchanged) and the other tasks
    are as before; the active downloads and the suspended invocations are
    untouched. While the queue is paused [processQueue] starts nothing, so
    an enqueue made then only records its task. *)
Theorem pauseAll_closes_the_queue (w : World) :
  isPaused (store (pauseAll w)) = true /\
  (forall i c, In (i, c) (abortControllers w) -> In c (abortedSignals (pauseAll w))) /\
  (forall j, map_get j (tasks (store (pauseAll w)))
             = if map_has j (abortControllers w)
               then option_map (fun t => spread t (statusOnly paused))
                               (map_get j (tasks (store w)))
               else map_get j (tasks (store w))) /\
  activeDownloads (store (pauseAll w)) = activeDownloads (store w) /\
  inflight (pauseAll w) = inflight w /\
  processQueue (pauseAll w) = pauseAll w /\
  (forall lecture,
     inflight (snd (queueDownload lecture (pauseAll w))) = inflight w /\
     isPaused (store (snd (queueDownload lecture (pauseAll w)))) = true).
Proof.
  destruct (pauseAll_fold (abortControllers w) (with_isPaused w true))
    as (H1 & H2 & H3 & H4 & H5).
  change (fold_left pauseOne (abortControllers w) (with_isPaused w true))
    with (pauseAll w) in *.
  simpl in H1, H2, H3, H4, H5.
  split; [exact H1|]. split.
  { intros i c Hin. apply H4. left. change c with (snd (i, c)). now apply in_map. }
  split; [intros j; rewrite H5, map_has_existsb; reflexivity|].
  split; [exact H2|]. split; [exact H3|].
  split; [now apply paused_processQueue|].
  intros lecture. unfold queueDownload.
  destruct (match map_get (id lecture) (tasks (store (pauseAll w))) with
            | Some task => _ | None => false end); [auto|].
  destruct (negb _); [auto|]. simpl.
  rewrite paused_processQueue by exact H1. simpl. auto.
Qed.

Lemma map_get_NoDup {V} (k : string) (v : V) (m : list (string * V)) :
  NoDup (map_keys m) -> In (k, v) m -> map_get k m = Some v.
Proof.
  induction m as [|[k' v'] m IH]; simpl; [tauto|].
  intros Hnd [[= -> ->]|Hin].
  - now rewrite String.eqb_refl.
  - inversion Hnd as [|? ? Hk Hnd']; subst.
    destruct (String.eqb_spec k' k) as [->|E]; [|auto].
    exfalso. apply Hk. change k with (fst (k, v)). now apply in_map.
Qed.

Lemma resumeAll_fold (l : list (string * DownloadTask)) :
  forall w,
    NoDup (map_keys l) ->
    (forall k t, In (k, t) l -> map_get k (tasks (store w)) = Some t) ->
    let w' := fold_left resumeOne l w in
    isPaused (store w') = isPaused (store w) /\
    activeDownloads (store w') = activeDownloads (store w) /\
    inflight w' = inflight w /\
    audioCache (db w') = audioCache (db w) /\
    (forall j, map_get j (tasks (store w'))
               = match map_get j l with
                 | Some t => Some (if Status_eqb (status t) paused
                                   then spread t (statusOnly pending) else t)
                 | None => map_get j (tasks (store w))
                 end).
Proof.
  induction l as [|[k t] l IH]; intros w Hnd Hl; simpl.
  - repeat split.
  - inversion Hnd as [|? ? Hk Hnd']; subst.
    assert (Hstep : isPaused (store (resumeOne w (k, t))) = isPaused (store w) /\
                    activeDownloads (store (resumeOne w (k, t))) = activeDownloads (store w) /\
                    inflight (resumeOne w (k, t)) = inflight w /\
                    audioCache (db (resumeOne w (k, t))) = audioCache (db w) /\
                    forall j, map_get j (tasks (store (resumeOne w (k, t))))
                              = if (k =? j)%string
                                then Some (if Status_eqb (status t) paused
                                           then spread t (statusOnly pending) else t)
                                else map_get j (tasks (store w))).
    { unfold resumeOne. simpl. destruct (Status_eqb (status t) paused).
      - destruct (updateTask_frame k (statusOnly pending) w)
          as (Ha & Hp & Hc & _ & Hi & _ & _).
        repeat split; trivial. intros j. rewrite updateTask_lookup.
        destruct (String.eqb_spec k j) as [<-|E]; trivial.
        now rewrite (Hl k t (or_introl eq_refl)).
      - repeat split. intros j.
        destruct (String.eqb_spec k j) as [<-|E]; trivial.
        now apply Hl; left. }
    destruct Hstep as (S1 & S2 & S3 & S4 & S5).
    destruct (IH (resumeOne w (k, t)) Hnd') as (H1 & H2 & H3 & H4 & H5).
    { intros k' t' Hin. rewrite S5.
      destruct (String.eqb_spec k k') as [<-|E]; [|apply Hl; now right].
      exfalso. apply Hk. change k with (fst (k, t')). now apply in_map. }
    split; [now rewrite H1|]. split; [now rewrite H2|]. split; [now rewrite H3|].
    split; [now rewrite H4|].
    intros j. rewrite H5, S5.
    destruct (String.eqb_spec k j) as [<-|E]; trivial.
    replace (map_get k l) with (@None DownloadTask); trivial.
    symmetry. now apply map_get_None.
Qed.

(** X11. [resumeAll] reopens the queue: [isPaused] is cleared, every
    [paused] task becomes [pending] with its other fields unchanged, every
    other task is as before, and [processQueue] then starts pending tasks
    into the free slots. *)
Theorem resumeAll_reopens_the_queue (w : World) :
  NoDup (map_keys (tasks (store w))) ->
  isPaused (store (resumeAll w)) = false /\
  (forall j, map_get j (tasks (store (resumeAll w)))
             = option_map (fun t => if Status_eqb (status t) paused
                                    then {| lectureId := lectureId t; status := pending;
                                            progress := progress t;
                                            bytesDownloaded := bytesDownloaded t;
                                            totalBytes := totalBytes t;
                                            startedAt := startedAt t;
                                            completedAt := completedAt t;
                                            error := error t |}
                                    else t)
                          (map_get j (tasks (store w)))) /\
  activeDownloads (store (resumeAll w)) = activeDownloads (store w) /\
  audioCache (db (resumeAll w)) = audioCache (db w) /\
  (exists started,
     inflight (resumeAll w)
     = (inflight w ++ map (fun x => AwaitLecture (lectureId x)) started)%list /\
     Forall (fun x => status x = pending) started /\
     Z.of_nat (List.length started)
     <= Z.max 0 (MAX_CONCURRENT_DOWNLOADS - set_size (activeDownloads (store w)))).
Proof.
  intros Hnd. unfold resumeAll.
  destruct (resumeAll_fold (tasks (store w)) (with_isPaused w false) Hnd)
    as (H1 & H2 & H3 & H4 & H5).
  { intros k t Hin. simpl. now apply map_get_NoDup. }
  change (fun (w' : World) (kt : string * DownloadTask) =>
            if Status_eqb (status (snd kt)) paused
            then updateTask (fst kt) (statusOnly pending) w' else w') with resumeOne.
  change (tasks (store (with_isPaused w false))) with (tasks (store w)).
  set (reopened := fold_left resumeOne (tasks (store w)) (with_isPaused w false)) in *.
  simpl in H1, H2, H3, H4, H5.
  rewrite processQueue_store, processQueue_db.
  split; [exact H1|]. split.
  { intros j. rewrite H5. now destruct (map_get j (tasks (store w))). }
  split; [exact H2|]. split; [exact H4|].
  exists (tasksToStart reopened). split; [|split].
  - rewrite processQueue_starts. simpl. now rewrite H3.
  - apply tasksToStart_pending.
  - pose proof (processQueue_within_slots reopened) as H.
    rewrite processQueue_starts in H. unfold with_inflight in H. cbn [inflight] in H.
    rewrite length_app, length_map, H2 in H. lia.
Qed.

Lemma resumeAll_example :
  NoDup (map_keys (tasks (store abortingWorld))) /\
  option_map status (map_get "A" (tasks (store abortingWorld))) = Some paused /\
  option_map status (map_get "A" (tasks (store (resumeAll abortingWorld)))) = Some pending.
Proof.
  assert (Hnd : NoDup (map_keys (tasks (store abortingWorld)))).
  { vm_compute. repeat constructor; simpl; intuition discriminate. }
  split; [exact Hnd|]. split; [reflexivity|].
  rewrite (proj1 (proj2 (resumeAll_reopens_the_queue abortingWorld Hnd)) "A").
  reflexivity.
Defined.

(** *** Eviction on request *)

Lemma set_has_keys {V} (keyOf : V -> string) (k : string) (st : list V) :
  set_has k (idb_getAllKeys keyOf st)
  = match idb_get keyOf k st with Some _ => true | None => false end.
Proof.
  unfold set_has, idb_getAllKeys. induction st as [|v st IH]; simpl; trivial.
  destruct (keyOf v =? k)%string; simpl; trivial.
Qed.

Lemma idb_get_delete_None {V} (keyOf : V -> string) (j k : string) (st : list V) :
  idb_get keyOf k st = None -> idb_get keyOf k (idb_delete keyOf j st) = None.
Proof.
  unfold idb_delete. induction st as [|v st IH]; simpl; trivial.
  destruct (keyOf v =? k)%string eqn:E; [discriminate|]. intros H.
  destruct (negb (keyOf v =? j)%string); simpl; [rewrite E|]; auto.
Qed.

Lemma orphaned_spec (cachedIds : list string) (k : string) (t : DownloadTask) :
  orphaned cachedIds (k, t) = true <-> status t = completed /\ set_has k cachedIds = false.
Proof.
  unfold orphaned. cbn [fst snd]. rewrite andb_true_iff, negb_true_iff.
  destruct (Status_eqb_spec (status t) completed); intuition discriminate.
Qed.

Lemma dropOrphan_fold (cachedIds : list string) (l : list (string * DownloadTask)) :
  forall w,
    let w' := fold_left (dropOrphan cachedIds) l w in
    tasks (store w')
    = filter (fun kt => forallb (fun x => negb (orphaned cachedIds x
                                                 && (fst x =? fst kt)%string)) l)
             (tasks (store w)) /\
    audioCache (db w') = audioCache (db w) /\
    lectures (db w') = lectures (db w) /\
    activeDownloads (store w') = activeDownloads (store w) /\
    inflight w' = inflight w /\
    (forall k, idb_get lectureId k (downloads (db w)) = None ->
               idb_get lectureId k (downloads (db w')) = None) /\
    (forall x, In x l -> orphaned cachedIds x = true ->
               idb_get lectureId (fst x) (downloads (db w')) = None).
Proof.
  induction l as [|x l IH]; intros w; simpl.
  - split; [|repeat split; tauto].
    induction (tasks (store w)) as [|kt m IHm]; simpl; congruence.
  - destruct (IH (dropOrphan cachedIds w x)) as (H1 & H2 & H3 & H4 & H5 & H6 & H7).
    assert (Hstep :
      tasks (store (dropOrphan cachedIds w x))
      = filter (fun kt => negb (orphaned cachedIds x && (fst x =? fst kt)%string))
               (tasks (store w)) /\
      audioCache (db (dropOrphan cachedIds w x)) = audioCache (db w) /\
      lectures (db (dropOrphan cachedIds w x)) = lectures (db w) /\
      activeDownloads (store (dropOrphan cachedIds w x)) = activeDownloads (store w) /\
      inflight (dropOrphan cachedIds w x) = inflight w /\
      (forall k, idb_get lectureId k (downloads (db w)) = None ->
                 idb_get lectureId k (downloads (db (dropOrphan cachedIds w x))) = None) /\
      (orphaned cachedIds x = true ->
       idb_get lectureId (fst x) (downloads (db (dropOrphan cachedIds w x))) = None)).
    { unfold dropOrphan. destruct (orphaned cachedIds x); simpl.
      - split.
        { unfold map_delete. apply filter_ext. intros [k t]. simpl.
          now rewrite String.eqb_sym. }
        repeat split; trivial.
        + intros k. apply idb_get_delete_None.
        + intros _. apply idb_get_delete_same.
      - split.
        { induction (tasks (store w)) as [|kt m IHm]; simpl; congruence. }
        repeat split; trivial. discriminate. }
    destruct Hstep as (S1 & S2 & S3 & S4 & S5 & S6 & S7).
    split.
    { rewrite H1, S1. clear. induction (tasks (store w)) as [|kt m IHm]; simpl; trivial.
      destruct (negb (orphaned cachedIds x && (fst x =? fst kt)%string)); simpl;
        [now rewrite IHm|exact IHm]. }
    split; [now rewrite H2|]. split; [now rewrite H3|]. split; [now rewrite H4|].
    split; [now rewrite H5|]. split; [auto|].
    intros y [<-|Hy] Ho; auto.
Qed.

(** X12. When [freeUpSpace] has to evict (the available space is below the
    required size), it evicts for the missing bytes plus the 50 MiB buffer
    and reports whether that many bytes were freed; afterwards the task map
    holds the tasks it held before, except the [completed] ones whose blob
    is not in the cache, which are also gone from the persistent store: no
    [completed] task is left without its blob. *)
Theorem freeUpSpace_drops_completed_tasks_without_blob (requiredBytes : Z) (w : World) :
  NoDup (map_keys (tasks (store w))) ->
  available (StorageManager.getStorageStats (estimate w) (db w)) < requiredBytes ->
  let bytesToFree :=
    requiredBytes - available (StorageManager.getStorageStats (estimate w) (db w))
    + 50 * 1024 * 1024 in
  let evicted := StorageManager.evictToFreeSpace bytesToFree (db w) in
  let w' := snd (freeUpSpace requiredBytes w) in
  fst (freeUpSpace requiredBytes w) = (fst evicted >=? bytesToFree) /\
  audioCache (db w') = audioCache (snd evicted) /\
  (forall k t, In (k, t) (tasks (store w')) <->
               In (k, t) (tasks (store w)) /\
               (status t = completed -> StorageManager.isAudioCached k (db w') = true)) /\
  (forall k t, In (k, t) (tasks (store w)) -> status t = completed ->
               StorageManager.isAudioCached k (db w') = false ->
               idb_get lectureId k (downloads (db w')) = None).
Proof.
  intros Hnd Hlow bytesToFree evicted w'.
  assert (Hshape :
    freeUpSpace requiredBytes w
    = (fst evicted >=? bytesToFree,
       fold_left (dropOrphan (StorageManager.getAllCachedAudioIds (snd evicted)))
                 (tasks (store w)) (with_db w (snd evicted)))).
  { unfold freeUpSpace.
    replace (available (StorageManager.getStorageStats (estimate w) (db w)) >=? requiredBytes)
      with false by (symmetry; rewrite Z.geb_leb; apply Z.leb_gt; lia).
    unfold STORAGE_BUFFER_MB. change (50 * 1024 * 1024) with (50 * 1024 * 1024).
    fold bytesToFree. fold evicted. destruct evicted as [freed d1]. reflexivity. }
  subst w'. rewrite Hshape. simpl.
  destruct (dropOrphan_fold (StorageManager.getAllCachedAudioIds (snd evicted))
              (tasks (store w)) (with_db w (snd evicted)))
    as (H1 & H2 & _ & _ & _ & _ & H7).
  simpl in H1, H2, H7.
  set (final := fold_left _ _ _) in *.
  assert (Hcached : forall k,
    StorageManager.isAudioCached k (db final)
    = set_has k (StorageManager.getAllCachedAudioIds (snd evicted))).
  { intros k. unfold StorageManager.isAudioCached, StorageManager.getAllCachedAudioIds.
    rewrite H2. now rewrite set_has_keys. }
  split; [reflexivity|]. split; [exact H2|]. split.
  - intros k t. rewrite H1, filter_In, forallb_forall. split.
    + intros [Hin Hall]. split; [exact Hin|]. intros Hc.
      specialize (Hall (k, t) Hin). cbn [fst] in Hall.
      rewrite String.eqb_refl, andb_true_r in Hall. apply negb_true_iff in Hall.
      rewrite Hcached.
      destruct (set_has k (StorageManager.getAllCachedAudioIds (snd evicted))) eqn:E;
        trivial.
      exfalso. assert (Ho : orphaned (StorageManager.getAllCachedAudioIds (snd evicted))
                                     (k, t) = true) by (apply orphaned_spec; auto).
      congruence.
    + intros [Hin Hkeep]. split; [exact Hin|]. intros [k' t'] Hin'. cbn [fst].
      destruct (String.eqb_spec k' k) as [->|E]; [|now rewrite andb_false_r].
      assert (t' = t).
      { pose proof (map_get_NoDup k t _ Hnd Hin) as E1.
        pose proof (map_get_NoDup k t' _ Hnd Hin') as E2. congruence. }
      subst t'. rewrite andb_true_r. apply negb_true_iff.
      destruct (orphaned _ (k, t)) eqn:Ho; trivial.
      apply orphaned_spec in Ho as [Hc Hs]. rewrite <- Hcached, (Hkeep Hc) in Hs.
      discriminate.
  - intros k t Hin Hc Hno. apply (H7 (k, t) Hin).
    apply orphaned_spec. split; [exact Hc|]. now rewrite <- Hcached.
Qed.

(** A manager that holds [completed] tasks for [old] and [new], whose
    blobs of 100 MB each are cached, with 2 MB of space available. *)
Lemma freeUpSpace_cleanup_example :
  exists w : World,
    NoDup (map_keys (tasks (store w))) /\
    available (StorageManager.getStorageStats (estimate w) (db w)) < 5 * MB /\
    map_keys (tasks (store w)) = ["old"; "new"] /\
    map_keys (tasks (store (snd (freeUpSpace (5 * MB) w)))) = ["new"] /\
    (forall k t, In (k, t) (tasks (store (snd (freeUpSpace (5 * MB) w)))) ->
                 status t = completed ->
                 StorageManager.isAudioCached k (db (snd (freeUpSpace (5 * MB) w))) = true).
Proof.
  exists (mkWorld
            (mkState [("old", mkTask "old" completed (100 # 1)%Q (100 * MB) (100 * MB)
                                     (Some 1) (Some 2) None);
                      ("new", mkTask "new" completed (100 # 1)%Q (100 * MB) (100 * MB)
                                     (Some 3) (Some 4) None)] [] false)
            [] [] 2%nat
            (mkDB []
                  [mkEntry "new" (mkBlob "n" (100 * MB)) (100 * MB) 4 40;
                   mkEntry "old" (mkBlob "o" (100 * MB)) (100 * MB) 2 20]
                  [mkTask "new" completed (100 # 1)%Q (100 * MB) (100 * MB)
                          (Some 3) (Some 4) None;
                   mkTask "old" completed (100 # 1)%Q (100 * MB) (100 * MB)
                          (Some 1) (Some 2) None])
            (Some (1000 * MB, 998 * MB)) 50 []).
  match goal with |- NoDup (map_keys (tasks (store ?w))) /\ _ =>
    assert (Hnd : NoDup (map_keys (tasks (store w))))
      by (vm_compute; repeat constructor; simpl; intuition discriminate);
    assert (Hlow : available (StorageManager.getStorageStats (estimate w) (db w)) < 5 * MB)
      by (vm_compute; reflexivity);
    pose proof (freeUpSpace_drops_completed_tasks_without_blob (5 * MB) w Hnd Hlow) as H
  end.
  cbv zeta in H. destruct H as (_ & _ & H3 & _).
  split; [exact Hnd|]. split; [exact Hlow|]. split; [reflexivity|].
  split; [vm_compute; reflexivity|].
  intros k t Hin. exact (proj2 (proj1 (H3 k t) Hin)).
Defined.

(** *** Enqueueing several lectures *)

Lemma check_depends_on_estimate (n : Z) (a b : World) :
  estimate a = estimate b ->
  checkStorageAvailability n a = checkStorageAvailability n b.
Proof.
  intros H. unfold checkStorageAvailability, StorageManager.getStorageStats.
  rewrite H. now destruct (estimate b) as [[q u]|].
Qed.

Lemma queueDownload_effect (lecture : Lecture) (w : World) :
  estimate (snd (queueDownload lecture w)) = estimate w /\
  (forall j, map_has j (tasks (store w)) = true ->
             map_has j (tasks (store (snd (queueDownload lecture w)))) = true) /\
  (forall j, j <> id lecture ->
             map_get j (tasks (store (snd (queueDownload lecture w))))
             = map_get j (tasks (store w))) /\
  (checkStorageAvailability (fileSize lecture) w = true ->
   map_has (id lecture) (tasks (store (snd (queueDownload lecture w)))) = true).
Proof.
  unfold queueDownload.
  destruct (map_get (id lecture) (tasks (store w))) as [t|] eqn:Et.
  - destruct (Status_eqb (status t) completed || Status_eqb (status t) downloading).
    + simpl. repeat split; trivial. intros _. unfold map_has. now rewrite Et.
    + destruct (checkStorageAvailability (fileSize lecture) w); simpl.
      * rewrite processQueue_store, processQueue_starts. simpl.
        repeat split.
        -- intros j Hj. unfold map_has in *.
           destruct (String.eqb_spec j (id lecture)) as [->|E].
           ++ now rewrite map_get_set_same.
           ++ now rewrite map_get_set_other.
        -- intros j Hj. now apply map_get_set_other.
        -- intros _. unfold map_has. now rewrite map_get_set_same.
      * repeat split; trivial. discriminate.
  - simpl. destruct (checkStorageAvailability (fileSize lecture) w); simpl.
    + rewrite processQueue_store, processQueue_starts. simpl.
      repeat split.
      * intros j Hj. unfold map_has in *.
        destruct (String.eqb_spec j (id lecture)) as [->|E].
        -- now rewrite map_get_set_same.
        -- now rewrite map_get_set_other.
      * intros j Hj. now apply map_get_set_other.
      * intros _. unfold map_has. now rewrite map_get_set_same.
    + repeat split; trivial. discriminate.
Qed.

Lemma keys_updateTask (i : string) (u : TaskUpdates) (w : World) :
  map_keys (tasks (store (updateTask i u w))) = map_keys (tasks (store w)).
Proof.
  unfold updateTask. destruct (map_get i (tasks (store w))) as [t|] eqn:E; trivial.
  cbn [with_db with_tasks with_store store tasks]. rewrite map_keys_set.
  unfold map_has. now rewrite E.
Qed.

Lemma keys_finallyRelease (i : string) (w : World) :
  map_keys (tasks (store (finallyRelease i w))) = map_keys (tasks (store w)).
Proof. unfold finallyRelease. now rewrite processQueue_store. Qed.

Lemma keys_fold {A} (f : World -> A -> World) (l : list A) :
  (forall w x, map_keys (tasks (store (f w x))) = map_keys (tasks (store w))) ->
  forall w, map_keys (tasks (store (fold_left f l w))) = map_keys (tasks (store w)).
Proof.
  intros Hf. induction l as [|x l IH]; intros w; simpl; trivial.
  now rewrite IH, Hf.
Qed.

Lemma keys_caught (i : string) (thrown : Thrown) (w : World) :
  map_keys (tasks (store (startDownload_caught i thrown w))) = map_keys (tasks (store w)).
Proof.
  destruct thrown; simpl; unfold startDownload_aborted, startDownload_failed;
    now rewrite keys_finallyRelease, keys_updateTask.
Qed.

(** An event other than an enqueue, a cancellation, a clean-up and a
    reload leaves the keys of the task map as they are. *)
Lemma step_keeps_task_set (e : Event) (w w' : World) :
  step e w = Some w' -> keepsTaskSet e = true ->
  map_keys (tasks (store w')) = map_keys (tasks (store w)).
Proof.
  intros Hs He. destruct e; try discriminate He; simpl in Hs.
  - injection Hs as <-. unfold pauseDownload. rewrite keys_updateTask.
    unfold abortController. now destruct (map_get i (abortControllers w)).
  - injection Hs as <-. unfold resumeDownload.
    now rewrite processQueue_store, keys_updateTask.
  - injection Hs as <-. unfold retryDownload.
    now rewrite processQueue_store, keys_updateTask.
  - injection Hs as <-. unfold pauseAll. rewrite keys_fold; trivial.
    intros w1 x. now rewrite keys_updateTask.
  - injection Hs as <-. unfold resumeAll. rewrite processQueue_store, keys_fold; trivial.
    intros w1 x. destruct (Status_eqb _ _); trivial. now rewrite keys_updateTask.
  - destruct (dt <? 0); [discriminate|]. now injection Hs as <-.
  - destruct (takeNth k (inflight w)) as [[[i|i l c] rest]|]; try discriminate.
    assert (H : map_keys (tasks (store (fst (startDownload_loaded i (with_inflight w rest)))))
                = map_keys (tasks (store w))).
    { unfold startDownload_loaded.
      destruct (getLecture i (db (with_inflight w rest))); cbn [fst];
        [|now rewrite keys_updateTask].
      destruct (matchDownloadUrl _) as [[identifier fileName]|]; cbn [fst];
        [destruct (decodeURIComponent fileName); cbn [fst]|];
        rewrite ?keys_finallyRelease, ?keys_updateTask;
        cbn [with_active with_store store tasks]; now rewrite keys_updateTask. }
    destruct (startDownload_loaded i (with_inflight w rest)) as [w1 [f|]];
      injection Hs as <-; exact H.
  - destruct (nth_error (inflight w) k) as [[i|i l c]|]; try discriminate.
    destruct (total >? 0); [|discriminate]. injection Hs as <-.
    unfold onProgress. now rewrite keys_updateTask.
  - destruct (takeNth k (inflight w)) as [[[i|i l c] rest]|]; try discriminate.
    injection Hs as <-. unfold startDownload_fetched.
    now rewrite keys_finallyRelease, keys_updateTask.
  - destruct (takeNth k (inflight w)) as [[[i|i l c] rest]|]; try discriminate.
    destruct (existsb _ _); [|discriminate]. injection Hs as <-.
    exact (keys_caught i AbortError (with_inflight w rest)).
  - destruct (takeNth k (inflight w)) as [[[i|i l c] rest]|]; try discriminate.
    injection Hs as <-. exact (keys_caught i (OtherError message) (with_inflight w rest)).
  - destruct (takeNth k (inflight w)) as [[[i|i l c] rest]|]; try discriminate.
    injection Hs as <-. unfold startDownload_rejected.
    destruct write; now rewrite keys_caught.
  - now injection Hs as <-.
Qed.

Lemma run_keeps_task_set (events : list Event) :
  forall w w', run events w = Some w' ->
    Forall (fun e => keepsTaskSet e = true) events ->
    map_keys (tasks (store w')) = map_keys (tasks (store w)).
Proof.
  induction events as [|e events IH]; simpl; intros w w' Hr Hall.
  - now injection Hr as <-.
  - destruct (step e w) as [w1|] eqn:E; [|discriminate].
    inversion Hall as [|? ? He Hrest]; subst.
    rewrite (IH w1 w' Hr Hrest). now apply (step_keeps_task_set e).
Qed.

Lemma map_has_keys {V} (j : string) (a b : list (string * V)) :
  map_keys a = map_keys b -> map_has j a = map_has j b.
Proof.
  intros H. rewrite !map_has_existsb.
  assert (E : forall m : list (string * V),
            existsb (fun kv => (fst kv =? j)%string) m
            = existsb (fun k => (k =? j)%string) (map_keys m)).
  { induction m as [|kv m IH]; simpl; congruence. }
  now rewrite !E, H.
Qed.

(** X13. [queueMultiple] is best effort, also while transfers go on and
    the storage estimate changes between its enqueues: a lecture of the
    list whose size passes the head-room check when its turn comes has a
    task afterwards, whatever happened to the lectures before it in the
    list; a lecture that had a task still has one; and no task appears for
    a lecture that is not in the list. The events meanwhile are any but an
    enqueue from elsewhere, a cancellation, a clean-up and a reload. *)
Theorem queueMultiple_is_best_effort
    (lectures : list Lecture) (between : list (list Event)) (w w' : World) :
  Forall (Forall (fun e => keepsTaskSet e = true)) between ->
  DownloadManagerRest.queueMultiple lectures between w = Some w' ->
  (forall before lecture after wl,
     lectures = (before ++ lecture :: after)%list ->
     DownloadManagerRest.queueMultiple before (firstn (List.length before) between) w
     = Some wl ->
     checkStorageAvailability (fileSize lecture) wl = true ->
     map_has (id lecture) (tasks (store w')) = true) /\
  (forall j, map_has j (tasks (store w)) = true -> map_has j (tasks (store w')) = true) /\
  (forall j, ~ In j (map id lectures) ->
     map_has j (tasks (store w')) = map_has j (tasks (store w))).
Proof.
  revert between w. induction lectures as [|x rest IH]; intros between w Hall Hq.
  - cbn [DownloadManagerRest.queueMultiple] in Hq. injection Hq as <-.
    repeat split; trivial.
    intros [|y before] lecture after wl E; discriminate E.
  - cbn [DownloadManagerRest.queueMultiple] in Hq.
    destruct (run (hd [] between) (snd (queueDownload x w))) as [w1|] eqn:Er;
      [|discriminate].
    assert (Hhd : Forall (fun e => keepsTaskSet e = true) (hd [] between)).
    { destruct Hall; [constructor|assumption]. }
    assert (Htl : Forall (Forall (fun e => keepsTaskSet e = true)) (tl between)).
    { destruct Hall; [constructor|assumption]. }
    pose proof (run_keeps_task_set _ _ _ Er Hhd) as Hkeys.
    destruct (queueDownload_effect x w) as (_ & Hmono & Hother & Hnew).
    destruct (IH (tl between) w1 Htl Hq) as (I1 & I2 & I3).
    split; [|split].
    + intros [|y before] lecture after wl E Hb Hc.
      * injection E as <- <-. cbn [DownloadManagerRest.queueMultiple] in Hb.
        injection Hb as <-. apply I2. rewrite (map_has_keys _ _ _ Hkeys). now apply Hnew.
      * injection E as <- E. cbn [List.length] in Hb.
        assert (Hhd' : hd [] (firstn (S (List.length before)) between) = hd [] between)
          by now destruct between.
        assert (Htl' : tl (firstn (S (List.length before)) between)
                       = firstn (List.length before) (tl between)).
        { destruct between; simpl; trivial. now rewrite firstn_nil. }
        cbn [DownloadManagerRest.queueMultiple] in Hb. rewrite Hhd', Er, Htl' in Hb.
        exact (I1 before lecture after wl E Hb Hc).
    + intros j Hj. apply I2. rewrite (map_has_keys _ _ _ Hkeys). now apply Hmono.
    + intros j Hj. cbn [map] in Hj.
      rewrite I3 by (intros Hin; apply Hj; now right).
      rewrite (map_has_keys _ _ _ Hkeys). unfold map_has.
      rewrite Hother; trivial. intros ->. apply Hj. now left.
Qed.

(** Lecture [X] is refused for lack of space; the storage estimate then
    changes, and lecture [Y] is accepted. *)
Lemma queueMultiple_after_a_refusal :
  Forall (Forall (fun e => keepsTaskSet e = true)) [[EvEstimate plenty]] /\
  exists w',
    DownloadManagerRest.queueMultiple [lectureOf "X" (5 * MB); lectureOf "Y" (5 * MB)]
                                      [[EvEstimate plenty]] tightForTwo = Some w' /\
    map_has "X" (tasks (store w')) = false /\
    map_has "Y" (tasks (store w')) = true.
Proof.
  assert (Hall : Forall (Forall (fun e => keepsTaskSet e = true)) [[EvEstimate plenty]])
    by (repeat constructor).
  split; [exact Hall|].
  eexists. split; [vm_compute; reflexivity|]. split; [reflexivity|].
  refine (proj1 (queueMultiple_is_best_effort
                   [lectureOf "X" (5 * MB); lectureOf "Y" (5 * MB)] [[EvEstimate plenty]]
                   tightForTwo _ Hall eq_refl)
                [lectureOf "X" (5 * MB)] (lectureOf "Y" (5 * MB)) [] _ eq_refl _ _).
  - vm_compute. reflexivity.
  - reflexivity.
Defined.

End MoreManagerFacts.

(* ================================================================== *)
(** ** Completed tasks and their blobs *)

Module CompletionFacts.
Import ManagerFacts QueueFacts MoreManagerFacts.


Lemma isAudioCached_cacheAudio_same (now : Z) (i : string) (blob : Blob) (d : DB) :
  isAudioCached i (cacheAudio now i blob d) = true.
Proof.
  unfold isAudioCached, cacheAudio. cbn [audioCache with_audioCache].
  match goal with
  | |- context [idb_put _ ?v ?s] => pose proof (idb_get_put_same ce_lectureId v s) as H
  end.
  cbn [ce_lectureId] in H. now rewrite H.
Qed.










































(** Why the start has to be consistent: loaded from a database that holds
    a [completed] download without its blob, the task of the map is
    [completed] and nothing is cached for it. *)
Lemma completed_without_blob_after_load :
  exists w t,
    run [EvLoad] (initialWorld staleDB plenty 10) = Some w /\
    map_get "X" (tasks (store w)) = Some t /\
    status t = completed /\
    isAudioCached "X" (db w) = false.
Proof. do 2 eexists. split; [vm_compute; reflexivity|]. repeat split. Qed.

End CompletionFacts.

(* ================================================================== *)
(** ** The fetcher, and a transfer from its first chunk to its end *)

Module FetcherFacts.
Import DownloadManager ManagerFacts QueueFacts MoreManagerFacts CompletionFacts ArchiveFetcher.

Lemma readLoop_final (chunks : list string) (total : Z) :
  forall loaded, snd (readLoop chunks loaded total) = loaded + totalLength chunks.
Proof.
  induction chunks as [|c chunks IH]; intros loaded; simpl; [lia|].
  specialize (IH (loaded + chunkLength c)).
  destruct (readLoop chunks (loaded + chunkLength c) total) as [calls final].
  simpl in *. lia.
Qed.

Lemma readLoop_calls (chunks : list string) (total : Z) :
  forall loaded,
    fst (readLoop chunks loaded total)
    = if total >? 0
      then map (fun j => (loaded + totalLength (firstn (S j) chunks), total))
               (seq 0 (List.length chunks))
      else [].
Proof.
  induction chunks as [|c chunks IH]; intros loaded; simpl.
  - now destruct (total >? 0).
  - specialize (IH (loaded + chunkLength c)).
    destruct (readLoop chunks (loaded + chunkLength c) total) as [calls final].
    simpl in *. destruct (total >? 0); trivial. rewrite IH. f_equal.
    + f_equal. destruct chunks; simpl; lia.
    + rewrite <- seq_shift, map_map. apply map_ext. intros j. f_equal. simpl. lia.
Qed.

(** X14. Once [fetch] has resolved, [fetchAudioWithProgress] rejects a
    response that is not ok with the file name and the status in the
    message, and a response without a body with ['No response body'], in
    both cases without any progress report; otherwise it resolves with a
    blob whose size is the number of bytes of all chunks, after one
    progress report per chunk that carries the bytes read so far and the
    announced content length, or after no report at all when no positive
    content length was announced. *)
Theorem fetchAudioWithProgress_reports_running_totals (fileName : string) (r : Response) :
  (ok r = false ->
     fetchAudioWithProgress fileName r
     = ([], inr ("Failed to download " ++ fileName ++ ": " ++ statusCode r))) /\
  (ok r = true -> body r = None ->
     fetchAudioWithProgress fileName r = ([], inr "No response body")) /\
  (forall chunks, ok r = true -> body r = Some chunks ->
     exists blob,
       snd (fetchAudioWithProgress fileName r) = inl blob /\
       blob_size blob = totalLength chunks /\
       (contentLength r <= 0 -> fst (fetchAudioWithProgress fileName r) = []) /\
       (0 < contentLength r ->
          fst (fetchAudioWithProgress fileName r)
          = map (fun j => (totalLength (firstn (S j) chunks), contentLength r))
                (seq 0 (List.length chunks)))).
Proof.
  unfold fetchAudioWithProgress. split; [|split].
  - now intros ->.
  - now intros -> ->.
  - intros chunks -> ->. simpl.
    pose proof (readLoop_final chunks (contentLength r) 0) as Hf.
    pose proof (readLoop_calls chunks (contentLength r) 0) as Hc.
    destruct (readLoop chunks 0 (contentLength r)) as [calls loaded]. simpl in *.
    eexists. split; [reflexivity|]. split; [simpl; lia|]. split.
    + intros Hle. rewrite Hc.
      replace (contentLength r >? 0) with false; trivial.
      symmetry. rewrite Z.gtb_ltb. apply Z.ltb_ge. lia.
    + intros Hpos. rewrite Hc.
      replace (contentLength r >? 0) with true; trivial.
      symmetry. rewrite Z.gtb_ltb. apply Z.ltb_lt. lia.
Qed.

Lemma updateTask_clock i u w : clock (updateTask i u w) = clock w.
Proof. unfold updateTask. now destruct (map_get i (tasks (store w))). Qed.

Lemma run_app (a b : list Event) :
  forall w, run (a ++ b) w = match run a w with Some w' => run b w' | None => None end.
Proof.
  induction a as [|e a IH]; intros w; simpl; trivial.
  destruct (step e w); trivial.
Qed.

(** The progress reports of one transfer, all with the same positive
    total, only rewrite the byte counts and the progress of its task. *)
Lemma run_progress_reports (k : nat) (i : string) (lecture : Lecture) (c : nat) (total : Z)
    (calls : list (Z * Z)) :
  0 < total ->
  Forall (fun lt => snd lt = total) calls ->
  forall w t,
    nth_error (inflight w) k = Some (AwaitFetch i lecture c) ->
    map_get i (tasks (store w)) = Some t ->
    exists w1 t1,
      run (map (fun lt => EvProgress k (fst lt) (snd lt)) calls) w = Some w1 /\
      inflight w1 = inflight w /\ clock w1 = clock w /\
      audioCache (db w1) = audioCache (db w) /\
      map_get i (tasks (store w1)) = Some t1 /\
      lectureId t1 = lectureId t /\ startedAt t1 = startedAt t /\
      completedAt t1 = completedAt t /\ error t1 = error t /\
      (calls <> [] ->
       totalBytes t1 = total /\
       bytesDownloaded t1 = fst (last calls (0, 0)) /\
       progress t1 = Qred (Qmake (fst (last calls (0, 0)) * 100) (Z.to_pos total))).
Proof.
  intros Hpos Hall.
  assert (Hgt : (total >? 0) = true) by (rewrite Z.gtb_ltb; now apply Z.ltb_lt).
  induction Hall as [|[l tot] calls Htot Hall IH]; intros w t Hk Ht.
  - exists w, t. repeat split; trivial; congruence.
  - simpl in Htot. subst tot. cbn [map run step fst snd]. rewrite Hk, Hgt.
    unfold onProgress.
    match goal with
    | |- context [updateTask i ?u w] =>
        destruct (updateTask_frame i u w) as (_ & _ & Hcache & _ & Hi & _ & _);
        pose proof (updateTask_get i u w t Ht) as Hg;
        pose proof (updateTask_clock i u w) as Hcl;
        destruct (IH (updateTask i u w) (spread t u)) as (w1 & t1 & H)
    end; [now rewrite Hi|exact Hg|].
    destruct H as (H1 & H2 & H3 & Hc & H4 & H5 & H6 & H7 & H8 & H9).
    exists w1, t1. rewrite H1, H2, H3, Hc, H4, Hi, Hcl, Hcache.
    repeat split; trivial.
    1-3: destruct calls as [|x calls']; [|now apply H9];
         cbn [map run] in H1; injection H1 as <-;
         pose proof (eq_trans (eq_sym H4) Hg) as E; injection E as ->;
         cbn; now rewrite ?Hgt.
Qed.

Lemma last_report (chunks : list string) (total : Z) :
  chunks <> [] ->
  fst (last (map (fun j => (totalLength (firstn (S j) chunks), total))
                 (seq 0 (List.length chunks))) (0, 0))
  = totalLength chunks.
Proof.
  intros Hne. destruct (List.length chunks) as [|m] eqn:El.
  - destruct chunks; [contradiction|discriminate].
  - rewrite seq_S, map_app. cbn [map Nat.add]. rewrite last_last. cbn [fst].
    now rewrite <- El, firstn_all.
Qed.

Lemma progress_of_all_bytes (total : Z) :
  0 < total -> Qred (Qmake (total * 100) (Z.to_pos total)) = (100 # 1)%Q.
Proof.
  intros Hpos. change (100 # 1)%Q with (Qred (100 # 1)). apply Qred_complete.
  unfold Qeq. cbn [Qnum Qden]. rewrite Z2Pos.id by exact Hpos. lia.
Qed.

(** X15. A transfer whose server announces the content length it then
    delivers ends, when the two writes after the fetch are carried out,
    with its task [completed] at progress 100, [bytesDownloaded] and
    [totalBytes] both equal to that length, and the blob in the audio
    cache. When one of the two writes is rejected, the task shows the same
    byte counts and progress 100 but is [paused] (after an error named
    ['AbortError']) or [failed], and the blob is in the cache only when
    the rejected write was the second one. *)
Theorem honest_content_length_completes_with_all_bytes
    (k : nat) (i : string) (lecture : Lecture) (c : nat) (rest : list Suspended)
    (w : World) (t : DownloadTask) (fileName : string) (r : Response)
    (chunks : list string) (rejected : option (AwaitedWrite * Thrown)) :
  takeNth k (inflight w) = Some (AwaitFetch i lecture c, rest) ->
  map_get i (tasks (store w)) = Some t ->
  ok r = true ->
  body r = Some chunks ->
  0 < contentLength r ->
  contentLength r = totalLength chunks ->
  exists w',
    run (deliver k (fetchAudioWithProgress fileName r) rejected) w = Some w' /\
    map_get i (tasks (store w'))
    = Some {| lectureId := lectureId t;
              status := match rejected with
                        | None => completed
                        | Some (_, AbortError) => paused
                        | Some (_, OtherError _) => failed
                        end;
              progress := (100 # 1)%Q;
              bytesDownloaded := contentLength r; totalBytes := contentLength r;
              startedAt := startedAt t;
              completedAt := match rejected with
                             | None => Some (clock w)
                             | Some _ => completedAt t
                             end;
              error := match rejected with
                       | None => error t
                       | Some (_, AbortError) => Some "Download cancelled"
                       | Some (_, OtherError message) => Some message
                       end |} /\
    StorageManager.isAudioCached i (db w')
    = match rejected with
      | Some (CacheAudio, _) => StorageManager.isAudioCached i (db w)
      | _ => true
      end.
Proof.
  intros Hk Ht Hok Hbody Hpos Hlen.
  pose proof (readLoop_final chunks (contentLength r) 0) as Hf.
  pose proof (readLoop_calls chunks (contentLength r) 0) as Hc.
  unfold fetchAudioWithProgress. rewrite Hok, Hbody. simpl negb. cbv iota.
  destruct (readLoop chunks 0 (contentLength r)) as [calls loaded]. simpl in Hf, Hc.
  replace (contentLength r >? 0) with true in Hc
    by (symmetry; rewrite Z.gtb_ltb; now apply Z.ltb_lt).
  assert (Hcalls : calls = map (fun j => (totalLength (firstn (S j) chunks), contentLength r))
                               (seq 0 (List.length chunks))) by exact Hc.
  clear Hc. rename Hcalls into Hc.
  assert (Hchunks : chunks <> []) by (intros ->; simpl in Hlen; lia).
  assert (Hne : calls <> []).
  { rewrite Hc. destruct chunks as [|x chunks']; [contradiction|discriminate]. }
  assert (Hall : Forall (fun lt => snd lt = contentLength r) calls).
  { rewrite Hc. apply Forall_forall. intros x Hx.
    apply in_map_iff in Hx as [j [<- _]]. reflexivity. }
  destruct (run_progress_reports k i lecture c (contentLength r) calls Hpos Hall w t
              (takeNth_nth_error _ _ _ _ Hk) Ht)
    as (w1 & t1 & H1 & H2 & H3 & Hcache & H4 & H5 & H6 & H7 & H8 & H9).
  destruct (H9 Hne) as (Htot & Hbytes & Hprog).
  rewrite Hc, last_report in Hbytes, Hprog by exact Hchunks.
  rewrite <- Hlen in Hbytes, Hprog. rewrite progress_of_all_bytes in Hprog by exact Hpos.
  unfold deliver. cbn [fst snd]. rewrite run_app, H1.
  destruct rejected as [[write thrown]|]; cbn [run step]; rewrite H2, Hk.
  - eexists. split; [reflexivity|].
    unfold startDownload_rejected, startDownload_caught, startDownload_aborted,
      startDownload_failed.
    destruct write, thrown;
      match goal with
      | |- context [finallyRelease i (updateTask i ?u ?x)] =>
          destruct (caught_and_released i u x t1 H4) as (G1 & G2 & _)
      end;
      (split; [rewrite G1; unfold spread; cbn;
               now rewrite H5, H6, H7, Htot, Hbytes, Hprog|]);
      unfold StorageManager.isAudioCached; rewrite G2;
      cbn [db with_db with_inflight]; try (now rewrite Hcache);
      apply (isAudioCached_cacheAudio_same (clock (with_inflight w1 rest)) i _ (db w1)).
  - eexists. split; [reflexivity|].
    unfold startDownload_fetched, finallyRelease.
    rewrite processQueue_store, processQueue_db. split.
    + match goal with
      | |- context [updateTask i ?u ?x] =>
          refine (eq_trans (updateTask_get i u x t1 H4) _)
      end.
      unfold spread. simpl. rewrite H5, H6, H8, Htot, H3.
      f_equal. f_equal. lia.
    + unfold StorageManager.isAudioCached.
      match goal with
      | |- context [audioCache (db (with_active (with_controllers (updateTask _ ?u ?x) _ _ _) _))] =>
          destruct (updateTask_frame i u x) as (_ & _ & Hcache' & _);
          change (audioCache (db (with_active (with_controllers (updateTask i u x) _ _ _) _)))
            with (audioCache (db (updateTask i u x)))
      end.
      rewrite Hcache'. simpl.
      match goal with
      | |- context [idb_get _ _ (idb_put _ ?v ?s)] =>
          pose proof (idb_get_put_same ce_lectureId v s) as Hput
      end.
      cbn [ce_lectureId] in Hput. now rewrite Hput.
Qed.

Lemma honest_content_length_example :
  (exists rest t,
     takeNth 0 (inflight fetchingWorld)
     = Some (AwaitFetch "X" (lectureOf "X" 1000) 0, rest) /\
     map_get "X" (tasks (store fetchingWorld)) = Some t) /\
  exists w',
    run (deliver 0 (fetchAudioWithProgress "X.mp3"
                      (mkResponse true "200" 5 (Some ["abc"; "de"])))
                 (Some (CacheAudio, OtherError "QuotaExceededError")))
        fetchingWorld
    = Some w' /\
    option_map status (map_get "X" (tasks (store w'))) = Some failed /\
    option_map bytesDownloaded (map_get "X" (tasks (store w'))) = Some 5 /\
    option_map totalBytes (map_get "X" (tasks (store w'))) = Some 5 /\
    StorageManager.isAudioCached "X" (db w') = false.
Proof.
  split; [do 2 eexists; split; vm_compute; reflexivity|].
  destruct (honest_content_length_completes_with_all_bytes 0 "X" (lectureOf "X" 1000) 0 []
              fetchingWorld _ "X.mp3" (mkResponse true "200" 5 (Some ["abc"; "de"]))
              ["abc"; "de"] (Some (CacheAudio, OtherError "QuotaExceededError"))
              eq_refl eq_refl eq_refl eq_refl eq_refl eq_refl)
    as (w' & Hr & Ht & Hc).
  exists w'. split; [exact Hr|]. rewrite Ht, Hc. repeat split.
Defined.

End FetcherFacts.

(* ================================================================== *)
(** ** More about the storage manager *)

Module MoreStorageFacts.
Import StorageManager CacheFacts StorageManagerRest.

(** X16. A blob that was cached is found again: after [cacheAudio] the
    lecture counts as cached, its record holds the blob, the size of the
    blob and the time of caching as both time stamps, and a read returns
    that blob, whatever the cache held for the lecture before; the records
    of other lectures are untouched. After [deleteCachedAudio] the lecture
    is not cached any more, and the other records are still there. *)
Theorem cacheAudio_then_lookup (now later : Z) (i : string) (blob : Blob) (d : DB) :
  isAudioCached i (cacheAudio now i blob d) = true /\
  idb_get ce_lectureId i (audioCache (cacheAudio now i blob d))
  = Some {| ce_lectureId := i; ce_blob := blob; ce_size := blob_size blob;
            cachedAt := now; lastAccessed := now |} /\
  fst (getCachedAudio later i (cacheAudio now i blob d)) = Some blob /\
  (forall j, j <> i ->
     idb_get ce_lectureId j (audioCache (cacheAudio now i blob d))
     = idb_get ce_lectureId j (audioCache d)) /\
  isAudioCached i (deleteCachedAudio i (cacheAudio now i blob d)) = false /\
  (forall j, j <> i ->
     idb_get ce_lectureId j (audioCache (deleteCachedAudio i d))
     = idb_get ce_lectureId j (audioCache d)).
Proof.
  assert (Hput : idb_get ce_lectureId i (audioCache (cacheAudio now i blob d))
                 = Some {| ce_lectureId := i; ce_blob := blob; ce_size := blob_size blob;
                           cachedAt := now; lastAccessed := now |}).
  { exact (idb_get_put_same ce_lectureId
             {| ce_lectureId := i; ce_blob := blob; ce_size := blob_size blob;
                cachedAt := now; lastAccessed := now |} (audioCache d)). }
  split; [unfold isAudioCached; now rewrite Hput|].
  split; [exact Hput|].
  split; [unfold getCachedAudio; now rewrite Hput|].
  split.
  { intros j Hj. unfold cacheAudio. simpl. now apply idb_get_put_other. }
  split.
  { unfold isAudioCached, deleteCachedAudio. simpl.
    now rewrite MoreManagerFacts.idb_get_delete_same. }
  intros j Hj. unfold deleteCachedAudio. simpl.
  now apply MoreManagerFacts.idb_get_delete_other.
Qed.

Lemma totalSize_filter_perm (f : CacheEntry -> bool) (a b : list CacheEntry) :
  Permutation a b -> totalSize (filter f a) = totalSize (filter f b).
Proof.
  induction 1 as [|x a b _ IH|x y a|a b c _ IH1 _ IH2]; simpl; trivial.
  - destruct (f x); simpl; lia.
  - destruct (f x), (f y); simpl; lia.
  - lia.
Qed.

Lemma audioSize_is_totalSize (est : StorageEstimate) (d : DB) :
  audioSize (getStorageStats est d) = totalSize (audioCache d).
Proof.
  unfold getStorageStats, idb_getAll.
  assert (H : forall l acc,
            fold_left (fun total item => total + ce_size item) l acc = acc + totalSize l).
  { induction l as [|e l IH]; intros acc; simpl; [lia|]. rewrite IH. lia. }
  destruct est as [[q u]|]; simpl; now rewrite H.
Qed.

(** X17. The number [evictToFreeSpace] returns is exactly the number of
    bytes that left the cache: the sizes cached before are the freed bytes
    plus the sizes still cached, and the [audioSize] of the storage
    statistics drops by the freed bytes. *)
Theorem evictToFreeSpace_accounts_for_the_bytes
    (targetBytes : Z) (est : StorageEstimate) (d : DB) :
  uniqueKeys ce_lectureId (audioCache d) = true ->
  totalSize (audioCache d)
  = fst (evictToFreeSpace targetBytes d)
    + totalSize (audioCache (snd (evictToFreeSpace targetBytes d))) /\
  audioSize (getStorageStats est (snd (evictToFreeSpace targetBytes d)))
  = audioSize (getStorageStats est d) - fst (evictToFreeSpace targetBytes d).
Proof.
  intros Hu.
  pose proof (sortByAccess_perm (audioCache d)) as Hp.
  set (sorted := sortByAccess (audioCache d)) in *.
  destruct (evictLoop_prefix sorted targetBytes 0 []) as (k & Hk & Heq & _ & _).
  set (kept := fun v => negb (set_has (ce_lectureId v)
                                      (map ce_lectureId (firstn k sorted)))).
  assert (Hres : evictToFreeSpace targetBytes d
                 = (totalSize (firstn k sorted),
                    with_audioCache d (filter kept (audioCache d)))).
  { unfold evictToFreeSpace, idb_getAll. fold sorted. rewrite Heq. simpl.
    now rewrite idb_delete_many. }
  assert (Hsum : totalSize (audioCache d)
                 = totalSize (firstn k sorted) + totalSize (filter kept (audioCache d))).
  { rewrite <- (totalSize_filter_perm kept _ _ Hp).
    rewrite <- (totalSize_perm _ _ Hp).
    assert (Hnd : NoDup (map ce_lectureId (firstn k sorted ++ skipn k sorted))).
    { rewrite firstn_skipn. eapply Permutation_NoDup.
      - apply Permutation_map. symmetry. exact Hp.
      - now apply uniqueKeys_NoDup. }
    rewrite <- (firstn_skipn k sorted) at 1 3.
    rewrite filter_app, !totalSize_app.
    assert (H1 : filter kept (firstn k sorted) = []).
    { assert (H : forall l, (forall e, In e l -> kept e = false) -> filter kept l = []).
      { induction l as [|e l IH]; simpl; trivial. intros Hl.
        rewrite (Hl e (or_introl eq_refl)). apply IH. intros; apply Hl; now right. }
      apply H. intros e He. unfold kept. apply negb_false_iff.
      apply set_has_In. now apply in_map. }
    assert (H2 : filter kept (skipn k sorted) = skipn k sorted).
    { assert (H : forall l, (forall e, In e l -> kept e = true) -> filter kept l = l).
      { induction l as [|e l IH]; simpl; trivial. intros Hl.
        rewrite (Hl e (or_introl eq_refl)). f_equal. apply IH. intros; apply Hl; now right. }
      apply H. intros e He. unfold kept. apply negb_true_iff.
      destruct (set_has _ _) eqn:E; trivial. apply set_has_In in E. exfalso.
      rewrite map_app in Hnd. revert Hnd E He.
      generalize (firstn k sorted) (skipn k sorted). intros a b Hnd E He.
      induction a as [|x a IHa]; simpl in *; [tauto|].
      inversion Hnd as [|? ? Hx Hnd']; subst.
      destruct E as [E|E]; [|auto].
      apply Hx. rewrite E. apply in_or_app. right. now apply in_map. }
    rewrite H1, H2. simpl. lia. }
  rewrite !audioSize_is_totalSize, Hres. simpl. lia.
Qed.

Lemma evictToFreeSpace_accounts_abc :
  uniqueKeys ce_lectureId (audioCache abcDB) = true /\
  totalSize (audioCache abcDB)
  = fst (evictToFreeSpace (25 * MB) abcDB)
    + totalSize (audioCache (snd (evictToFreeSpace (25 * MB) abcDB))).
Proof.
  split; [reflexivity|].
  exact (proj1 (evictToFreeSpace_accounts_for_the_bytes (25 * MB) None abcDB eq_refl)).
Defined.

(** X18. [getLRUCachedAudio(limit)] lists the ids of a front part of the
    cache records in the order of their last access: what it leaves out was
    accessed no earlier than anything it lists. For a limit that is not
    negative it lists [limit] ids, or all when the cache holds fewer; a
    negative limit leaves out that many of the most recently accessed
    records instead. *)
Theorem getLRUCachedAudio_lists_the_oldest (limit : Z) (d : DB) :
  (exists listed others,
     getLRUCachedAudio limit d = map ce_lectureId listed /\
     Permutation (listed ++ others) (audioCache d) /\
     StronglySorted olderOrSame (listed ++ others) /\
     (forall e e', In e listed -> In e' others -> lastAccessed e <= lastAccessed e')) /\
  (0 <= limit ->
     List.length (getLRUCachedAudio limit d)
     = Nat.min (Z.to_nat limit) (List.length (audioCache d))) /\
  (limit < 0 ->
     List.length (getLRUCachedAudio limit d)
     = (List.length (audioCache d) - Z.to_nat (- limit))%nat).
Proof.
  pose proof (sortByAccess_perm (audioCache d)) as Hp.
  pose proof (sortByAccess_sorted (audioCache d)) as Hs.
  assert (Hlen : List.length (sortByAccess (audioCache d)) = List.length (audioCache d))
    by (now apply Permutation_length).
  unfold getLRUCachedAudio, slice0, idb_getAll.
  set (sorted := sortByAccess (audioCache d)) in *.
  assert (Hsplit : forall n,
    Permutation (firstn n sorted ++ skipn n sorted) (audioCache d) /\
    StronglySorted olderOrSame (firstn n sorted ++ skipn n sorted) /\
    (forall e e', In e (firstn n sorted) -> In e' (skipn n sorted) ->
                  lastAccessed e <= lastAccessed e')).
  { intros n. rewrite firstn_skipn. split; [exact Hp|]. split; [exact Hs|].
    rewrite <- (firstn_skipn n sorted) in Hs. revert Hs.
    generalize (firstn n sorted) (skipn n sorted). intros a b.
    induction a as [|x a IH]; simpl; [tauto|].
    intros Hs e e' [<-|He] He'.
    - inversion Hs as [|? ? _ Hall]; subst.
      rewrite Forall_forall in Hall. apply Hall. apply in_or_app. now right.
    - inversion Hs; subst. now apply IH. }
  split; [|split].
  - destruct (limit <? 0); eexists; eexists; (split; [reflexivity|apply Hsplit]).
  - intros Hpos. replace (limit <? 0) with false by (symmetry; apply Z.ltb_ge; lia).
    rewrite length_map, length_firstn, Hlen. reflexivity.
  - intros Hneg. replace (limit <? 0) with true by (symmetry; apply Z.ltb_lt; lia).
    rewrite length_map, length_firstn, Hlen. lia.
Qed.

Lemma languageCode_ur (l : Language) : languageCode l = "ur" <-> l = lang_ur.
Proof. destruct l; simpl; split; congruence. Qed.

(** X19. [getSettings] reads the record stored under the key ['ur'] only:
    settings saved with the language Urdu are read back, while saving
    settings with another language does not change what [getSettings]
    returns, which is the last record saved under Urdu or else the default
    settings. *)
Theorem getSettings_reads_the_urdu_record (s : Settings) (st : list Settings) :
  (language s = lang_ur -> getSettings (saveSettings s st) = s) /\
  (language s <> lang_ur -> getSettings (saveSettings s st) = getSettings st) /\
  getSettings [] = DEFAULT_SETTINGS /\
  (language s <> lang_ur -> getSettings (saveSettings s []) = DEFAULT_SETTINGS).
Proof.
  assert (Hother : language s <> lang_ur ->
                   getSettings (saveSettings s st) = getSettings st).
  { intros Hl. unfold getSettings, saveSettings.
    rewrite idb_get_put_other; trivial.
    unfold settingsKey. intros E. symmetry in E. now apply languageCode_ur in E. }
  split; [|split; [exact Hother|split; [reflexivity|]]].
  - intros Hl. unfold getSettings, saveSettings.
    assert (Hk : settingsKey s = "ur") by (unfold settingsKey; now apply languageCode_ur).
    rewrite <- Hk. now rewrite idb_get_put_same.
  - intros Hl. unfold getSettings, saveSettings. simpl.
    destruct (String.eqb_spec (settingsKey s) "ur") as [E|E]; trivial.
    unfold settingsKey in E. now apply languageCode_ur in E.
Qed.

End MoreStorageFacts.

(* ================================================================== *)
(** ** The derived download stores *)

Module DownloadsStoreFacts.
Import QueueFacts DownloadsStore.

Lemma withStatus_partition (l : list DownloadTask) :
  List.length l
  = (List.length (withStatus pending l) + List.length (withStatus downloading l)
     + List.length (withStatus completed l) + List.length (withStatus failed l)
     + List.length (withStatus paused l))%nat.
Proof.
  unfold withStatus. induction l as [|t l IH]; simpl; trivial.
  destruct (status t); simpl; lia.
Qed.

Lemma In_withStatus (st : Status) (t : DownloadTask) (l : list DownloadTask) :
  In t l -> (In t (withStatus st l) <-> status t = st).
Proof.
  intros Hin. unfold withStatus. rewrite filter_In.
  destruct (Status_eqb_spec (status t) st); intuition discriminate.
Qed.

(** X20. The five status lists of the store split the tasks: every task
    is in exactly one of [pendingTasks], [downloadingTasks],
    [completedTasks], [failedTasks] and [pausedTasks], so their lengths add
    up to the number of tasks; [activeTasks] holds the pending and the
    downloading ones, and [hasActiveDownloads] says whether there is
    one. *)
Theorem status_lists_partition_the_tasks (w : World) :
  List.length (allTasks w)
  = (List.length (pendingTasks w) + List.length (downloadingTasks w)
     + List.length (completedTasks w) + List.length (failedTasks w)
     + List.length (pausedTasks w))%nat /\
  (forall t, In t (allTasks w) ->
     (In t (pendingTasks w) <-> status t = pending) /\
     (In t (downloadingTasks w) <-> status t = downloading) /\
     (In t (completedTasks w) <-> status t = completed) /\
     (In t (failedTasks w) <-> status t = failed) /\
     (In t (pausedTasks w) <-> status t = paused)) /\
  List.length (activeTasks w) = (pendingCount w + downloadingCount w)%nat /\
  (hasActiveDownloads w = true <-> (0 < pendingCount w + downloadingCount w)%nat).
Proof.
  assert (Hact : List.length (activeTasks w) = (pendingCount w + downloadingCount w)%nat).
  { unfold activeTasks, pendingCount, downloadingCount, pendingTasks, downloadingTasks,
      withStatus.
    induction (allTasks w) as [|t l IH]; simpl; trivial.
    destruct (status t); simpl; lia. }
  split; [apply withStatus_partition|]. split.
  - intros t Hin.
    unfold pendingTasks, downloadingTasks, completedTasks, failedTasks, pausedTasks.
    repeat split; intros H; now apply (In_withStatus _ t (allTasks w) Hin).
  - split; [exact Hact|].
    unfold hasActiveDownloads. rewrite Hact. apply Nat.ltb_lt.
Qed.

Lemma find_by_lectureId (i : string) (m : list (string * DownloadTask)) :
  wfTasks m ->
  find (fun t => (lectureId t =? i)%string) (map_values m) = map_get i m.
Proof.
  intros [_ Hid]. induction m as [|[k t] m IH]; simpl; trivial.
  rewrite (Hid k t (or_introl eq_refl)).
  destruct (k =? i)%string; trivial.
  apply IH. intros k' t' Hin. apply Hid. now right.
Qed.

(** X21. In every world the manager reaches, the store's lookup of a task
    by its [lectureId] field finds what the manager's [getDownloadStatus]
    finds under the map key, so the store's [getDownloadStatus] and
    [isDownloading] report the status of exactly that task. *)
Theorem store_lookup_agrees_with_the_manager (i : string) (w : World) :
  reachable w ->
  findTask i w = DownloadManagerRest.getDownloadStatus i w /\
  getDownloadStatus i w = option_map status (DownloadManagerRest.getDownloadStatus i w) /\
  (isDownloading i w = true <->
   option_map status (DownloadManagerRest.getDownloadStatus i w) = Some downloading).
Proof.
  intros Hr.
  assert (Hf : findTask i w = DownloadManagerRest.getDownloadStatus i w).
  { unfold findTask, allTasks, DownloadManagerRest.getDownloadStatus.
    apply find_by_lectureId. now apply reachable_one_task_per_lecture. }
  split; [exact Hf|]. split; [unfold getDownloadStatus; now rewrite Hf|].
  unfold isDownloading. rewrite Hf.
  destruct (DownloadManagerRest.getDownloadStatus i w) as [t|]; simpl.
  - destruct (Status_eqb_spec (status t) downloading) as [E|E]; split;
      congruence.
  - split; discriminate.
Qed.

Lemma store_lookup_example :
  reachable fetchingWorld /\
  DownloadsStore.getDownloadStatus "X" fetchingWorld = Some downloading.
Proof.
  split; [exact fetchingWorld_reachable|].
  rewrite (proj1 (proj2 (store_lookup_agrees_with_the_manager "X" fetchingWorld
                           fetchingWorld_reachable))).
  reflexivity.
Defined.

End DownloadsStoreFacts.

(* ================================================================== *)
(** ** The collection manager *)

Module CollectionFacts.
Import CollectionManager.

Lemma find_snoc {A} (p : A -> bool) (l : list A) (x : A) :
  find p (l ++ [x])
  = match find p l with Some y => Some y | None => if p x then Some x else None end.
Proof.
  induction l as [|y l IH]; simpl; trivial. now destruct (p y).
Qed.

(** What a map built by setting the elements of a list one after the other
    holds under a key: the last element of the list with that key. *)
Lemma last_wins {A} (keyOf : A -> string) (i : string) (l : list A) :
  forall m,
    map_get i (fold_left (fun m' x => map_set (keyOf x) x m') l m)
    = match find (fun x => (keyOf x =? i)%string) (rev l) with
      | Some x => Some x
      | None => map_get i m
      end.
Proof.
  induction l as [|x l IH]; intros m; simpl; trivial.
  rewrite IH, find_snoc.
  destruct (find _ (rev l)); trivial.
  destruct (String.eqb_spec (keyOf x) i) as [<-|E].
  - apply map_get_set_same.
  - apply map_get_set_other. congruence.
Qed.

(** X22. [getCollection] returns the configured collection with the given
    identifier, the last one in the configuration file when several share
    it, and nothing for an identifier that is not configured;
    [isConfiguredCollection] tells whether the identifier occurs in the
    configuration. *)
Theorem getCollection_finds_the_last_configured (i : string) (cfg : AppConfig) :
  getCollection i (create cfg)
  = find (fun c => (identifier c =? i)%string) (rev (collections cfg)) /\
  (forall c, getCollection i (create cfg) = Some c ->
             In c (collections cfg) /\ identifier c = i) /\
  (isConfiguredCollection i (create cfg) = true
   <-> In i (map identifier (collections cfg))).
Proof.
  assert (Hget : getCollection i (create cfg)
                 = find (fun c => (identifier c =? i)%string) (rev (collections cfg))).
  { unfold getCollection, create. simpl. rewrite last_wins.
    now destruct (find _ (rev (collections cfg))). }
  split; [exact Hget|]. split.
  - intros c Hc. rewrite Hget in Hc. apply find_some in Hc as [Hin Hk].
    split; [now apply in_rev|now apply String.eqb_eq].
  - unfold isConfiguredCollection, map_has.
    change (map_get i (collectionsMap (create cfg))) with (getCollection i (create cfg)).
    rewrite Hget. split.
    + destruct (find _ (rev (collections cfg))) as [c|] eqn:E; [intros _|discriminate].
      apply find_some in E as [Hin Hk]. apply String.eqb_eq in Hk. subst i.
      apply in_map. now apply in_rev.
    + intros Hin. apply in_map_iff in Hin as [c [Hk Hin]].
      destruct (find _ (rev (collections cfg))) eqn:E; trivial.
      exfalso. apply in_rev in Hin. pose proof (find_none _ _ E c Hin) as Hn.
      simpl in Hn. apply String.eqb_neq in Hn. contradiction.
Qed.

Lemma uniqueInOrder_from (l : list string) :
  forall acc,
    NoDup acc ->
    NoDup (fold_left (fun s x => set_add x s) l acc) /\
    (forall x, In x (fold_left (fun s x => set_add x s) l acc) <-> In x acc \/ In x l).
Proof.
  induction l as [|y l IH]; intros acc Hnd; simpl.
  - split; [exact Hnd|]. intros x. tauto.
  - assert (Hadd : NoDup (set_add y acc) /\
                   forall x, In x (set_add y acc) <-> In x acc \/ x = y).
    { unfold set_add. destruct (set_has y acc) eqn:E.
      - split; [exact Hnd|]. intros x. split; [tauto|].
        intros [H| ->]; trivial. now apply CacheFacts.set_has_In.
      - split.
        + apply NoDup_app; trivial.
          * repeat constructor. intros [].
          * intros a Ha [<-|[]]. apply CacheFacts.set_has_In in Ha. congruence.
        + intros x. rewrite in_app_iff. simpl. intuition. }
    destruct Hadd as [Hnd' Hin']. destruct (IH (set_add y acc) Hnd') as [H1 H2].
    split; [exact H1|]. intros x. rewrite H2, Hin'. intuition.
Qed.

(** X23. [getAllCreators] and [getAllContributors] list every creator, or
    contributor, of the configured collections, each of them once. *)
Theorem creators_are_listed_once (m : Manager) :
  NoDup (getAllCreators m) /\
  (forall x, In x (getAllCreators m) <-> In x (map creator (getAllCollections m))) /\
  NoDup (getAllContributors m) /\
  (forall x, In x (getAllContributors m)
             <-> In x (map contributor (getAllCollections m))).
Proof.
  unfold getAllCreators, getAllContributors, getAllCollections, uniqueInOrder.
  destruct (uniqueInOrder_from (map creator (collections (config m))) [] (NoDup_nil _))
    as [H1 H2].
  destruct (uniqueInOrder_from (map contributor (collections (config m))) [] (NoDup_nil _))
    as [H3 H4].
  split; [exact H1|]. split; [intros x; rewrite H2; simpl; tauto|].
  split; [exact H3|]. intros x. rewrite H4. simpl. tauto.
Qed.

Lemma stats_last_wins (count : Album -> nat) (i : string) (l : list Album) :
  forall m,
    map_get i (fold_left (fun stats a => map_set (album_id a) (count a) stats) l m)
    = match find (fun a => (album_id a =? i)%string) (rev l) with
      | Some a => Some (count a)
      | None => map_get i m
      end.
Proof.
  induction l as [|x l IH]; intros m; simpl; trivial.
  rewrite IH, find_snoc.
  destruct (find _ (rev l)); trivial.
  destruct (String.eqb_spec (album_id x) i) as [<-|E].
  - apply map_get_set_same.
  - apply map_get_set_other. congruence.
Qed.

(** X24. The statistic [getAlbumStats] holds for an album id is the
    number of collections that [getCollectionsByAlbum] returns for the
    English name of the album with that id (the last one configured when
    several share the id); ids of no configured album have no statistic,
    and there are none at all when the configuration has no albums. *)
Theorem albumStats_count_the_collections_of_the_album (i : string) (m : Manager) :
  map_get i (getAlbumStats m)
  = option_map (fun a => List.length (getCollectionsByAlbum (album_nameEn a) m))
               (find (fun a => (album_id a =? i)%string) (rev (getAllAlbums m))) /\
  (albums (config m) = None -> getAlbumStats m = []) /\
  getCategoryStats m = getAlbumStats m.
Proof.
  split; [|split; [|reflexivity]].
  - unfold getAlbumStats, getAllAlbums, getCollectionsByAlbum.
    rewrite (stats_last_wins
               (fun a => List.length (filter (fun c => (album c =? album_nameEn a)%string)
                                             (collections (config m))))).
    now destruct (find _ (rev (orEmpty (albums (config m))))).
  - intros H. unfold getAlbumStats. now rewrite H.
Qed.

End CollectionFacts.

(* ================================================================== *)
(** ** Download URLs *)

Module UrlFacts.
Import ArchiveFetcher.

Lemma allChars_impl (p q : ascii -> bool) (s : string) :
  (forall c, p c = true -> q c = true) -> allChars p s = true -> allChars q s = true.
Proof.
  intros H. induction s as [|c s IH]; simpl; trivial.
  intros Hs. apply andb_prop in Hs as [Hc Hs]. now rewrite (H c Hc), IH.
Qed.

Lemma allChars_app (p : ascii -> bool) (a b : string) :
  allChars p (a ++ b) = allChars p a && allChars p b.
Proof. induction a as [|c a IH]; simpl; trivial. now rewrite IH, andb_assoc. Qed.

Lemma hexDigit_plain (n : nat) :
  isAlphaNum (hexDigit n) = true.
Proof. do 17 (destruct n as [|n]; [reflexivity|]). reflexivity. Qed.

Lemma isAlphaNum_plain (c : ascii) :
  isAlphaNum c = true ->
  Ascii.eqb c "/" = false /\ Ascii.eqb c "010" = false /\ Ascii.eqb c "013" = false
  /\ Ascii.eqb c "226" = false.
Proof.
  destruct c as [[] [] [] [] [] [] [] []]; vm_compute; intros H;
    repeat split; trivial; discriminate.
Qed.

Lemma isUnreserved_plain (c : ascii) :
  isUnreserved c = true ->
  Ascii.eqb c "/" = false /\ Ascii.eqb c "010" = false /\ Ascii.eqb c "013" = false
  /\ Ascii.eqb c "226" = false.
Proof.
  destruct c as [[] [] [] [] [] [] [] []]; vm_compute; intros H;
    repeat split; trivial; discriminate.
Qed.

Lemma isIdentifierChar_plain (c : ascii) :
  isIdentifierChar c = true -> Ascii.eqb c "/" = false.
Proof.
  destruct c as [[] [] [] [] [] [] [] []]; vm_compute; intros H; trivial; discriminate.
Qed.

(** What [encodeURIComponent] produces holds no ['/'] and no line
    terminator. *)
Lemma encoded_is_plain (s : string) :
  allChars (fun c => negb (Ascii.eqb c "/") && negb (Ascii.eqb c "010")
                     && negb (Ascii.eqb c "013") && negb (Ascii.eqb c "226"))
           (encodeURIComponent s) = true.
Proof.
  induction s as [|c s IH]; [reflexivity|]. cbn [encodeURIComponent].
  destruct (isUnreserved c) eqn:E.
  - cbn [allChars]. cbv beta. destruct (isUnreserved_plain c E) as (H1 & H2 & H3 & H4).
    now rewrite H1, H2, H3, H4, IH.
  - cbn [allChars]. cbv beta.
    destruct (isAlphaNum_plain _ (hexDigit_plain (nat_of_ascii c / 16)))
      as (H1 & H2 & H3 & H4).
    destruct (isAlphaNum_plain _ (hexDigit_plain (nat_of_ascii c mod 16)))
      as (G1 & G2 & G3 & G4).
    rewrite H1, H2, H3, H4, G1, G2, G3, G4, IH. reflexivity.
Qed.

Lemma no_line_terminator (s : string) :
  allChars (fun c => negb (Ascii.eqb c "/") && negb (Ascii.eqb c "010")
                     && negb (Ascii.eqb c "013") && negb (Ascii.eqb c "226")) s = true ->
  hasLineTerminator s = false.
Proof.
  induction s as [|c s IH]; simpl; trivial.
  intros H. apply andb_prop in H as [Hc Hs].
  apply andb_prop in Hc as [Hc H226]. apply andb_prop in Hc as [Hc H13].
  apply andb_prop in Hc as [_ H10].
  apply negb_true_iff in H10, H13, H226.
  rewrite H10, H13, H226, (IH Hs). reflexivity.
Qed.

Lemma spanNonSlash_stops (a rest : string) :
  allChars (fun c => negb (Ascii.eqb c "/")) a = true ->
  spanNonSlash (a ++ String "/" rest) = (a, String "/" rest).
Proof.
  induction a as [|c a IH]; simpl; trivial.
  intros H. apply andb_prop in H as [Hc Ha]. apply negb_true_iff in Hc.
  now rewrite Hc, (IH Ha).
Qed.

Lemma substring_all (s : string) : String.substring 0 (String.length s) s = s.
Proof. induction s as [|c s IH]; simpl; trivial. now rewrite IH. Qed.

Lemma encode_nonempty (s : string) : s <> "" -> encodeURIComponent s <> "".
Proof. destruct s as [|c s]; [congruence|]. simpl. destruct (isUnreserved c); discriminate. Qed.

Lemma matchDownloadUrl_at (s : string) (r : string * string) :
  matchUrlAt s = Some r -> matchDownloadUrl s = Some r.
Proof.
  intros H. destruct s as [|c s]; [discriminate H|].
  cbn [matchDownloadUrl]. now rewrite H.
Qed.

(** X25. The URL [getDownloadUrl] (and so [getStreamUrl]) builds for a
    valid identifier and a file name that is not empty has the shape
    [startDownload] looks for: the pattern matches it and yields the
    identifier and the encoded file name, so a lecture whose [fileUrl] was
    built this way does not fail with ['Invalid file URL']. *)
Theorem download_urls_match_the_pattern (identifier fileName : string) :
  isValidIdentifier identifier = true ->
  fileName <> "" ->
  matchDownloadUrl (getDownloadUrl identifier fileName)
  = Some (identifier, encodeURIComponent fileName) /\
  matchDownloadUrl (getStreamUrl identifier fileName)
  = Some (identifier, encodeURIComponent fileName).
Proof.
  intros Hid Hfile.
  assert (Hne : identifier <> "") by (destruct identifier; [discriminate|congruence]).
  assert (Hns : allChars (fun c => negb (Ascii.eqb c "/")) identifier = true).
  { apply (allChars_impl isIdentifierChar).
    - intros c Hc. now rewrite (isIdentifierChar_plain c Hc).
    - destruct identifier; [discriminate|exact Hid]. }
  assert (Hat : matchUrlAt ("/download/" ++ identifier ++ "/" ++ encodeURIComponent fileName)
                = Some (identifier, encodeURIComponent fileName)).
  { unfold matchUrlAt. simpl. rewrite Nat.sub_0_r, substring_all.
    change (identifier ++ String "/" (encodeURIComponent fileName))
      with (identifier ++ String "/" (encodeURIComponent fileName)).
    rewrite (spanNonSlash_stops identifier (encodeURIComponent fileName) Hns).
    destruct identifier as [|c i']; [congruence|].
    pose proof (encode_nonempty fileName Hfile) as He.
    pose proof (encoded_is_plain fileName) as Hp.
    apply no_line_terminator in Hp.
    destruct (encodeURIComponent fileName) as [|e rest]; [congruence|].
    now rewrite Hp. }
  assert (Hurl : matchDownloadUrl (getDownloadUrl identifier fileName)
                 = Some (identifier, encodeURIComponent fileName)).
  { unfold getDownloadUrl, ARCHIVE_API_BASE, DOWNLOAD_ENDPOINT.
    change ("https://archive.org" ++ "/download" ++ "/" ++ identifier ++ "/"
            ++ encodeURIComponent fileName)
      with ("https://archive.org"
            ++ ("/download/" ++ identifier ++ "/" ++ encodeURIComponent fileName)).
    assert (Hskip : forall c s, String.prefix "/download/" (String c s) = false ->
                                matchDownloadUrl (String c s) = matchDownloadUrl s).
    { intros c s Hp. simpl. unfold matchUrlAt. now rewrite Hp. }
    cbn [append].
    repeat (rewrite Hskip by reflexivity).
    apply matchDownloadUrl_at. exact Hat. }
  split; exact Hurl.
Qed.

Lemma download_url_example :
  isValidIdentifier "al-muqaddimah_01" = true /\
  "Dars 01.mp3" <> "" /\
  getDownloadUrl "al-muqaddimah_01" "Dars 01.mp3"
  = "https://archive.org/download/al-muqaddimah_01/Dars%2001.mp3" /\
  matchDownloadUrl (getDownloadUrl "al-muqaddimah_01" "Dars 01.mp3")
  = Some ("al-muqaddimah_01", "Dars%2001.mp3").
Proof.
  split; [reflexivity|]. split; [discriminate|]. split; [reflexivity|].
  exact (proj1 (download_urls_match_the_pattern "al-muqaddimah_01" "Dars 01.mp3"
                  eq_refl ltac:(discriminate))).
Defined.

End UrlFacts.

(* ================================================================== *)
(** ** Decoding the file name *)

Module DecodeFacts.
Import ArchiveFetcher ManagerFacts QueueFacts MoreManagerFacts.

Lemma hexValue_hexDigit (q : nat) : (q < 16)%nat -> hexValue (hexDigit q) = Some q.
Proof. intros H. do 16 (destruct q as [|q]; [reflexivity|]). lia. Qed.

Lemma escape_read (c : ascii) (rest : string) :
  readEscape (String "%" (String (hexDigit (nat_of_ascii c / 16))
                            (String (hexDigit (nat_of_ascii c mod 16)) rest)))
  = Some (nat_of_ascii c, rest).
Proof.
  pose proof (nat_ascii_bounded c) as Hb.
  unfold readEscape. rewrite Ascii.eqb_refl.
  rewrite !hexValue_hexDigit.
  - do 2 f_equal. symmetry. apply Nat.div_mod_eq.
  - apply Nat.mod_upper_bound. discriminate.
  - apply Nat.Div0.div_lt_upper_bound. exact Hb.
Qed.

Lemma encode_escaped (c : ascii) (rest : string) :
  isUnreserved c = false ->
  encodeURIComponent (String c rest)
  = String "%" (String (hexDigit (nat_of_ascii c / 16))
                  (String (hexDigit (nat_of_ascii c mod 16)) (encodeURIComponent rest))).
Proof. intros H. cbn [encodeURIComponent]. now rewrite H. Qed.

Lemma high_not_unreserved (c : ascii) :
  (nat_of_ascii c <? 128)%nat = false -> isUnreserved c = false.
Proof.
  destruct c as [[] [] [] [] [] [] [] []]; vm_compute; intros H; trivial; discriminate.
Qed.

Lemma unreserved_not_percent (c : ascii) :
  isUnreserved c = true -> Ascii.eqb c "%" = false.
Proof.
  destruct c as [[] [] [] [] [] [] [] []]; vm_compute; intros H; trivial; discriminate.
Qed.

Lemma encode_longer (c : ascii) (rest : string) :
  (S (String.length (encodeURIComponent rest))
   <= String.length (encodeURIComponent (String c rest)))%nat.
Proof.
  cbn [encodeURIComponent]. destruct (isUnreserved c); cbn [String.length]; lia.
Qed.

Lemma leadingOnes_cases (b : nat) :
  (leadingOnes b = 0%nat /\ (b <? 128)%nat = true) \/
  (leadingOnes b <> 0%nat /\ (b <? 128)%nat = false).
Proof.
  unfold leadingOnes. destruct (b <? 128)%nat; [now left|right].
  split; trivial. repeat destruct (_ <? _)%nat; discriminate.
Qed.

Lemma continuation_high (b : nat) : isContinuation b = true -> (b <? 128)%nat = false.
Proof.
  unfold isContinuation. rewrite andb_true_iff, !Nat.leb_le, Nat.ltb_ge. lia.
Qed.

Lemma wellFormed_high (b0 : nat) (bs : list nat) :
  wellFormed (b0 :: bs) = true -> Forall (fun b => (b <? 128)%nat = false) bs.
Proof.
  destruct bs as [|b1 [|b2 [|b3 [|b4 bs]]]]; try discriminate; cbn [wellFormed].
  - rewrite andb_true_iff. intros [_ H1]. repeat constructor. now apply continuation_high.
  - rewrite andb_true_iff. intros [H1 H2]. repeat constructor;
      [|now apply continuation_high].
    destruct (b0 =? 224)%nat; [|destruct (b0 =? 237)%nat].
    + apply andb_prop in H1 as [H1 _]. apply Nat.leb_le in H1. apply Nat.ltb_ge. lia.
    + apply andb_prop in H1 as [H1 _]. apply Nat.leb_le in H1. apply Nat.ltb_ge. lia.
    + apply andb_prop in H1 as [_ H1]. now apply continuation_high.
  - rewrite !andb_true_iff. intros [[H1 H2] H3]. repeat constructor;
      [|now apply continuation_high|now apply continuation_high].
    destruct (b0 =? 240)%nat; [|destruct (b0 =? 244)%nat].
    + apply andb_prop in H1 as [H1 _]. apply Nat.leb_le in H1. apply Nat.ltb_ge. lia.
    + apply andb_prop in H1 as [H1 _]. apply Nat.leb_le in H1. apply Nat.ltb_ge. lia.
    + apply andb_prop in H1 as [_ H1]. now apply continuation_high.
Qed.

Lemma decodeFrom_plain (fuel : nat) (c : ascii) (x : string) :
  Ascii.eqb c "%" = false ->
  decodeFrom (S fuel) (String c x) = option_map (String c) (decodeFrom fuel x).
Proof. intros H. cbn [decodeFrom]. now rewrite H. Qed.

(** One round of the loop on an escaped byte. *)
Lemma decodeFrom_escaped (fuel : nat) (c : ascii) (x : string) :
  decodeFrom (S fuel)
    (String "%" (String (hexDigit (nat_of_ascii c / 16))
                   (String (hexDigit (nat_of_ascii c mod 16)) x)))
  = let n := leadingOnes (nat_of_ascii c) in
    if (n =? 0)%nat then option_map (String c) (decodeFrom fuel x)
    else if (n =? 1)%nat || (4 <? n)%nat then None
    else
      match readEscapes (n - 1) x with
      | None => None
      | Some (bs, rest2) =>
          if wellFormed (nat_of_ascii c :: bs) then
            option_map (append (stringOfBytes (nat_of_ascii c :: bs)))
                       (decodeFrom fuel rest2)
          else None
      end.
Proof.
  cbn [decodeFrom]. rewrite Ascii.eqb_refl, escape_read. cbv zeta.
  now rewrite ascii_nat_embedding.
Qed.

(** [decodeURIComponent] undoes [encodeURIComponent]. *)
Lemma decode_encode (n : nat) :
  forall s fuel,
    (String.length s <= n)%nat -> wellFormedUtf8 s = true ->
    (String.length (encodeURIComponent s) <= fuel)%nat ->
    decodeFrom fuel (encodeURIComponent s) = Some s.
Proof.
  induction n as [|n IH]; intros s fuel Hn Hu Hf.
  - destruct s; [now destruct fuel|simpl in Hn; lia].
  - destruct s as [|c0 rest]; [now destruct fuel|].
    pose proof (encode_longer c0 rest) as Hlen.
    destruct fuel as [|fuel]; [lia|].
    cbn [String.length] in Hn. cbn [wellFormedUtf8] in Hu. cbv zeta in Hu.
    destruct (leadingOnes_cases (nat_of_ascii c0)) as [[El Hlow]|[El Hhigh]].
    + rewrite El in Hu.
      assert (Hrest : decodeFrom fuel (encodeURIComponent rest) = Some rest)
        by (apply IH; trivial; lia).
      destruct (isUnreserved c0) eqn:Eu.
      * cbn [encodeURIComponent]. rewrite Eu.
        rewrite decodeFrom_plain by now apply unreserved_not_percent.
        now rewrite Hrest.
      * rewrite encode_escaped by exact Eu. rewrite decodeFrom_escaped. cbv zeta.
        rewrite El. cbn [Nat.eqb]. now rewrite Hrest.
    + rewrite encode_escaped by now apply high_not_unreserved.
      rewrite decodeFrom_escaped. cbv zeta.
      destruct (leadingOnes (nat_of_ascii c0)) as [|[|[|[|[|m]]]]] eqn:E;
        try contradiction; try discriminate Hu.
      * destruct rest as [|c1 r]; [discriminate Hu|].
        apply andb_prop in Hu as [Hw Hr].
        pose proof (wellFormed_high _ _ Hw) as Hh.
        inversion Hh as [|? ? H1 _]; subst.
        pose proof (encode_longer c1 r).
        rewrite (encode_escaped c1) by now apply high_not_unreserved.
        cbn [Nat.eqb Nat.ltb Nat.leb orb Nat.sub readEscapes].
        rewrite escape_read, Hw, IH by (trivial; cbn [String.length] in *; lia).
        cbn [option_map stringOfBytes fold_right append].
        now rewrite !ascii_nat_embedding.
      * destruct rest as [|c1 [|c2 r]]; try discriminate Hu.
        apply andb_prop in Hu as [Hw Hr].
        pose proof (wellFormed_high _ _ Hw) as Hh.
        inversion Hh as [|? ? H1 Hh1]; subst. inversion Hh1 as [|? ? H2 _]; subst.
        pose proof (encode_longer c1 (String c2 r)). pose proof (encode_longer c2 r).
        rewrite (encode_escaped c1), (encode_escaped c2) by now apply high_not_unreserved.
        cbn [Nat.eqb Nat.ltb Nat.leb orb Nat.sub readEscapes].
        rewrite !escape_read, Hw, IH by (trivial; cbn [String.length] in *; lia).
        cbn [option_map stringOfBytes fold_right append].
        now rewrite !ascii_nat_embedding.
      * destruct rest as [|c1 [|c2 [|c3 r]]]; try discriminate Hu.
        apply andb_prop in Hu as [Hw Hr].
        pose proof (wellFormed_high _ _ Hw) as Hh.
        inversion Hh as [|? ? H1 Hh1]; subst. inversion Hh1 as [|? ? H2 Hh2]; subst.
        inversion Hh2 as [|? ? H3 _]; subst.
        pose proof (encode_longer c1 (String c2 (String c3 r))).
        pose proof (encode_longer c2 (String c3 r)). pose proof (encode_longer c3 r).
        rewrite (encode_escaped c1), (encode_escaped c2), (encode_escaped c3)
          by now apply high_not_unreserved.
        cbn [Nat.eqb Nat.ltb Nat.leb orb Nat.sub readEscapes].
        rewrite !escape_read, Hw, IH by (trivial; cbn [String.length] in *; lia).
        cbn [option_map stringOfBytes fold_right append].
        now rewrite !ascii_nat_embedding.
Qed.

(** X29. When the file name in the URL of the lecture holds a ['%'] that
    does not start a well-formed escape, [decodeURIComponent] throws inside
    the [try] block: the task, first marked [downloading], becomes [failed]
    with the message of the [URIError]; no fetch is issued, nothing is
    cached, the slot and the controller are released and [processQueue]
    runs. *)
Theorem malformed_escape_fails_before_the_fetch
    (k : nat) (i : string) (rest : list Suspended) (w : World) (t : DownloadTask)
    (lecture : Lecture) (identifier fileName : string) :
  takeNth k (inflight w) = Some (AwaitLecture i, rest) ->
  getLecture i (db w) = Some lecture ->
  matchDownloadUrl (fileUrl lecture) = Some (identifier, fileName) ->
  decodeURIComponent fileName = None ->
  map_get i (tasks (store w)) = Some t ->
  exists w',
    step (EvLectureLoaded k) w = Some w' /\
    map_get i (tasks (store w'))
    = Some {| lectureId := lectureId t; status := failed; progress := progress t;
              bytesDownloaded := bytesDownloaded t; totalBytes := totalBytes t;
              startedAt := Some (clock w); completedAt := completedAt t;
              error := Some URI_MALFORMED |} /\
    set_has i (activeDownloads (store w')) = false /\
    map_get i (abortControllers w') = None /\
    audioCache (db w') = audioCache (db w) /\
    (exists started,
       inflight w' = (rest ++ map (fun x => AwaitLecture (lectureId x)) started)%list /\
       Forall (fun x => status x = pending) started).
Proof.
  intros Hk Hl Hm Hd Ht. eexists. simpl. rewrite Hk. unfold startDownload_loaded.
  change (db (with_inflight w rest)) with (db w). rewrite Hl, Hm, Hd.
  split; [reflexivity|].
  match goal with
  | |- context [finallyRelease i (updateTask i ?u2 (with_active (updateTask i ?u1 ?x) ?a))] =>
      pose proof (updateTask_get i u1 x t Ht) as Hg1;
      destruct (updateTask_frame i u1 x) as (_ & _ & Hc1 & _ & Hi1 & _ & _);
      destruct (caught_and_released i u2 (with_active (updateTask i u1 x) a) _ Hg1)
        as (H1 & H2 & H3 & H4 & started & H5 & H6 & _)
  end.
  split; [rewrite H1; reflexivity|].
  split; [exact H3|]. split; [exact H4|].
  split; [rewrite H2; exact Hc1|].
  exists started. split; [|exact H6].
  rewrite H5. f_equal. exact Hi1.
Qed.

(** A lecture whose file name holds a percent sign that was not
    encoded. *)
Lemma malformed_escape_example :
  matchDownloadUrl (fileUrl (lectureOf "100%" 100)) = Some ("lectures", "100%.mp3") /\
  decodeURIComponent "100%.mp3" = None /\
  exists w w',
    run [EvQueue (lectureOf "100%" 100)]
        (initialWorld (mkDB [lectureOf "100%" 100] [] []) plenty 10) = Some w /\
    step (EvLectureLoaded 0) w = Some w' /\
    option_map status (map_get "100%" (tasks (store w'))) = Some failed /\
    option_map error (map_get "100%" (tasks (store w'))) = Some (Some "URI malformed") /\
    inflight w' = [].
Proof.
  split; [reflexivity|]. split; [reflexivity|].
  eexists.
  destruct (malformed_escape_fails_before_the_fetch 0 "100%" []
              (snd (queueDownload (lectureOf "100%" 100)
                      (initialWorld (mkDB [lectureOf "100%" 100] [] []) plenty 10)))
              (freshTask (lectureOf "100%" 100)) (lectureOf "100%" 100)
              "lectures" "100%.mp3" eq_refl eq_refl eq_refl eq_refl eq_refl)
    as (w' & Hs & Ht & _).
  exists w'. split; [vm_compute; reflexivity|]. split; [exact Hs|].
  rewrite Ht. split; [reflexivity|]. split; [reflexivity|].
  revert Hs. vm_compute. now intros [= <-].
Defined.

Lemma set_has_add (k : string) (s : list string) : set_has k (set_add k s) = true.
Proof.
  unfold set_add. destruct (set_has k s) eqn:E; trivial.
  unfold set_has. rewrite existsb_app. cbn [existsb].
  now rewrite String.eqb_refl, orb_true_r.
Qed.

(** X30. [decodeURIComponent] undoes [encodeURIComponent] on the bytes of
    every well-formed string. So when the URL of a lecture holds an encoded
    file name, as the URLs that [getDownloadUrl] builds do, the lookup of
    the lecture is followed by the fetch: the task is [downloading] with
    its start time, the lecture is in the active downloads with a new abort
    controller, and the invocation waits for the fetcher. *)
Theorem encoded_file_names_are_fetched
    (k : nat) (i : string) (rest : list Suspended) (w : World) (t : DownloadTask)
    (lecture : Lecture) (identifier fileName : string) :
  wellFormedUtf8 fileName = true ->
  takeNth k (inflight w) = Some (AwaitLecture i, rest) ->
  getLecture i (db w) = Some lecture ->
  matchDownloadUrl (fileUrl lecture) = Some (identifier, encodeURIComponent fileName) ->
  map_get i (tasks (store w)) = Some t ->
  decodeURIComponent (encodeURIComponent fileName) = Some fileName /\
  exists w',
    step (EvLectureLoaded k) w = Some w' /\
    map_get i (tasks (store w'))
    = Some {| lectureId := lectureId t; status := downloading; progress := progress t;
              bytesDownloaded := bytesDownloaded t; totalBytes := totalBytes t;
              startedAt := Some (clock w); completedAt := completedAt t;
              error := error t |} /\
    set_has i (activeDownloads (store w')) = true /\
    map_get i (abortControllers w') = Some (nextController w) /\
    inflight w' = (rest ++ [AwaitFetch i lecture (nextController w)])%list.
Proof.
  intros Hu Hk Hl Hm Ht.
  assert (Hd : decodeURIComponent (encodeURIComponent fileName) = Some fileName).
  { unfold decodeURIComponent. apply (decode_encode (String.length fileName)); trivial. }
  split; [exact Hd|].
  eexists. simpl. rewrite Hk. unfold startDownload_loaded.
  change (db (with_inflight w rest)) with (db w). rewrite Hl, Hm, Hd.
  split; [reflexivity|].
  match goal with
  | |- context [with_active (updateTask i ?u ?x) ?a] =>
      pose proof (updateTask_get i u x t Ht) as Hg;
      destruct (updateTask_frame i u x) as (Ha & _ & _ & _ & Hi & Hab & _)
  end.
  split; [exact Hg|]. split; [apply set_has_add|].
  split.
  - etransitivity; [exact (f_equal (map_get i) Hab)|apply map_get_set_same].
  - cbn [inflight with_inflight]. f_equal. exact Hi.
Qed.

Lemma encoded_file_name_example :
  wellFormedUtf8 "Dars 01.mp3" = true /\
  decodeURIComponent (encodeURIComponent "Dars 01.mp3") = Some "Dars 01.mp3" /\
  exists w w',
    run [EvQueue (mkLecture "d1" (getDownloadUrl "lectures" "Dars 01.mp3") 100 None None)]
        (initialWorld
           (mkDB [mkLecture "d1" (getDownloadUrl "lectures" "Dars 01.mp3") 100 None None]
                 [] []) plenty 10) = Some w /\
    step (EvLectureLoaded 0) w = Some w' /\
    option_map status (map_get "d1" (tasks (store w'))) = Some downloading.
Proof.
  split; [reflexivity|].
  destruct (encoded_file_names_are_fetched 0 "d1" []
              (snd (queueDownload
                      (mkLecture "d1" (getDownloadUrl "lectures" "Dars 01.mp3") 100 None None)
                      (initialWorld
                         (mkDB [mkLecture "d1" (getDownloadUrl "lectures" "Dars 01.mp3")
                                          100 None None] [] []) plenty 10)))
              (freshTask (mkLecture "d1" (getDownloadUrl "lectures" "Dars 01.mp3")
                                    100 None None))
              (mkLecture "d1" (getDownloadUrl "lectures" "Dars 01.mp3") 100 None None)
              "lectures" "Dars 01.mp3" eq_refl eq_refl eq_refl eq_refl eq_refl)
    as (Hd & w' & Hs & Ht & _).
  split; [exact Hd|].
  eexists. exists w'. split; [vm_compute; reflexivity|]. split; [exact Hs|].
  now rewrite Ht.
Defined.

End DecodeFacts.

(* ================================================================== *)
(** ** Tasks and their persisted records *)

Module PersistenceFacts.
Import DownloadManager ManagerFacts QueueFacts.

(** X26. [resumeDownload] changes nothing of a task but its status, which
    becomes [pending]: the progress, the byte counts and an error text left
    by an earlier abort or failure stay until a progress report, a [retry]
    or a new enqueue replaces them. *)
Theorem resumeDownload_only_resets_the_status (i : string) (w : World) (t : DownloadTask) :
  map_get i (tasks (store w)) = Some t ->
  map_get i (tasks (store (resumeDownload i w)))
  = Some {| lectureId := lectureId t; status := pending; progress := progress t;
            bytesDownloaded := bytesDownloaded t; totalBytes := totalBytes t;
            startedAt := startedAt t; completedAt := completedAt t;
            error := error t |} /\
  (forall j, j <> i ->
     map_get j (tasks (store (resumeDownload i w))) = map_get j (tasks (store w))) /\
  activeDownloads (store (resumeDownload i w)) = activeDownloads (store w).
Proof.
  intros Ht. unfold resumeDownload. rewrite processQueue_store.
  destruct (updateTask_frame i (statusOnly pending) w) as (Ha & _).
  split; [now rewrite (updateTask_get _ _ _ _ Ht)|].
  split; [intros j Hj; now apply updateTask_get_other|exact Ha].
Qed.

Lemma resumeDownload_keeps_the_error_example :
  (exists t, map_get "A" (tasks (store (startDownload_aborted "A" abortingWorld))) = Some t) /\
  option_map error
    (map_get "A" (tasks (store (resumeDownload "A" (startDownload_aborted "A" abortingWorld)))))
  = Some (Some "Download cancelled").
Proof.
  split; [eexists; vm_compute; reflexivity|].
  rewrite (proj1 (resumeDownload_only_resets_the_status "A"
                    (startDownload_aborted "A" abortingWorld) _ eq_refl)).
  reflexivity.
Defined.

(** *** The save that nobody awaits *)

Ltac same_worlds :=
  let a := fresh "a" in
  let b := fresh "b" in
  let H := fresh "H" in
  intros a b H;
  destruct H as (? & ? & ? & ? & ? & ? & ? & ? & ?);
  destruct a as [? ? ? ? [? ? ?] ? ? ?];
  destruct b as [? ? ? ? [? ? ?] ? ? ?];
  cbn [store abortControllers abortedSignals nextController db lectures audioCache
       estimate clock inflight] in *;
  subst.

Lemma same_refl (w : World) : sameButDownloads w w.
Proof. repeat split. Qed.

Lemma same_with_inflight l :
  forall a b, sameButDownloads a b -> sameButDownloads (with_inflight a l) (with_inflight b l).
Proof. same_worlds. repeat split. Qed.

Lemma same_updateTask i u :
  forall a b, sameButDownloads a b -> sameButDownloads (updateTask i u a) (updateTask i u b).
Proof.
  same_worlds. unfold updateTask. cbn [store tasks].
  destruct (map_get i _); repeat split.
Qed.

Lemma same_fold {A} (f : World -> A -> World) (l : list A) :
  (forall x a b, sameButDownloads a b -> sameButDownloads (f a x) (f b x)) ->
  forall a b, sameButDownloads a b ->
    sameButDownloads (fold_left f l a) (fold_left f l b).
Proof. intros Hf. induction l as [|x l IH]; simpl; auto. Qed.

Lemma same_processQueue :
  forall a b, sameButDownloads a b -> sameButDownloads (processQueue a) (processQueue b).
Proof.
  intros a b H. rewrite !processQueue_starts.
  rewrite (tasksToStart_store a b (proj1 H)).
  replace (inflight a) with (inflight b) by (symmetry; apply H).
  now apply same_with_inflight.
Qed.

Lemma same_finallyRelease i :
  forall a b, sameButDownloads a b ->
    sameButDownloads (finallyRelease i a) (finallyRelease i b).
Proof.
  intros a b H. unfold finallyRelease. apply same_processQueue.
  revert a b H. same_worlds. repeat split.
Qed.

Lemma same_abortController i :
  forall a b, sameButDownloads a b ->
    sameButDownloads (abortController i a) (abortController i b).
Proof.
  same_worlds. unfold abortController. cbn [abortControllers].
  destruct (map_get i _); repeat split.
Qed.

Lemma same_caught i thrown :
  forall a b, sameButDownloads a b ->
    sameButDownloads (startDownload_caught i thrown a) (startDownload_caught i thrown b).
Proof.
  intros a b H. destruct thrown; simpl; unfold startDownload_aborted, startDownload_failed;
    now apply same_finallyRelease, same_updateTask.
Qed.

Lemma same_cacheAudio i blob :
  forall a b, sameButDownloads a b ->
    sameButDownloads (with_db a (cacheAudio (clock a) i blob (db a)))
                     (with_db b (cacheAudio (clock b) i blob (db b))).
Proof. same_worlds. repeat split. Qed.

Lemma same_register i :
  forall a b, sameButDownloads a b ->
    sameButDownloads
      (with_controllers a (map_set i (nextController a) (abortControllers a))
         (abortedSignals a) (S (nextController a)))
      (with_controllers b (map_set i (nextController b) (abortControllers b))
         (abortedSignals b) (S (nextController b))).
Proof. same_worlds. repeat split. Qed.

Lemma same_activate i :
  forall a b, sameButDownloads a b ->
    sameButDownloads (with_active a (set_add i (activeDownloads (store a))))
                     (with_active b (set_add i (activeDownloads (store b)))).
Proof. same_worlds. repeat split. Qed.

Lemma same_startDownload_loaded i :
  forall a b, sameButDownloads a b ->
    sameButDownloads (fst (startDownload_loaded i a)) (fst (startDownload_loaded i b)) /\
    snd (startDownload_loaded i a) = snd (startDownload_loaded i b).
Proof.
  intros a b H. pose proof H as (H1 & H2 & H3 & H4 & H5 & H6 & H7 & H8 & H9).
  unfold startDownload_loaded, getLecture. rewrite H5.
  destruct (idb_get id i (lectures (db b))) as [lecture|]; cbn [fst snd];
    [|split; [now apply same_updateTask|reflexivity]].
  cbv zeta.
  replace (clock (with_controllers a (map_set i (nextController a) (abortControllers a))
                    (abortedSignals a) (S (nextController a))))
    with (clock (with_controllers b (map_set i (nextController b) (abortControllers b))
                    (abortedSignals b) (S (nextController b))))
    by (symmetry; exact H8).
  destruct (matchDownloadUrl _) as [[identifier fileName]|]; cbn [fst snd];
    [destruct (decodeURIComponent fileName); cbn [fst snd]|];
    (split; [|try reflexivity]);
    auto 8 using same_finallyRelease, same_updateTask, same_activate, same_register.
  now rewrite H4.
Qed.

Lemma same_startDownload_fetched i lecture blob :
  forall a b, sameButDownloads a b ->
    sameButDownloads (startDownload_fetched i lecture blob a)
                     (startDownload_fetched i lecture blob b).
Proof.
  intros a b H. unfold startDownload_fetched.
  apply same_finallyRelease.
  replace (clock a) with (clock b) by (symmetry; apply H).
  cbn [clock with_db].
  replace (clock a) with (clock b) by (symmetry; apply H).
  apply same_updateTask. revert a b H. same_worlds. repeat split.
Qed.

Lemma same_queueDownload lecture :
  forall a b, sameButDownloads a b ->
    fst (queueDownload lecture a) = fst (queueDownload lecture b) /\
    sameButDownloads (snd (queueDownload lecture a)) (snd (queueDownload lecture b)).
Proof.
  intros a b H. unfold queueDownload.
  replace (store a) with (store b) by (symmetry; apply H).
  assert (Hc : checkStorageAvailability (fileSize lecture) a
               = checkStorageAvailability (fileSize lecture) b).
  { unfold checkStorageAvailability, getStorageStats, idb_getAll.
    replace (estimate a) with (estimate b) by (symmetry; apply H).
    replace (audioCache (db a)) with (audioCache (db b)) by (symmetry; apply H).
    reflexivity. }
  rewrite Hc.
  destruct (match map_get (id lecture) (tasks (store b)) with
            | Some task => _ | None => false end); [now split|].
  destruct (negb _); [now split|]. cbn [fst snd]. split; trivial.
  apply same_processQueue. clear Hc. revert a b H. same_worlds. repeat split.
Qed.

Lemma same_cancelDownload i :
  forall a b, sameButDownloads a b ->
    sameButDownloads (cancelDownload i a) (cancelDownload i b).
Proof.
  intros a b H. apply (same_abortController i) in H. unfold cancelDownload.
  revert H. generalize (abortController i a), (abortController i b). clear a b.
  same_worlds. cbn. unfold getLecture. cbn.
  destruct (idb_get id i _); repeat split.
Qed.

Lemma same_pauseAll :
  forall a b, sameButDownloads a b -> sameButDownloads (pauseAll a) (pauseAll b).
Proof.
  intros a b H. unfold pauseAll.
  replace (abortControllers a) with (abortControllers b) by (symmetry; apply H).
  apply same_fold.
  - intros x a' b' H'. apply same_updateTask. revert a' b' H'. same_worlds. repeat split.
  - revert a b H. same_worlds. repeat split.
Qed.

Lemma same_resumeAll :
  forall a b, sameButDownloads a b -> sameButDownloads (resumeAll a) (resumeAll b).
Proof.
  intros a b H. unfold resumeAll. apply same_processQueue.
  replace (tasks (store (with_isPaused a false)))
    with (tasks (store (with_isPaused b false)))
    by (cbn; f_equal; symmetry; apply H).
  apply same_fold.
  - intros x a' b' H'. destruct (Status_eqb _ _); trivial. now apply same_updateTask.
  - revert a b H. same_worlds. repeat split.
Qed.

Lemma same_freeUpSpace n :
  forall a b, sameButDownloads a b ->
    fst (freeUpSpace n a) = fst (freeUpSpace n b) /\
    sameButDownloads (snd (freeUpSpace n a)) (snd (freeUpSpace n b)).
Proof.
  same_worlds. unfold freeUpSpace, getStorageStats, evictToFreeSpace, idb_getAll.
  cbn [db estimate audioCache].
  destruct (_ >=? _); [split; [reflexivity|repeat split]|].
  destruct (evictLoop _ _ _ _) as [freed toDelete]. cbn [fst snd]. split; trivial.
  apply same_fold.
  - intros x a' b' H'.
    replace (tasks (store a')) with (tasks (store b'))
      by (symmetry; f_equal; apply H').
    destruct (_ && _); trivial. revert a' b' H'. same_worlds. repeat split.
  - repeat split.
Qed.

(** A step other than the loading of the persisted tasks does not look at
    the [downloads] store. *)
Lemma step_ignores_downloads (e : Event) (a b : World) :
  e <> EvLoad -> sameButDownloads a b ->
  match step e a, step e b with
  | Some a', Some b' => sameButDownloads a' b'
  | None, None => True
  | _, _ => False
  end.
Proof.
  intros He H. pose proof H as (H1 & H2 & H3 & H4 & H5 & H6 & H7 & H8 & H9).
  destruct e; cbn [step]; try rewrite H9; try rewrite H3.
  - contradiction.
  - now apply same_queueDownload.
  - unfold pauseDownload. now apply same_updateTask, same_abortController.
  - unfold resumeDownload. now apply same_processQueue, same_updateTask.
  - unfold retryDownload. now apply same_processQueue, same_updateTask.
  - now apply same_cancelDownload.
  - now apply same_pauseAll.
  - now apply same_resumeAll.
  - now apply same_freeUpSpace.
  - destruct (dt <? 0); trivial. rewrite H8. clear - H. revert a b H. same_worlds.
    repeat split.
  - destruct (takeNth k (inflight b)) as [[[i|i l c] rest]|]; trivial.
    destruct (same_startDownload_loaded i _ _ (same_with_inflight rest a b H)) as [Hw Hs].
    destruct (startDownload_loaded i (with_inflight a rest)) as [wa sa].
    destruct (startDownload_loaded i (with_inflight b rest)) as [wb sb].
    cbn [fst snd] in Hw, Hs. subst sb. destruct sa; trivial.
    replace (inflight wa) with (inflight wb) by (symmetry; apply Hw).
    now apply same_with_inflight.
  - destruct (nth_error (inflight b) k) as [[i|i l c]|]; trivial.
    destruct (total >? 0); trivial. unfold onProgress. now apply same_updateTask.
  - destruct (takeNth k (inflight b)) as [[[i|i l c] rest]|]; trivial.
    now apply same_startDownload_fetched, same_with_inflight.
  - destruct (takeNth k (inflight b)) as [[[i|i l c] rest]|]; trivial.
    destruct (existsb _ _); trivial.
    exact (same_caught i AbortError _ _ (same_with_inflight rest a b H)).
  - destruct (takeNth k (inflight b)) as [[[i|i l c] rest]|]; trivial.
    exact (same_caught i (OtherError message) _ _ (same_with_inflight rest a b H)).
  - destruct (takeNth k (inflight b)) as [[[i|i l c] rest]|]; trivial.
    unfold startDownload_rejected. destruct write; apply same_caught.
    + now apply same_with_inflight.
    + now apply same_cacheAudio, same_with_inflight.
  - clear - H. revert a b H. same_worlds. repeat split.
Qed.

Lemma run_ignores_downloads (events : list Event) :
  ~ In EvLoad events ->
  forall a b, sameButDownloads a b ->
    match run events a, run events b with
    | Some a', Some b' => sameButDownloads a' b'
    | None, None => True
    | _, _ => False
    end.
Proof.
  induction events as [|e events IH]; intros Hno a b H; cbn [run]; trivial.
  assert (He : e <> EvLoad) by (intros ->; apply Hno; now left).
  pose proof (step_ignores_downloads e a b He H) as Hs.
  destruct (step e a) as [a'|], (step e b) as [b'|]; trivial; try contradiction.
  apply IH; trivial. intros Hin. apply Hno. now right.
Qed.

(** X27. The save that [updateTask] starts is awaited by nobody: when it
    is rejected, the task of the map is updated all the same and the
    [downloads] store keeps what it held, and the manager goes on as it
    does after a save that was carried out. Whatever happens next, short of
    a new loading of the persisted tasks, is enabled in the one case if and
    only if it is in the other, and leads to worlds that differ in their
    [downloads] stores at most. *)
Theorem rejected_save_goes_unnoticed
    (i : string) (u : TaskUpdates) (w : World) (events : list Event) :
  ~ In EvLoad events ->
  store (updateTask_unsaved i u w) = store (updateTask i u w) /\
  db (updateTask_unsaved i u w) = db w /\
  match run events (updateTask_unsaved i u w), run events (updateTask i u w) with
  | Some a, Some b => sameButDownloads a b
  | None, None => True
  | _, _ => False
  end.
Proof.
  intros Hno.
  assert (Hs : store (updateTask_unsaved i u w) = store (updateTask i u w)).
  { unfold updateTask_unsaved, updateTask. now destruct (map_get i (tasks (store w))). }
  assert (Hd : db (updateTask_unsaved i u w) = db w).
  { unfold updateTask_unsaved. now destruct (map_get i (tasks (store w))). }
  split; [exact Hs|]. split; [exact Hd|].
  apply run_ignores_downloads; trivial.
  unfold updateTask_unsaved, updateTask.
  destruct (map_get i (tasks (store w))); repeat split.
Qed.

(** The task of [X] is paused while the save is rejected, and resumed
    later: the store is what it is when the save was carried out, while the
    [downloads] store still holds the record that was there before. *)
Lemma rejected_save_example :
  ~ In EvLoad [EvResume "X"] /\
  run [EvResume "X"] (updateTask_unsaved "X" (statusOnly paused) fetchingWorld)
  <> None /\
  option_map store
    (run [EvResume "X"] (updateTask_unsaved "X" (statusOnly paused) fetchingWorld))
  = option_map store
      (run [EvResume "X"] (updateTask "X" (statusOnly paused) fetchingWorld)) /\
  option_map status
    (idb_get lectureId "X"
       (downloads (db (updateTask_unsaved "X" (statusOnly paused) fetchingWorld))))
  = Some downloading.
Proof.
  assert (Hno : ~ In EvLoad [EvResume "X"]) by (intros [H|[]]; discriminate H).
  split; [exact Hno|]. split; [vm_compute; discriminate|].
  pose proof (proj2 (proj2 (rejected_save_goes_unnoticed "X" (statusOnly paused)
                              fetchingWorld [EvResume "X"] Hno))) as H.
  split; [|reflexivity].
  cbn [run step option_map] in H |- *. exact (f_equal Some (proj1 H)).
Defined.

Lemma map_get_loaded (f : DownloadTask -> DownloadTask) (t : DownloadTask)
    (l : list DownloadTask) :
  uniqueKeys lectureId l = true -> In t l ->
  map_get (lectureId t) (map (fun x => (lectureId x, f x)) l) = Some (f t).
Proof.
  induction l as [|x l IH]; simpl; [tauto|].
  intros Hu [->|Hin].
  - now rewrite String.eqb_refl.
  - apply andb_prop in Hu as [Hn Hu]. apply negb_true_iff in Hn.
    destruct (String.eqb_spec (lectureId x) (lectureId t)) as [E|E]; [|auto].
    exfalso.
    assert (existsb (fun y => (lectureId y =? lectureId x)%string) l = true).
    { apply existsb_exists. exists t. split; trivial. now apply String.eqb_eq. }
    congruence.
Qed.

(** X28. An enqueue survives a restart: when [queueDownload] has accepted
    a lecture, a manager constructed afterwards on the same database finds,
    once it has loaded the persisted tasks, the fresh [pending] task of the
    lecture in its map. *)
Theorem enqueued_task_survives_restart
    (lecture : Lecture) (w : World) (est : StorageManager.StorageEstimate) (now : Z) :
  dbOrdered (db w) = true ->
  fst (queueDownload lecture w) = inl tt ->
  (forall t, map_get (id lecture) (tasks (store w)) = Some t ->
             status t <> completed /\ status t <> downloading) ->
  map_get (id lecture)
    (tasks (store (loadExistingTasks
                     (initialWorld (db (snd (queueDownload lecture w))) est now))))
  = Some (freshTask lecture).
Proof.
  intros Ho Hok Hno.
  assert (Hno' : match map_get (id lecture) (tasks (store w)) with
                 | Some task => Status_eqb (status task) completed
                                || Status_eqb (status task) downloading
                 | None => false
                 end = false).
  { destruct (map_get (id lecture) (tasks (store w))) as [t|]; trivial.
    destruct (Hno t eq_refl). destruct (status t); simpl; congruence. }
  assert (Hdb : downloads (db (snd (queueDownload lecture w)))
                = idb_put lectureId (freshTask lecture) (downloads (db w))).
  { unfold queueDownload in *. rewrite Hno' in *.
    destruct (negb (checkStorageAvailability (fileSize lecture) w)); [discriminate|].
    simpl. now rewrite processQueue_db. }
  apply dbOrdered_parts in Ho as (_ & _ & Hd).
  assert (Hu : uniqueKeys lectureId (downloads (db (snd (queueDownload lecture w)))) = true).
  { rewrite Hdb. now apply keyOrdered_unique, idb_put_ordered. }
  assert (Hin : In (freshTask lecture) (downloads (db (snd (queueDownload lecture w))))).
  { rewrite Hdb.
    exact (proj2 (idb_get_key lectureId _ _ _
                    (idb_get_put_same lectureId (freshTask lecture) (downloads (db w))))). }
  unfold loadExistingTasks, StorageManager.getAllDownloads, idb_getAll. simpl.
  rewrite load_fold; trivial. simpl.
  exact (map_get_loaded resetInterrupted (freshTask lecture) _ Hu Hin).
Qed.

Lemma enqueued_task_survives_restart_example :
  dbOrdered (db declared1000) = true /\
  fst (queueDownload (lectureOf "X" 1000) declared1000) = inl tt /\
  map_get "X"
    (tasks (store (loadExistingTasks
                     (initialWorld (db (snd (queueDownload (lectureOf "X" 1000) declared1000)))
                                   None 99))))
  = Some (freshTask (lectureOf "X" 1000)).
Proof.
  split; [reflexivity|]. split; [reflexivity|].
  refine (enqueued_task_survives_restart (lectureOf "X" 1000) declared1000 None 99
            eq_refl eq_refl _).
  intros t Ht. discriminate Ht.
Defined.

End PersistenceFacts.
